(** * focus-stack: content-region bookkeeping and the load / save stage tasks

    A shallow embedding of [src/worker.hh], [src/task_loadimg.cc] and
    [src/task_saveimg.cc].  Image buffers live in an explicit heap so that
    sharing a buffer ([cv::Mat] assignment) and copying it ([clone]) are
    different things; the clock, the file system seen by the codec and the
    sequence of codec calls are threaded through a small state-and-exception
    monad. *)

From Stdlib Require Import ZArith Lia Bool Floats.SpecFloat.
From stdpp Require Import base list strings relations.

Local Open Scope Z_scope.

(* ===================================================================== *)
(** ** 32-bit [int] arithmetic *)
(* ===================================================================== *)

Module Int32.

Definition min_int : Z := - 2 ^ 31.
Definition max_int : Z := 2 ^ 31 - 1.

(** Two's-complement wrap-around of a mathematical integer into [int].
    (Signed overflow is undefined in C++; the model wraps, and every
    theorem that depends on an addition or subtraction fitting says so.) *)
Definition wrap (z : Z) : Z := (z + 2 ^ 31) mod 2 ^ 32 - 2 ^ 31.

Definition fits (z : Z) : Prop := min_int <= z <= max_int.

Definition add (a b : Z) : Z := wrap (a + b).
Definition sub (a b : Z) : Z := wrap (a - b).

(** [a / b] on [int] truncates towards zero. *)
Definition div (a b : Z) : Z := wrap (Z.quot a b).

End Int32.

(* ===================================================================== *)
(** ** [cv::Point], [cv::Size], [cv::Rect] *)
(* ===================================================================== *)

Module Point.
Record t : Type := mk { x : Z; y : Z }.
End Point.

Module Size.
Record t : Type := mk { width : Z; height : Z }.

Definition eqb (a b : t) : bool :=
  (width a =? width b) && (height a =? height b).
End Size.

Module Rect.
Record t : Type := mk { x : Z; y : Z; width : Z; height : Z }.

(** [cv::Rect()] *)
Definition zero : t := mk 0 0 0 0.

(** [cv::Rect(cv::Point, cv::Size)] *)
Definition of_point_size (p : Point.t) (s : Size.t) : t :=
  mk (Point.x p) (Point.y p) (Size.width s) (Size.height s).

(** The pixels a rectangle denotes: [x <= px < x + width] and
    [y <= py < y + height] (as [cv::Rect::contains]). *)
Definition contains (r : t) (px py : Z) : Prop :=
  x r <= px < x r + width r /\ y r <= py < y r + height r.

Definition containsb (r : t) (px py : Z) : bool :=
  (x r <=? px) && (px <? x r + width r) &&
  (y r <=? py) && (py <? y r + height r).
End Rect.

(* ===================================================================== *)
(** ** Pixel buffers, [cv::Mat] headers and the heap *)
(* ===================================================================== *)

(** One pixel: its channel values.  Element values are integers here;
    the rounding of floating-point elements is not modelled. *)
Abbreviation Pixel := (list Z).

(** A dense buffer, row by row. *)
Abbreviation Buffer := (list (list Pixel)).

(** The heap of pixel buffers; a data pointer is an index into it. *)
Abbreviation Heap := (list Buffer).

(** The depth codes of OpenCV: [CV_8U], [CV_8S], [CV_16U], [CV_16S] and
    [CV_32S] are the integer element types, in this order. *)
Definition CV_8U : Z := 0.
Definition CV_32S : Z := 4.

(** A [cv::Mat] header.  [data = None] is the null data pointer.  A
    sub-matrix view shares the buffer of its parent and starts at
    ([roi_y], [roi_x]) inside it. *)
Record Mat : Type := mkMat {
  data : option nat;
  rows : Z;
  cols : Z;
  roi_y : Z;
  roi_x : Z;
  depth : Z;
  channels : Z
}.

(** [cv::Mat()] *)
Definition Mat_empty : Mat := mkMat None 0 0 0 0 CV_8U 1.

Definition Mat_size (m : Mat) : Size.t := Size.mk (cols m) (rows m).

(** [m.empty()] *)
Definition Mat_is_empty (m : Mat) : bool :=
  match data m with
  | None => true
  | Some _ => (rows m =? 0) || (cols m =? 0)
  end.

Definition tabulate {A : Type} (n : Z) (f : Z -> A) : list A :=
  f <$> seqZ 0 n.

Definition tabulate2 (nrows ncols : Z) (f : Z -> Z -> Pixel) : Buffer :=
  tabulate nrows (fun r => tabulate ncols (fun c => f r c)).

Definition Buffer_at (b : Buffer) (r c : Z) : Pixel :=
  if (r <? 0) || (c <? 0) then []
  else match b !! Z.to_nat r with
       | Some row => default [] (row !! Z.to_nat c)
       | None => []
       end.

(** The pixel of [m] at row [r], column [c], read through the heap. *)
Definition Mat_at (h : Heap) (m : Mat) (r c : Z) : Pixel :=
  match data m with
  | Some p =>
      match h !! p with
      | Some b => Buffer_at b (roi_y m + r) (roi_x m + c)
      | None => []
      end
  | None => []
  end.

(** The whole visible content of [m], as the codec sees it. *)
Record Image : Type := mkImage {
  i_rows : Z;
  i_cols : Z;
  i_depth : Z;
  i_channels : Z;
  i_pixels : Buffer
}.

Definition Mat_snapshot (h : Heap) (m : Mat) : Image :=
  mkImage (rows m) (cols m) (depth m) (channels m)
          (tabulate2 (rows m) (cols m) (Mat_at h m)).

(* ===================================================================== *)
(** ** The world: heap, clock, file system, codec trace *)
(* ===================================================================== *)

(** What a path holds at some instant: nothing readable, or a readable
    file whose bytes decode to an image or do not. *)
Inductive FileStatus : Type :=
| Missing
| Present (decoded : option Image).

Inductive Event : Type :=
| EvImread (path : string) (at_ms : Z)
| EvSleep (ms : Z)
| EvImwrite (path : string) (img : Image) (params : list Z).

(** How long the blocking calls of a run take, which the program does not
    control: a [sleep_for] entered at time [t] returns [oversleep t] ms
    later than asked (the call blocks for at least the time asked), and a
    decode entered at time [t] takes [decode_time t] ms.  Negative values
    count as 0. *)
Record Timing : Type := mkTiming {
  oversleep : Z -> Z;
  decode_time : Z -> Z
}.

(** [clock] is [std::chrono::system_clock::now()] in milliseconds; [fs]
    is the file system as an external producer makes it evolve in time;
    [timing] is what the machine makes of the blocking calls. *)
Record World : Type := mkWorld {
  heap : Heap;
  clock : Z;
  fs : Z -> string -> FileStatus;
  trace : list Event;
  timing : Timing
}.

Inductive Outcome (A : Type) : Type :=
| Ok (a : A)
| Throw (what : string).
Arguments Ok {A} a.
Arguments Throw {A} what.

(** Computations that read and update the world and may raise. *)
Definition M (A : Type) : Type := World -> Outcome A * World.

Definition ret {A : Type} (a : A) : M A := fun w => (Ok a, w).

Definition bind {A B : Type} (c : M A) (k : A -> M B) : M B :=
  fun w =>
    match c w with
    | (Ok a, w') => k a w'
    | (Throw e, w') => (Throw e, w')
    end.

Definition throw {A : Type} (what : string) : M A := fun w => (Throw what, w).

Notation "'let*' x ':=' c1 'in' c2" := (bind c1 (fun x => c2))
  (at level 10, x name, c1 at level 100, c2 at level 200).

Definition get_heap : M Heap := fun w => (Ok (heap w), w).

Definition emit (e : Event) : M unit :=
  fun w => (Ok tt, mkWorld (heap w) (clock w) (fs w) (trace w ++ [e])
                           (timing w)).

(** Allocate a fresh buffer; its pointer is the next free index. *)
Definition alloc (b : Buffer) : M nat :=
  fun w => (Ok (length (heap w)),
            mkWorld (heap w ++ [b]) (clock w) (fs w) (trace w) (timing w)).

(** Overwrite the buffer at [p] in place. *)
Definition store (p : nat) (b : Buffer) : M unit :=
  fun w => (Ok tt, mkWorld (<[p := b]> (heap w)) (clock w) (fs w) (trace w)
                           (timing w)).

(** [std::chrono::system_clock::now()] *)
Definition now : M Z := fun w => (Ok (clock w), w).

(** The time at which a [sleep_for] of [ms] milliseconds entered at time
    [t] returns: not before [t + ms]. *)
Definition wake (tm : Timing) (ms t : Z) : Z :=
  t + Z.max 0 ms + Z.max 0 (oversleep tm t).

(** The time at which a decode entered at time [t] returns. *)
Definition decode_end (tm : Timing) (t : Z) : Z :=
  t + Z.max 0 (decode_time tm t).

(** [std::this_thread::sleep_for(std::chrono::milliseconds(ms))] *)
Definition sleep_for (ms : Z) : M unit :=
  fun w => (Ok tt, mkWorld (heap w) (wake (timing w) ms (clock w)) (fs w)
                           (trace w ++ [EvSleep ms]) (timing w)).

(** The time a decode takes goes by. *)
Definition decoding : M unit :=
  fun w => (Ok tt, mkWorld (heap w) (decode_end (timing w) (clock w)) (fs w)
                           (trace w) (timing w)).

(** [std::ifstream f(path); f.good()] *)
Definition ifstream_good (path : string) : M bool :=
  fun w => (Ok match fs w (clock w) path with
               | Missing => false
               | Present _ => true
               end, w).

Definition fs_lookup (path : string) : M FileStatus :=
  fun w => (Ok (fs w (clock w) path), w).

(* ===================================================================== *)
(** ** The OpenCV operations the tasks call

    OpenCV is an external library; these definitions follow its documented
    behaviour, including the argument checks ([CV_Assert]) that raise. *)
(* ===================================================================== *)

(** [b] with the window of [nrows] x [ncols] pixels at ([oy], [ox])
    overwritten by [f]; pixels outside the window keep their value. *)
Definition Buffer_write (b : Buffer) (oy ox nrows ncols : Z)
    (f : Z -> Z -> Pixel) : Buffer :=
  tabulate (Z.of_nat (length b)) (fun r =>
    tabulate (Z.of_nat (length (default [] (b !! Z.to_nat r)))) (fun c =>
      if (oy <=? r) && (r <? oy + nrows) && (ox <=? c) && (c <? ox + ncols)
      then f (r - oy) (c - ox)
      else Buffer_at b r c)).

(** Write [f r c] to every pixel of [m], in place. *)
Definition Mat_fill (m : Mat) (f : Z -> Z -> Pixel) : M unit :=
  match data m with
  | Some p =>
      let* h := get_heap in
      match h !! p with
      | Some b => store p (Buffer_write b (roi_y m) (roi_x m) (rows m) (cols m) f)
      | None => ret tt
      end
  | None => ret tt
  end.

(** [dst.create(nrows, ncols, CV_MAKETYPE(dp, cn))]: keeps the buffer of
    [dst] when it already has that size and type, allocates an
    uninitialised one otherwise. *)
Definition Mat_create (dst : Mat) (nrows ncols dp cn : Z) : M Mat :=
  if (nrows <? 0) || (ncols <? 0) then throw "Mat::create: negative size"
  else if bool_decide (is_Some (data dst)) && (rows dst =? nrows) &&
          (cols dst =? ncols) && (depth dst =? dp) && (channels dst =? cn)
  then ret dst
  else if (nrows =? 0) || (ncols =? 0)
  then ret (mkMat None nrows ncols 0 0 dp cn)
  else
    let* p := alloc (tabulate2 nrows ncols (fun _ _ => [])) in
    ret (mkMat (Some p) nrows ncols 0 0 dp cn).

(** [cv::Mat m(nrows, ncols, type)] *)
Definition Mat_new (nrows ncols dp cn : Z) : M Mat :=
  Mat_create Mat_empty nrows ncols dp cn.

(** [m(roi)]: a view onto the same buffer. *)
Definition Mat_roi (m : Mat) (roi : Rect.t) : M Mat :=
  if (0 <=? Rect.x roi) && (0 <=? Rect.width roi) &&
     (Int32.add (Rect.x roi) (Rect.width roi) <=? cols m) &&
     (0 <=? Rect.y roi) && (0 <=? Rect.height roi) &&
     (Int32.add (Rect.y roi) (Rect.height roi) <=? rows m)
  then
    if (Rect.height roi <=? 0) || (Rect.width roi <=? 0)
    then ret (mkMat None 0 0 0 0 (depth m) (channels m))
    else ret (mkMat (data m) (Rect.height roi) (Rect.width roi)
                    (roi_y m + Rect.y roi) (roi_x m + Rect.x roi)
                    (depth m) (channels m))
  else throw "Mat::Mat(m, roi): roi outside of the matrix".

(** [m.clone()]: a deep copy into a fresh buffer. *)
Definition Mat_clone (m : Mat) : M Mat :=
  if Mat_is_empty m then ret Mat_empty
  else
    let* h := get_heap in
    let* p := alloc (tabulate2 (rows m) (cols m) (Mat_at h m)) in
    ret (mkMat (Some p) (rows m) (cols m) 0 0 (depth m) (channels m)).

(** [cv::borderInterpolate(p, len, cv::BORDER_REFLECT)]: fedcba|abcdefgh|hgfedcb.
    OpenCV reflects until the index is in range, which is folding with
    period [2 * len]. *)
Definition borderInterpolate_reflect (p len : Z) : Z :=
  if (0 <=? p) && (p <? len) then p
  else if len =? 1 then 0
  else
    let q := p mod (2 * len) in
    if q <? len then q else 2 * len - 1 - q.

(** [cv::copyMakeBorder(src, dst, top, bottom, left, right, cv::BORDER_REFLECT)]
    for a [src] that is not a sub-matrix view. *)
Definition copyMakeBorder (src dst : Mat) (top bottom left right : Z) : M Mat :=
  if (0 <=? top) && (0 <=? bottom) && (0 <=? left) && (0 <=? right)
  then
    let* h := get_heap in
    let* d := Mat_create dst
                (Int32.add (Int32.add (rows src) top) bottom)
                (Int32.add (Int32.add (cols src) left) right)
                (depth src) (channels src) in
    let* _ := Mat_fill d (fun i j =>
                Mat_at h src (borderInterpolate_reflect (i - top) (rows src))
                             (borderInterpolate_reflect (j - left) (cols src))) in
    ret d
  else throw "copyMakeBorder: negative border".

(** [cv::imread(path, cv::IMREAD_ANYCOLOR)]: an empty matrix when the file
    is missing or does not decode.  The file is opened when the call is
    entered; the call returns some time later. *)
Definition imread (path : string) : M Mat :=
  let* t := now in
  let* _ := emit (EvImread path t) in
  let* st := fs_lookup path in
  let* _ := decoding in
  match st with
  | Present (Some img) =>
      if (0 <? i_rows img) && (0 <? i_cols img)
      then
        let* p := alloc (i_pixels img) in
        ret (mkMat (Some p) (i_rows img) (i_cols img) 0 0
                   (i_depth img) (i_channels img))
      else ret Mat_empty
  | _ => ret Mat_empty
  end.

(** [cv::imwrite(path, m, params)] *)
Definition imwrite (path : string) (m : Mat) (params : list Z) : M unit :=
  if Mat_is_empty m then throw "imwrite: empty image"
  else
    let* h := get_heap in
    emit (EvImwrite path (Mat_snapshot h m) params).

Definition IMWRITE_JPEG_QUALITY : Z := 1.

(** [cv::saturate_cast<uchar>] *)
Definition saturate_uchar (v : Z) : Z := Z.max 0 (Z.min 255 v).

(** [m.convertTo(m, CV_8U)] for a matrix of an integer element type:
    every element is saturated.  (Floating-point elements would be
    rounded first.) *)
Definition convertTo_8U (m : Mat) : M Mat :=
  if Mat_is_empty m then ret m
  else if depth m =? CV_8U then ret m
  else
    let* h := get_heap in
    let* p := alloc (tabulate2 (rows m) (cols m)
                       (fun r c => saturate_uchar <$> Mat_at h m r c)) in
    ret (mkMat (Some p) (rows m) (cols m) 0 0 CV_8U (channels m)).

(** One plane of [cv::split]. *)
Definition extract_channel (m : Mat) (i : Z) : M Mat :=
  if Mat_is_empty m then ret Mat_empty
  else
    let* h := get_heap in
    let* p := alloc (tabulate2 (rows m) (cols m)
                       (fun r c => match Mat_at h m r c !! Z.to_nat i with
                                   | Some v => [v]
                                   | None => []
                                   end)) in
    ret (mkMat (Some p) (rows m) (cols m) 0 0 (depth m) 1).

Fixpoint mapM {A B : Type} (f : A -> M B) (l : list A) : M (list B) :=
  match l with
  | [] => ret []
  | a :: l' => let* b := f a in let* bs := mapM f l' in ret (b :: bs)
  end.

(** [cv::split(m, planes)] *)
Definition split (m : Mat) : M (list Mat) :=
  mapM (extract_channel m) (seqZ 0 (channels m)).

(** [cv::merge(planes, n, dst)]: all planes must agree in size and depth. *)
Definition merge (planes : list Mat) (dst : Mat) : M Mat :=
  match planes with
  | [] => throw "merge: no input"
  | m0 :: _ =>
      if forallb (fun m => Size.eqb (Mat_size m) (Mat_size m0) &&
                           (depth m =? depth m0)) planes
      then
        let* h := get_heap in
        let* d := Mat_create dst (rows m0) (cols m0) (depth m0)
                    (foldr Z.add 0 (channels <$> planes)) in
        let* _ := Mat_fill d (fun r c =>
                    concat ((fun m => Mat_at h m r c) <$> planes)) in
        ret d
      else throw "merge: size or depth mismatch"
  end.

(* ===================================================================== *)
(** ** [Task] and [ImgTask] (worker.hh) *)
(* ===================================================================== *)

(** A [std::shared_ptr<A>]: the address identifies the object, [pointee]
    is the object as it stands when the pointer is followed. *)
Record shared_ptr (A : Type) : Type := mk_shared {
  addr : nat;
  pointee : A
}.
Arguments mk_shared {A} addr pointee.
Arguments addr {A} s.
Arguments pointee {A} s.

(** The data members of [Task].  The logger, the mutex and the condition
    variable are left out: diagnostics are not modelled, and every function
    below is one call made by one thread. *)
Record Task : Type := mkTask {
  m_filename : string;
  m_index : Z;
  m_jpgquality : Z;
  m_name : string;
  m_depends_on : list nat;
  m_running : bool;
  m_done : bool
}.

(** Modelled from the spec: [Task::Task()] is defined in worker.cc, which
    is not among the sources.  A new task is pending, neither running nor
    done, and has no dependency yet. *)
Definition Task_new : Task :=
  mkTask EmptyString 0 0 EmptyString [] false false.

(** A new task after [m_filename = filename; m_name = name;]. *)
Definition Task_named (filename name : string) : Task :=
  mkTask filename (m_index Task_new) (m_jpgquality Task_new) name
         (m_depends_on Task_new) (m_running Task_new) (m_done Task_new).

Definition is_running (t : Task) : bool := m_running t.
Definition is_completed (t : Task) : bool := m_done t.

(** Modelled from the spec: [Task::ready_to_run()] is defined in worker.cc,
    which is not among the sources.  It is true iff every dependency reports
    [is_completed()].  [completed a] is what the task at address [a]
    answers to [is_completed()] at the time of the call. *)
Definition Task_ready_to_run (completed : nat -> bool) (t : Task) : bool :=
  forallb completed (m_depends_on t).

(** [virtual bool uses_opencl() { return false; }] *)
Definition Task_uses_opencl (t : Task) : bool := false.

Record ImgTask : Type := mkImgTask {
  img_base : Task;
  m_result : Mat;
  m_valid_area : Rect.t
}.

(** [ImgTask() {}] *)
Definition ImgTask_new : ImgTask := mkImgTask Task_new Mat_empty Rect.zero.

(** [ImgTask(cv::Mat result): m_result(result) {}] *)
Definition ImgTask_of (result : Mat) : ImgTask :=
  mkImgTask Task_new result Rect.zero.

Definition img (t : ImgTask) : Mat := m_result t.

Definition has_valid_area (t : ImgTask) : bool :=
  negb (Rect.width (m_valid_area t) =? 0) &&
  negb (Rect.height (m_valid_area t) =? 0).

Definition valid_area (t : ImgTask) : Rect.t :=
  if negb (has_valid_area t)
  then Rect.mk 0 0 (cols (m_result t)) (rows (m_result t))
  else m_valid_area t.

(** The rectangle [extract_original_area] hands to the sub-matrix
    constructor: the valid area clamped to the bounds of [expanded_img]. *)
Definition safeRect (t : ImgTask) (expanded_img : Mat) : Rect.t :=
  let r := m_valid_area t in
  let x := Z.max 0 (Z.min (Rect.x r) (Int32.sub (cols expanded_img) 1)) in
  let y := Z.max 0 (Z.min (Rect.y r) (Int32.sub (rows expanded_img) 1)) in
  let width := Z.min (Rect.width r) (Int32.sub (cols expanded_img) x) in
  let height := Z.min (Rect.height r) (Int32.sub (rows expanded_img) y) in
  Rect.mk x y width height.

Definition extract_original_area (t : ImgTask) (expanded_img : Mat) : M Mat :=
  if negb (has_valid_area t) then ret expanded_img
  else if (Rect.x (m_valid_area t) =? 0) && (Rect.y (m_valid_area t) =? 0) &&
          (Rect.width (m_valid_area t) =? cols expanded_img) &&
          (Rect.height (m_valid_area t) =? rows expanded_img)
  then ret expanded_img
  else
    let* view := Mat_roi expanded_img (safeRect t expanded_img) in
    Mat_clone view.

Definition img_cropped (t : ImgTask) : M Mat :=
  let result := img t in
  if has_valid_area t &&
     ((0 <? Rect.x (m_valid_area t)) || (0 <? Rect.y (m_valid_area t)) ||
      (Rect.width (m_valid_area t) <? cols result) ||
      (Rect.height (m_valid_area t) <? rows result))
  then extract_original_area t result
  else ret result.

Definition limit_valid_area (t : ImgTask) (other : Rect.t) : ImgTask :=
  let va := m_valid_area t in
  let x0 := Z.max (Rect.x va) (Rect.x other) in
  let y0 := Z.max (Rect.y va) (Rect.y other) in
  let x1 := Z.min (Int32.add (Rect.x va) (Rect.width va))
                  (Int32.add (Rect.x other) (Rect.width other)) in
  let y1 := Z.min (Int32.add (Rect.y va) (Rect.height va))
                  (Int32.add (Rect.y other) (Rect.height other)) in
  mkImgTask (img_base t) (m_result t)
            (Rect.mk x0 y0 (Int32.sub x1 x0) (Int32.sub y1 y0)).

(* ===================================================================== *)
(** ** [Task_LoadImg] (task_loadimg.cc) *)
(* ===================================================================== *)

(** A C++ [float]: an IEEE 754 binary32 value. *)
Module Float.

Definition t : Type := spec_float.

Definition zero : t := S754_zero false.

(** The product of two [float]s, rounded to nearest, ties to even. *)
Definition mul (a b : t) : t := SFmul 24 128 a b.

(** [(float)z] for an [int] [z], rounded to nearest, ties to even. *)
Definition of_int (z : Z) : t := binary_normalize 24 128 z 0 false.

(** The integral part of a finite value, rounded towards zero. *)
Definition trunc (a : t) : option Z :=
  match a with
  | S754_zero _ => Some 0
  | S754_finite s m e =>
      let magnitude :=
        if 0 <=? e then Z.pos m * 2 ^ e else Z.pos m / 2 ^ (- e) in
      Some (if s then - magnitude else magnitude)
  | _ => None
  end.

(** [(int)a].  The conversion of a value whose integral part is not an
    [int], of an infinity or of a NaN is undefined in C++; it is [INT_MIN]
    here, which is what the x86-64 conversion instruction gives. *)
Definition to_int (a : t) : Z :=
  match trunc a with
  | Some z => if (Int32.min_int <=? z) && (z <=? Int32.max_int) then z
              else Int32.min_int
  | None => Int32.min_int
  end.

(** [a < b]; false when either is a NaN. *)
Definition ltb (a b : t) : bool := SFltb a b.

End Float.

(** [m_wait_images] is a [float] number of seconds. *)
Record Task_LoadImg : Type := mkLoadImg {
  load_img : ImgTask;
  m_wait_images : Float.t;
  m_wait_images_until : Z;
  m_orig_size : Size.t;
  m_original_image : Mat
}.

(** [(int)(wait_images * 1000)]: the [int] 1000 is converted to [float]
    and the product is a [float]. *)
Definition wait_ms (wait_images : Float.t) : Z :=
  Float.to_int (Float.mul wait_images (Float.of_int 1000)).

(** [wait_images > 0] *)
Definition wait_positive (wait_images : Float.t) : bool :=
  Float.ltb Float.zero wait_images.

(** [Task_LoadImg(std::string filename, float wait_images)] *)
Definition Task_LoadImg_path (filename : string) (wait_images : Float.t)
    : M Task_LoadImg :=
  let* t := now in
  ret (mkLoadImg
         (mkImgTask (Task_named filename ("Load " +:+ filename))
                    (m_result ImgTask_new) (m_valid_area ImgTask_new))
         wait_images (t + wait_ms wait_images) (Size.mk 0 0) Mat_empty).

(** [Task_LoadImg(std::string name, const cv::Mat &img)] *)
Definition Task_LoadImg_memory (name : string) (image : Mat) : M Task_LoadImg :=
  let* copy := Mat_clone image in
  let* t := now in
  ret (mkLoadImg
         (mkImgTask (Task_named name ("Memory image " +:+ name))
                    copy (m_valid_area ImgTask_new))
         Float.zero (t + wait_ms Float.zero) (Size.mk 0 0) Mat_empty).

Module LoadImg.

Definition filename (t : Task_LoadImg) : string :=
  m_filename (img_base (load_img t)).

Definition ready_to_run (completed : nat -> bool) (t : Task_LoadImg) : M bool :=
  if negb (Task_ready_to_run completed (img_base (load_img t)))
  then ret false
  else
    let* t_now := now in
    if wait_positive (m_wait_images t) && (t_now <? m_wait_images_until t)
    then
      let* good := ifstream_good (filename t) in
      if negb good then ret false else ret true
    else ret true.

(** The loop [while (!m_result.data && now() < m_wait_images_until)].
    [None] means the fuel ran out before the loop ended. *)
Fixpoint wait_loop (fuel : nat) (path : string) (until : Z) (result : Mat)
    : M (option Mat) :=
  let* t_now := now in
  if bool_decide (data result = None) && (t_now <? until)
  then
    match fuel with
    | O => ret None
    | S fuel' =>
        let* _ := sleep_for 100 in
        let* result' := imread path in
        wait_loop fuel' path until result'
    end
  else ret (Some result).

(** Lines 51-60: decode unless an image was supplied, then retry while
    there is none and the wait window is open. *)
Definition acquire (fuel : nat) (t : Task_LoadImg) : M (option Mat) :=
  let* first :=
    (if bool_decide (data (m_result (load_img t)) = None)
     then imread (filename t)
     else ret (m_result (load_img t))) in
  wait_loop fuel (filename t) (m_wait_images_until t) first.

Section WithWavelet.

(** [Task_Wavelet::levels_for_size(size, &expanded)] belongs to the
    wavelet stage, which is not among the sources: it returns the
    number of levels and the size the transform needs. *)
Variable levels_for_size : Size.t -> Z * Size.t.

(** Lines 67-102: what [task()] does once an image is there. *)
Definition pad_loaded (t : Task_LoadImg) (result : Mat) : M Task_LoadImg :=
  let orig_size := Mat_size result in
  let valid := Rect.mk 0 0 (cols result) (rows result) in
  let* original_image := Mat_clone result in
  let expanded := snd (levels_for_size orig_size) in
  if negb (Size.eqb expanded orig_size)
  then
    let expand_x := Int32.sub (Size.width expanded) (Size.width orig_size) in
    let expand_y := Int32.sub (Size.height expanded) (Size.height orig_size) in
    let* tmp := Mat_new (Size.height expanded) (Size.width expanded)
                        (depth result) (channels result) in
    let* tmp' := copyMakeBorder result tmp
                   (Int32.div expand_y 2)
                   (Int32.sub expand_y (Int32.div expand_y 2))
                   (Int32.div expand_x 2)
                   (Int32.sub expand_x (Int32.div expand_x 2)) in
    ret (mkLoadImg
           (mkImgTask (img_base (load_img t)) tmp'
              (Rect.of_point_size
                 (Point.mk (Int32.div expand_x 2) (Int32.div expand_y 2))
                 orig_size))
           (m_wait_images t) (m_wait_images_until t)
           orig_size original_image)
  else
    ret (mkLoadImg
           (mkImgTask (img_base (load_img t)) result valid)
           (m_wait_images t) (m_wait_images_until t)
           orig_size original_image).

(** [Task_LoadImg::task()].  The state of a task whose [task()] raised
    is not observed afterwards, so an exception carries no state. *)
Definition task (fuel : nat) (t : Task_LoadImg) : M (option Task_LoadImg) :=
  let* waited := acquire fuel t in
  match waited with
  | None => ret None
  | Some result =>
      if bool_decide (data result = None)
      then throw ("Could not load " +:+ filename t)
      else
        let* t' := pad_loaded t result in
        ret (Some t')
  end.

End WithWavelet.

End LoadImg.

(* ===================================================================== *)
(** ** [Task_SaveImg] (task_saveimg.cc) *)
(* ===================================================================== *)

(** [Task_SaveImg] is an [ImgTask] (it assigns [m_result] and
    [m_valid_area] and calls [has_valid_area()] on itself); its class
    declaration, task_saveimg.hh, is not among the sources.  [None] is the
    null pointer. *)
Record Task_SaveImg : Type := mkSaveImg {
  save_img : ImgTask;
  m_input : option (shared_ptr ImgTask);
  m_alphamask : option (shared_ptr ImgTask);
  m_nocrop : bool
}.

Module SaveImg.

Definition memory_sentinel : string := ":memory:".

(** The test of lines 12 and 122: the file name is neither empty nor the
    in-memory sentinel. *)
Definition writes_file (filename : string) : bool :=
  negb (String.eqb filename EmptyString) &&
  negb (String.eqb filename memory_sentinel).

Definition filename (t : Task_SaveImg) : string :=
  m_filename (img_base (save_img t)).

(** [Task_SaveImg(filename, input, alphamask, jpgquality, nocrop)] *)
Definition new (filename : string) (input : shared_ptr ImgTask)
    (alphamask : option (shared_ptr ImgTask)) (jpgquality : Z)
    (nocrop : bool) : Task_SaveImg :=
  let name :=
    if writes_file filename
    then "Save " +:+ filename
    else "Final crop " +:+ m_filename (img_base (pointee input)) in
  let depends :=
    m_depends_on Task_new ++ [addr input] ++
    match alphamask with
    | Some a => [addr a]
    | None => []
    end in
  mkSaveImg
    (mkImgTask
       (mkTask filename (m_index Task_new) jpgquality name depends
               (m_running Task_new) (m_done Task_new))
       (m_result ImgTask_new) (m_valid_area ImgTask_new))
    (Some input) alphamask nocrop.

(** Lines 35-72: choose the result and its valid area.  Every unqualified
    call ([has_valid_area()], [extract_original_area(...)]) is a call on
    the save task itself, [self]; the qualified ones go to [input]. *)
Definition select_result (self : ImgTask) (input : ImgTask) (nocrop : bool)
    : M (Mat * Rect.t) :=
  let inputImg := img input in
  let validArea := valid_area input in
  if nocrop
  then
    if has_valid_area self &&
       ((0 <? Rect.x validArea) || (0 <? Rect.y validArea) ||
        (Rect.width validArea <? cols inputImg) ||
        (Rect.height validArea <? rows inputImg))
    then
      let* result := extract_original_area self inputImg in
      ret (result, Rect.mk 0 0 (cols result) (rows result))
    else ret (inputImg, validArea)
  else
    let* unpadded := extract_original_area self inputImg in
    let* result := img_cropped input in
    ret (result, Rect.mk 0 0 (cols result) (rows result)).

(** Lines 74-84: a 2-channel result becomes a 3-channel 8-bit image. *)
Definition complex_to_rgb (result : Mat) : M Mat :=
  if channels result =? 2
  then
    let* planes := split result in
    let* planes8 := mapM convertTo_8U planes in
    let* blank := Mat_new (rows result) (cols result) CV_8U 1 in
    let* _ := Mat_fill blank (fun _ _ => [0]) in
    merge (planes8 ++ [blank]) result
  else ret result.

(** Lines 87-116: the optional alpha channel.  [cv::Mat channels[4]] has
    room for four planes; splitting more than four into it is outside
    the language and is a raise here. *)
Definition add_alpha (result : Mat) (alphamask : option (shared_ptr ImgTask))
    (nocrop : bool) : M Mat :=
  match alphamask with
  | None => ret result
  | Some alpha =>
      let* planes :=
        (if channels result =? 1
         then ret [result; result; result]
         else if 4 <? channels result
         then throw "channels[4]: index out of range"
         else split result) in
      let* mask :=
        (if nocrop
         then
           let maskImg := img (pointee alpha) in
           if has_valid_area (pointee alpha)
           then extract_original_area (pointee alpha) maskImg
           else ret maskImg
         else img_cropped (pointee alpha)) in
      merge (<[3%nat := mask]> (take 4 (planes ++ replicate 4 Mat_empty)))
            result
  end.

(** Lines 122-128. *)
Definition write_output (path : string) (result : Mat) (jpgquality : Z)
    : M unit :=
  if writes_file path
  then imwrite path result [IMWRITE_JPEG_QUALITY; jpgquality]
  else ret tt.

(** Lines 35-116: the result and its valid area, before any output. *)
Definition composite (t : Task_SaveImg) : M (Mat * Rect.t) :=
  match m_input t with
  | None => throw "m_input is null"
  | Some input =>
      let* selected := select_result (save_img t) (pointee input) (m_nocrop t) in
      let* rgb := complex_to_rgb (fst selected) in
      let* composited := add_alpha rgb (m_alphamask t) (m_nocrop t) in
      ret (composited, snd selected)
  end.

(** [Task_SaveImg::task()] *)
Definition task (t : Task_SaveImg) : M Task_SaveImg :=
  let* c := composite t in
  let* _ := write_output (filename t) (fst c)
                         (m_jpgquality (img_base (save_img t))) in
  ret (mkSaveImg (mkImgTask (img_base (save_img t)) (fst c) (snd c))
                 None None (m_nocrop t)).

End SaveImg.

(* ===================================================================== *)
(** ** [Worker]: the scheduler as a transition system *)
(* ===================================================================== *)

Module Worker.

(** What the scheduler asks of a task object: its dependency list and
    its answer to [uses_opencl()], both fixed at construction. *)
Record TaskInfo : Type := mkInfo {
  depends : list nat;
  uses_opencl : bool
}.

(** The data members of [Worker] that scheduling reads and writes
    (worker.hh, lines 154-161), plus [done]: the tasks that report
    [is_completed()]. *)
Record t : Type := mk {
  m_tasks : list nat;
  m_running : list nat;
  m_total_tasks : Z;
  m_completed_tasks : Z;
  m_opencl_users : Z;
  done : list nat
}.

(** Modelled from the spec: [Worker::Worker] is defined in worker.cc, which
    is not among the sources.  A new Worker has nothing queued, nothing
    running and all counters at zero. *)
Definition init : t := mk [] [] 0 0 0 [].

(** Erase one occurrence of [x] (the dequeue, and the erase from the
    running set). *)
Fixpoint remove_first (x : nat) (l : list nat) : list nat :=
  match l with
  | [] => []
  | y :: l' => if Nat.eqb x y then l' else y :: remove_first x l'
  end.

Section Scheduler.

(** The task objects, by address. *)
Variable info : nat -> TaskInfo.
(** The size of the thread pool and the cap on running tasks that use
    the constrained resource. *)
Variable max_threads : Z.
Variable opencl_cap : Z.

(** Modelled from the spec: [Worker::add] is defined in worker.cc, which
    is not among the sources.  It appends to the pending queue's tail
    and increments the total-task counter. *)
Definition add (task : nat) (s : t) : t :=
  mk (m_tasks s ++ [task]) (m_running s) (m_total_tasks s + 1)
     (m_completed_tasks s) (m_opencl_users s) (done s).

(** Modelled from the spec: [Worker::prepend] is defined in worker.cc.
    It inserts at the queue's head. *)
Definition prepend (task : nat) (s : t) : t :=
  mk (task :: m_tasks s) (m_running s) (m_total_tasks s + 1)
     (m_completed_tasks s) (m_opencl_users s) (done s).

(** Modelled from the spec: [Task::ready_to_run()] (worker.cc), read off
    the scheduler's state: every dependency has completed. *)
Definition ready_to_run (s : t) (task : nat) : bool :=
  forallb (fun d => bool_decide (d ∈ done s)) (depends (info task)).

(** Modelled from the spec: the scan of [Worker::worker] (worker.cc).
    Under the shared lock, the first task of the pending queue whose
    [ready_to_run()] holds and, if it declares [uses_opencl()], for
    which the running-resource counter is below the cap. *)
Definition eligible (s : t) (task : nat) : bool :=
  ready_to_run s task &&
  (negb (uses_opencl (info task)) || (m_opencl_users s <? opencl_cap)).

(** Modelled from the spec: the first eligible task, in queue order. *)
Definition pick (s : t) : option nat := List.find (eligible s) (m_tasks s).

(** Modelled from the spec: dequeue the task, mark it running and
    increment the resource counter if applicable. *)
Definition start (task : nat) (s : t) : t :=
  mk (remove_first task (m_tasks s)) (task :: m_running s)
     (m_total_tasks s) (m_completed_tasks s)
     (if uses_opencl (info task) then m_opencl_users s + 1
      else m_opencl_users s)
     (done s).

(** Modelled from the spec: on return of [run()], under the lock again,
    decrement the counters and increment the completed counter; the
    task now reports [is_completed()]. *)
Definition finish (task : nat) (s : t) : t :=
  mk (m_tasks s) (remove_first task (m_running s))
     (m_total_tasks s) (m_completed_tasks s + 1)
     (if uses_opencl (info task) then m_opencl_users s - 1
      else m_opencl_users s)
     (task :: done s).

(** Modelled from the spec: what can happen to a Worker, one section under
    its lock at a time.  The orchestrator adds or prepends a task; an idle
    pool thread (there are [max_threads] of them) starts the task it
    picked; a running task returns from [run()]. *)
Inductive step : t -> t -> Prop :=
| step_add (task : nat) (s : t) :
    step s (add task s)
| step_prepend (task : nat) (s : t) :
    step s (prepend task s)
| step_start (task : nat) (s : t) :
    Z.of_nat (length (m_running s)) < max_threads ->
    pick s = Some task ->
    step s (start task s)
| step_finish (task : nat) (s : t) :
    task ∈ m_running s ->
    step s (finish task s).

(** The states a Worker can be in. *)
Definition reachable (s : t) : Prop := rtc step init s.

(** The running tasks that hold the constrained resource. *)
Definition opencl_running (s : t) : list nat :=
  filter (fun task => uses_opencl (info task) = true) (m_running s).

End Scheduler.

End Worker.

(* ===================================================================== *)
(** ** Sample inputs *)
(* ===================================================================== *)

Module Samples.

(** A 1-channel 8-bit picture whose pixel at ([r], [c]) is [10 * r + c]. *)
Definition gradient (nrows ncols : Z) : Image :=
  mkImage nrows ncols CV_8U 1 (tabulate2 nrows ncols (fun r c => [10 * r + c])).

(** The [float] 2.0f. *)
Definition two_seconds : Float.t := S754_finite false 8388608 (-22).

(** A machine on which every sleep returns 1 ms late and every decode
    takes 2 ms. *)
Definition slow : Timing := mkTiming (fun _ => 1) (fun _ => 2).

(** A world at time 0 whose heap holds one 10 x 10 gradient buffer and
    whose file system is empty for ever. *)
Definition world10 : World :=
  mkWorld [i_pixels (gradient 10 10)] 0 (fun _ _ => Missing) [] slow.

(** The header of that buffer. *)
Definition mat10 : Mat := mkMat (Some 0%nat) 10 10 0 0 CV_8U 1.

(** An image task holding it, with the given valid area. *)
Definition imgtask10 (valid : Rect.t) : ImgTask :=
  mkImgTask (mkTask "in.jpg" 0 0 "Load in.jpg" [] false true) mat10 valid.

(** A stand-in for the wavelet stage in examples: two levels, each side
    rounded up to a multiple of 4. *)
Definition levels_for_size (size : Size.t) : Z * Size.t :=
  (2, Size.mk ((Size.width size + 3) / 4 * 4) ((Size.height size + 3) / 4 * 4)).

(** The load task that [Task_LoadImg("mem", mat10)] builds in [world10],
    and the world it leaves: the task owns a copy of the picture. *)
Definition load10 : Task_LoadImg :=
  mkLoadImg
    (mkImgTask (mkTask "mem" 0 0 "Memory image mem" [] false false)
               (mkMat (Some 1%nat) 10 10 0 0 CV_8U 1) Rect.zero)
    Float.zero 0 (Size.mk 0 0) Mat_empty.

Definition world10_copied : World :=
  mkWorld [i_pixels (gradient 10 10); i_pixels (gradient 10 10)] 0
          (fun _ _ => Missing) [] slow.

(** A save task in no-crop mode whose input is the 10 x 10 sample buffer
    with the valid region (1, 1, 8, 8): one pixel of padding all around. *)
Definition padded_input : shared_ptr ImgTask :=
  mk_shared 1 (imgtask10 (Rect.mk 1 1 8 8)).

Definition save_nocrop : Task_SaveImg :=
  SaveImg.new "out.jpg" padded_input None 95 true.

(** Scenario A: the load task that [Task_LoadImg("missing.jpg", 2.0)]
    builds at time 0, for a path that never appears. *)
Definition load_missing : Task_LoadImg :=
  mkLoadImg
    (mkImgTask (mkTask "missing.jpg" 0 0 "Load missing.jpg" [] false false)
               Mat_empty Rect.zero)
    two_seconds 2000 (Size.mk 0 0) Mat_empty.

(** A world at time 0 in which the file late.jpg becomes a readable
    10 x 10 picture at time 250, and a load task waiting 2 seconds for it. *)
Definition world_late : World :=
  mkWorld [] 0
    (fun at_ms path =>
       if String.eqb path "late.jpg" && (250 <=? at_ms)
       then Present (Some (gradient 10 10))
       else Missing)
    [] slow.

Definition load_late : Task_LoadImg :=
  mkLoadImg
    (mkImgTask (mkTask "late.jpg" 0 0 "Load late.jpg" [] false false)
               Mat_empty Rect.zero)
    two_seconds 2000 (Size.mk 0 0) Mat_empty.

(** Two independent tasks that both use the constrained resource, a pool
    of two threads, and the scheduler after both were added and the first
    was started. *)
Definition gpu_tasks (task : nat) : Worker.TaskInfo := Worker.mkInfo [] true.

Definition one_gpu_task_running : Worker.t :=
  Worker.start gpu_tasks 0%nat
    (Worker.add 1%nat (Worker.add 0%nat Worker.init)).

(** A world whose heap holds one 2 x 2 two-channel buffer of 32-bit
    elements (depth code 4), some of them out of the 8-bit range, and an
    image task holding it with no valid region set. *)
Definition world_complex : World :=
  mkWorld [[[[-5; 300]; [0; 255]]; [[17; 256]; [1000; 42]]]] 0
          (fun _ _ => Missing) [] slow.

Definition complex_input : shared_ptr ImgTask :=
  mk_shared 3
    (mkImgTask (mkTask "merged" 0 0 "Merge" [] false true)
               (mkMat (Some 0%nat) 2 2 0 0 4 2) Rect.zero).


Definition mask_small : shared_ptr ImgTask :=
  mk_shared 2
    (mkImgTask (mkTask "mask" 0 0 "Mask" [] false true)
               (mkMat (Some 1%nat) 4 4 0 0 CV_8U 1) Rect.zero).

(** The main picture of the alpha examples: the first buffer, no valid
    region set. *)
Definition gray10 : shared_ptr ImgTask := mk_shared 1 (imgtask10 Rect.zero).

(** An alpha-mask task on the second buffer of [world10_copied] whose
    valid region is the 8 x 8 block at (2, 2). *)
Definition mask10_region : shared_ptr ImgTask :=
  mk_shared 2
    (mkImgTask (mkTask "mask" 0 0 "Mask" [] false true)
               (mkMat (Some 1%nat) 10 10 0 0 CV_8U 1) (Rect.mk 2 2 8 8)).

End Samples.

(** What [limit_valid_area] needs of its operands for each signed
    addition and subtraction to fit in an [int]. *)
Definition limit_fits (va other : Rect.t) : Prop :=
  Int32.fits (Rect.x va + Rect.width va) /\
  Int32.fits (Rect.y va + Rect.height va) /\
  Int32.fits (Rect.x other + Rect.width other) /\
  Int32.fits (Rect.y other + Rect.height other) /\
  Int32.fits (Z.min (Rect.x va + Rect.width va)
                    (Rect.x other + Rect.width other)
              - Z.max (Rect.x va) (Rect.x other)) /\
  Int32.fits (Z.min (Rect.y va + Rect.height va)
                    (Rect.y other + Rect.height other)
              - Z.max (Rect.y va) (Rect.y other)).

(** The invariant of a [cv::Mat] header: sizes are non-negative [int]s and
    only a matrix without pixels has a null data pointer. *)
Definition Mat_wf (m : Mat) : Prop :=
  0 <= rows m /\ Int32.fits (rows m) /\
  0 <= cols m /\ Int32.fits (cols m) /\
  (data m = None -> rows m = 0 \/ cols m = 0).

(** From world [w] to world [w'], [copy] was made as a deep copy of the
    window [roi] of [m]: it owns a buffer that [w] did not have, carries the
    size of the window and its pixels, and nothing else changed (every
    buffer of [w] is still there, untouched). *)
Definition deep_copy_of (w w' : World) (m : Mat) (roi : Rect.t) (copy : Mat)
    : Prop :=
  data copy = Some (length (heap w)) /\
  roi_y copy = 0 /\ roi_x copy = 0 /\
  rows copy = Rect.height roi /\ cols copy = Rect.width roi /\
  depth copy = depth m /\ channels copy = channels m /\
  (forall r c, 0 <= r < Rect.height roi -> 0 <= c < Rect.width roi ->
     Mat_at (heap w') copy r c
     = Mat_at (heap w) m (Rect.y roi + r) (Rect.x roi + c)) /\
  (exists b, heap w' = heap w ++ [b]) /\
  clock w' = clock w /\ fs w' = fs w /\ trace w' = trace w.

(** The test of lines 96-97 of worker.hh. *)
Definition covers_whole (t : ImgTask) (m : Mat) : bool :=
  (Rect.x (m_valid_area t) =? 0) && (Rect.y (m_valid_area t) =? 0) &&
  (Rect.width (m_valid_area t) =? cols m) &&
  (Rect.height (m_valid_area t) =? rows m).

(** Whether a decode of [path] attempted at time [at_ms] yields an image. *)
Definition decodable (w : World) (at_ms : Z) (path : string) : bool :=
  match fs w at_ms path with
  | Present (Some image) => (0 <? i_rows image) && (0 <? i_cols image)
  | _ => false
  end.

(** A run of lines 51-60 under the timing [tm], from a first decode entered
    at time [t0]: the time at which attempt [i] returns.  Attempt [i + 1] is
    entered when the sleep that follows attempt [i] returns. *)
Fixpoint attempt_end (tm : Timing) (t0 : Z) (i : nat) : Z :=
  match i with
  | O => decode_end tm t0
  | S i' => decode_end tm (wake tm 100 (attempt_end tm t0 i'))
  end.

(** The time at which attempt [i] is entered. *)
Definition attempt_start (tm : Timing) (t0 : Z) (i : nat) : Z :=
  match i with
  | O => t0
  | S i' => wake tm 100 (attempt_end tm t0 i')
  end.

(** The calls of the attempts [i + 1 .. i + n]: each is a sleep of 100 ms
    followed by one call of the decoder. *)
Fixpoint retry_events (path : string) (start : nat -> Z) (i n : nat)
    : list Event :=
  match n with
  | O => []
  | S n' => EvSleep 100 :: EvImread path (start (S i))
            :: retry_events path start (S i) n'
  end.

(** The scheduler's bookkeeping is sound: the resource counter counts the
    running tasks that use the resource, and stays within the cap. *)
Definition opencl_invariant (info : nat -> Worker.TaskInfo) (cap : Z)
    (s : Worker.t) : Prop :=
  Worker.m_opencl_users s = Z.of_nat (length (Worker.opencl_running info s)) /\
  Worker.m_opencl_users s <= Z.max cap 0.

(** A computation that touches the heap only: it leaves the clock and the
    file system alone and calls neither the codec nor [sleep_for]. *)
Definition heap_only {A : Type} (c : M A) : Prop :=
  forall w, clock (c w).2 = clock w /\ fs (c w).2 = fs w /\
            trace (c w).2 = trace w.

(** Coordinates small enough for the sums and differences that
    [limit_valid_area] takes of them, twice over, to fit in an [int]. *)
Definition Rect_small (r : Rect.t) : Prop :=
  - 2 ^ 28 <= Rect.x r <= 2 ^ 28 /\ - 2 ^ 28 <= Rect.y r <= 2 ^ 28 /\
  - 2 ^ 28 <= Rect.width r <= 2 ^ 28 /\ - 2 ^ 28 <= Rect.height r <= 2 ^ 28.

(** The rectangle that covers a whole matrix. *)
Definition Rect_whole (m : Mat) : Rect.t := Rect.mk 0 0 (cols m) (rows m).

(** From [w] to [w'] buffers were only added: every buffer of [w] is still
    there, untouched, and the clock, the file system and the trace are the
    same. *)
Definition heap_extends (w w' : World) : Prop :=
  (exists added, heap w' = heap w ++ added) /\
  clock w' = clock w /\ fs w' = fs w /\ trace w' = trace w.

(** The data pointer of [m] points to a buffer of [w]. *)
Definition allocated (w : World) (m : Mat) : Prop :=
  exists p, data m = Some p /\ (p < length (heap w))%nat.

(** Channel [i] of a pixel, as a 1-channel pixel. *)
Definition channel_at (i : Z) (px : Pixel) : Pixel :=
  match px !! Z.to_nat i with
  | Some v => [v]
  | None => []
  end.

(** What [convertTo(CV_8U)] does to an element of a matrix of depth [dp]. *)
Definition to_8U (dp : Z) (v : Z) : Z :=
  if dp =? CV_8U then v else saturate_uchar v.

(** The valid region of [t] has pixels and lies inside the matrix [m],
    whose sides are [int] values. *)
Definition region_inside (t : ImgTask) (m : Mat) : Prop :=
  0 <= Rect.x (m_valid_area t) /\ 0 <= Rect.y (m_valid_area t) /\
  0 < Rect.width (m_valid_area t) /\ 0 < Rect.height (m_valid_area t) /\
  Rect.x (m_valid_area t) + Rect.width (m_valid_area t) <= cols m /\
  Rect.y (m_valid_area t) + Rect.height (m_valid_area t) <= rows m /\
  Int32.fits (cols m) /\ Int32.fits (rows m).

(* ===================================================================== *)
(** * Properties *)
(* ===================================================================== *)

(** ** Integer arithmetic *)

Lemma wrap_fits (z : Z) : Int32.fits z -> Int32.wrap z = z.
Proof.
  unfold Int32.fits, Int32.wrap, Int32.min_int, Int32.max_int.
  intros Hz. rewrite Z.mod_small; lia.
Qed.

Lemma add_fits (a b : Z) : Int32.fits (a + b) -> Int32.add a b = a + b.
Proof. apply wrap_fits. Qed.

Lemma sub_fits (a b : Z) : Int32.fits (a - b) -> Int32.sub a b = a - b.
Proof. apply wrap_fits. Qed.

Lemma fits_between (lo hi z : Z) :
  Int32.fits lo -> Int32.fits hi -> lo <= z <= hi -> Int32.fits z.
Proof. unfold Int32.fits. lia. Qed.

Lemma fits_0 : Int32.fits 0.
Proof. unfold Int32.fits, Int32.min_int, Int32.max_int. lia. Qed.

(** A value between 0 and an [int] in the context is an [int]. *)
Ltac solve_fits :=
  match goal with
  | Hf : Int32.fits ?hi |- Int32.fits _ =>
      solve [ apply (fits_between 0 hi); [apply fits_0 | exact Hf | lia] ]
  end.

(** ** The valid-region model of [ImgTask] *)

Lemma safeRect_bounds (t : ImgTask) (expanded_img : Mat) :
  0 < Rect.width (m_valid_area t) ->
  0 < Rect.height (m_valid_area t) ->
  0 <= cols expanded_img -> Int32.fits (cols expanded_img) ->
  0 <= rows expanded_img -> Int32.fits (rows expanded_img) ->
  let r := safeRect t expanded_img in
  (0 <= Rect.x r /\ 0 <= Rect.y r /\
   Rect.x r + Rect.width r <= cols expanded_img /\
   Rect.y r + Rect.height r <= rows expanded_img) /\
  (0 <= Rect.width r /\ 0 <= Rect.height r) /\
  (0 < cols expanded_img -> 0 < Rect.width r) /\
  (0 < rows expanded_img -> 0 < Rect.height r).
Proof.
  intros Hw Hh Hc Hcf Hr Hrf r.
  assert (Hm1 : Int32.fits (-1)).
  { unfold Int32.fits, Int32.min_int, Int32.max_int. lia. }
  assert (Hc1 : Int32.sub (cols expanded_img) 1 = cols expanded_img - 1).
  { apply sub_fits. apply (fits_between (-1) (cols expanded_img)); auto. lia. }
  assert (Hr1 : Int32.sub (rows expanded_img) 1 = rows expanded_img - 1).
  { apply sub_fits. apply (fits_between (-1) (rows expanded_img)); auto. lia. }
  set (x := Z.max 0 (Z.min (Rect.x (m_valid_area t)) (cols expanded_img - 1))).
  set (y := Z.max 0 (Z.min (Rect.y (m_valid_area t)) (rows expanded_img - 1))).
  assert (Hx : 0 <= x <= Z.max 0 (cols expanded_img - 1)) by (unfold x; lia).
  assert (Hy : 0 <= y <= Z.max 0 (rows expanded_img - 1)) by (unfold y; lia).
  assert (Hcx : Int32.sub (cols expanded_img) x = cols expanded_img - x).
  { apply sub_fits. apply (fits_between 0 (cols expanded_img)); auto using fits_0. lia. }
  assert (Hry : Int32.sub (rows expanded_img) y = rows expanded_img - y).
  { apply sub_fits. apply (fits_between 0 (rows expanded_img)); auto using fits_0. lia. }
  assert (Er : r = Rect.mk x y
                 (Z.min (Rect.width (m_valid_area t)) (cols expanded_img - x))
                 (Z.min (Rect.height (m_valid_area t)) (rows expanded_img - y))).
  { unfold r, safeRect. rewrite Hc1, Hr1. fold x y. by rewrite Hcx, Hry. }
  rewrite Er. cbn [Rect.x Rect.y Rect.width Rect.height]. lia.
Qed.

Lemma safeRect_inside (t : ImgTask) (expanded_img : Mat) :
  0 < Rect.width (m_valid_area t) ->
  0 < Rect.height (m_valid_area t) ->
  0 < cols expanded_img -> Int32.fits (cols expanded_img) ->
  0 < rows expanded_img -> Int32.fits (rows expanded_img) ->
  let r := safeRect t expanded_img in
  (0 <= Rect.x r /\ 0 <= Rect.y r /\
   Rect.x r + Rect.width r <= cols expanded_img /\
   Rect.y r + Rect.height r <= rows expanded_img) /\
  (0 < Rect.width r /\ 0 < Rect.height r).
Proof.
  intros Hw Hh Hc Hcf Hr Hrf r.
  destruct (safeRect_bounds t expanded_img Hw Hh) as (Hin & _ & Hpw & Hph);
    try assumption; try lia.
  fold r in Hin, Hpw, Hph. auto.
Qed.

Ltac solve_leb :=
  repeat match goal with
  | |- context [?a <=? ?b] =>
      first [ rewrite (proj2 (Z.leb_le a b)) by lia
            | rewrite (proj2 (Z.leb_gt a b)) by lia ]
  | |- context [?a <? ?b] =>
      first [ rewrite (proj2 (Z.ltb_lt a b)) by lia
            | rewrite (proj2 (Z.ltb_ge a b)) by lia ]
  | |- context [?a =? ?b] =>
      first [ rewrite (proj2 (Z.eqb_eq a b)) by lia
            | rewrite (proj2 (Z.eqb_neq a b)) by lia ]
  end.

(** The sub-matrix constructor accepts a window with pixels that lies
    inside the matrix, and hands back a view onto the same buffer. *)
Lemma Mat_roi_inside (m : Mat) (roi : Rect.t) (w : World) :
  Int32.fits (cols m) -> Int32.fits (rows m) ->
  0 <= Rect.x roi -> 0 <= Rect.y roi ->
  0 < Rect.width roi -> 0 < Rect.height roi ->
  Rect.x roi + Rect.width roi <= cols m ->
  Rect.y roi + Rect.height roi <= rows m ->
  Mat_roi m roi w
  = (Ok (mkMat (data m) (Rect.height roi) (Rect.width roi)
               (roi_y m + Rect.y roi) (roi_x m + Rect.x roi)
               (depth m) (channels m)), w).
Proof.
  intros Hcf Hrf Hx Hy Hw Hh Hxw Hyh. unfold Mat_roi.
  rewrite (add_fits (Rect.x roi)), (add_fits (Rect.y roi)).
  - solve_leb. reflexivity.
  - apply (fits_between 0 (rows m)); auto using fits_0. lia.
  - apply (fits_between 0 (cols m)); auto using fits_0. lia.
Qed.

(** C10.  When the stored valid region has a strictly positive width and
    height and the buffer is not empty, the rectangle that
    [extract_original_area] extracts lies inside the buffer:
    [0 <= x], [0 <= y], [x + width <= cols] and [y + height <= rows]; it
    keeps a positive width and height, and the sub-matrix constructor
    accepts it, whatever the stored origin and extent are. *)
Theorem safeRect_within_buffer (t : ImgTask) (expanded_img : Mat) (w : World) :
  0 < Rect.width (m_valid_area t) ->
  0 < Rect.height (m_valid_area t) ->
  0 < cols expanded_img -> Int32.fits (cols expanded_img) ->
  0 < rows expanded_img -> Int32.fits (rows expanded_img) ->
  let r := safeRect t expanded_img in
  (0 <= Rect.x r /\ 0 <= Rect.y r /\
   Rect.x r + Rect.width r <= cols expanded_img /\
   Rect.y r + Rect.height r <= rows expanded_img) /\
  (0 < Rect.width r /\ 0 < Rect.height r) /\
  exists view, Mat_roi expanded_img r w = (Ok view, w) /\
               rows view = Rect.height r /\ cols view = Rect.width r.
Proof.
  intros Hw Hh Hc Hcf Hr Hrf r.
  destruct (safeRect_inside t expanded_img Hw Hh Hc Hcf Hr Hrf)
    as [Hin Hpos].
  fold r in Hin, Hpos. split; [exact Hin|]. split; [exact Hpos|].
  eexists. split; [apply Mat_roi_inside; lia || assumption|]. by cbn.
Qed.

(** Witness for C10: a valid region that sticks out of a 10 x 10 buffer. *)
Lemma safeRect_within_buffer_witness :
  let r := safeRect (Samples.imgtask10 (Rect.mk 7 (-3) 20 5)) Samples.mat10 in
  (0 <= Rect.x r /\ 0 <= Rect.y r /\
   Rect.x r + Rect.width r <= 10 /\ Rect.y r + Rect.height r <= 10) /\
  (0 < Rect.width r /\ 0 < Rect.height r) /\
  exists view, Mat_roi Samples.mat10 r Samples.world10 = (Ok view, Samples.world10) /\
               rows view = Rect.height r /\ cols view = Rect.width r.
Proof.
  apply (safeRect_within_buffer (Samples.imgtask10 (Rect.mk 7 (-3) 20 5))
           Samples.mat10 Samples.world10); cbn;
    unfold Int32.fits, Int32.min_int, Int32.max_int; lia.
Defined.

(** C4 (as amended).  [limit_valid_area(rect)] stores the rectangle whose
    pixels are exactly the pixels common to the stored valid rectangle,
    taken literally, and [rect]; its corners are the larger of the two
    origins and the smaller of the two far corners, so for disjoint
    operands the stored width or height is not positive and the rectangle
    denotes no pixel.  The buffer and the other members are untouched. *)
Theorem limit_valid_area_intersects_stored (t : ImgTask) (other : Rect.t) :
  limit_fits (m_valid_area t) other ->
  let t' := limit_valid_area t other in
  (forall px py,
     Rect.contains (m_valid_area t') px py <->
     Rect.contains (m_valid_area t) px py /\ Rect.contains other px py) /\
  Rect.x (m_valid_area t') = Z.max (Rect.x (m_valid_area t)) (Rect.x other) /\
  Rect.y (m_valid_area t') = Z.max (Rect.y (m_valid_area t)) (Rect.y other) /\
  Rect.x (m_valid_area t') + Rect.width (m_valid_area t') =
    Z.min (Rect.x (m_valid_area t) + Rect.width (m_valid_area t))
          (Rect.x other + Rect.width other) /\
  Rect.y (m_valid_area t') + Rect.height (m_valid_area t') =
    Z.min (Rect.y (m_valid_area t) + Rect.height (m_valid_area t))
          (Rect.y other + Rect.height other) /\
  m_result t' = m_result t /\ img_base t' = img_base t.
Proof.
  intros (Hxa & Hya & Hxo & Hyo & Hw & Hh) t'.
  unfold t', limit_valid_area. cbn [m_valid_area m_result img_base].
  rewrite !add_fits by assumption.
  rewrite !sub_fits by assumption.
  unfold Rect.contains. cbn [Rect.x Rect.y Rect.width Rect.height].
  repeat split; lia.
Qed.

(** Witness for C4: two overlapping rectangles. *)
Lemma limit_valid_area_intersects_stored_witness :
  m_valid_area (limit_valid_area (Samples.imgtask10 (Rect.mk 1 2 6 6))
                                 (Rect.mk 4 0 6 5))
  = Rect.mk 4 2 3 3 /\
  forall px py,
    Rect.contains (Rect.mk 4 2 3 3) px py <->
    Rect.contains (Rect.mk 1 2 6 6) px py /\ Rect.contains (Rect.mk 4 0 6 5) px py.
Proof.
  split; [reflexivity|].
  apply (limit_valid_area_intersects_stored
           (Samples.imgtask10 (Rect.mk 1 2 6 6)) (Rect.mk 4 0 6 5)).
  unfold limit_fits, Int32.fits, Int32.min_int, Int32.max_int. cbn. lia.
Defined.

(** Counterexample to C4 as stated.  On a 10 x 10 buffer whose valid region
    is unset, which [valid_area()] reports as the entire buffer,
    [limit_valid_area(Rect(2, 2, 4, 4))] stores [Rect(2, 2, -2, -2)]: the
    pixel (2, 2) lies in the buffer and in the argument, hence in their
    intersection, but not in the stored rectangle. *)
Lemma limit_valid_area_unset_counterexample :
  let t := Samples.imgtask10 Rect.zero in
  let other := Rect.mk 2 2 4 4 in
  has_valid_area t = false /\
  valid_area t = Rect.mk 0 0 10 10 /\
  m_valid_area (limit_valid_area t other) = Rect.mk 2 2 (-2) (-2) /\
  ~ (forall px py,
       Rect.contains (m_valid_area (limit_valid_area t other)) px py <->
       Rect.contains (valid_area t) px py /\ Rect.contains other px py).
Proof.
  cbv zeta. repeat split; try reflexivity.
  intros H. specialize (H 2 2).
  change (m_valid_area _) with (Rect.mk 2 2 (-2) (-2)) in H.
  unfold Rect.contains in H. cbn in H. lia.
Qed.

(** ** Reading pixels through the heap *)

Lemma lookup_tabulate {A : Type} (n : Z) (f : Z -> A) (i : Z) :
  0 <= i < n -> tabulate n f !! Z.to_nat i = Some (f i).
Proof.
  intros Hi. unfold tabulate.
  rewrite list_lookup_fmap, lookup_seqZ_lt by lia. cbn. f_equal. f_equal. lia.
Qed.

Lemma length_tabulate {A : Type} (n : Z) (f : Z -> A) :
  length (tabulate n f) = Z.to_nat n.
Proof. unfold tabulate. by rewrite length_fmap, length_seqZ. Qed.

Lemma Buffer_at_tabulate2 (nrows ncols : Z) (f : Z -> Z -> Pixel) (r c : Z) :
  0 <= r < nrows -> 0 <= c < ncols ->
  Buffer_at (tabulate2 nrows ncols f) r c = f r c.
Proof.
  intros Hr Hc. unfold Buffer_at, tabulate2.
  solve_leb. cbn [orb].
  rewrite lookup_tabulate by lia. by rewrite lookup_tabulate by lia.
Qed.

(** A matrix that owns the buffer just allocated reads from it. *)
Lemma Mat_at_new (h : Heap) (b : Buffer) (m : Mat) (r c : Z) :
  data m = Some (length h) ->
  Mat_at (h ++ [b]) m r c = Buffer_at b (roi_y m + r) (roi_x m + c).
Proof.
  intros Hd. unfold Mat_at. rewrite Hd.
  by rewrite list_lookup_middle.
Qed.

(** Allocation leaves what older matrices read untouched. *)
Lemma Mat_at_old (h : Heap) (b : Buffer) (m : Mat) (p : nat) (r c : Z) :
  data m = Some p -> (p < length h)%nat ->
  Mat_at (h ++ [b]) m r c = Mat_at h m r c.
Proof.
  intros Hd Hp. unfold Mat_at. rewrite Hd.
  by rewrite lookup_app_l.
Qed.

Lemma Mat_at_old_app (h h2 : Heap) (m : Mat) (p : nat) (r c : Z) :
  data m = Some p -> (p < length h)%nat ->
  Mat_at (h ++ h2) m r c = Mat_at h m r c.
Proof.
  intros Hd Hp. unfold Mat_at. rewrite Hd.
  by rewrite lookup_app_l.
Qed.

(** [clone] of a matrix with pixels. *)
Lemma Mat_clone_nonempty (m : Mat) (w : World) :
  Mat_is_empty m = false ->
  Mat_clone m w
  = (Ok (mkMat (Some (length (heap w))) (rows m) (cols m) 0 0
               (depth m) (channels m)),
     mkWorld (heap w ++ [tabulate2 (rows m) (cols m) (Mat_at (heap w) m)])
             (clock w) (fs w) (trace w) (timing w)).
Proof. intros He. unfold Mat_clone. by rewrite He. Qed.

Lemma has_valid_area_positive (t : ImgTask) :
  0 < Rect.width (m_valid_area t) -> 0 < Rect.height (m_valid_area t) ->
  has_valid_area t = true.
Proof. intros Hw Hh. unfold has_valid_area. solve_leb. reflexivity. Qed.

Lemma covers_whole_true (t : ImgTask) (m : Mat) :
  covers_whole t m = true <-> m_valid_area t = Rect.mk 0 0 (cols m) (rows m).
Proof.
  unfold covers_whole. destruct (m_valid_area t) as [x y wd ht]. cbn.
  rewrite !andb_true_iff, !Z.eqb_eq. split.
  - intros [[[-> ->] ->] ->]. reflexivity.
  - intros [= -> -> -> ->]. auto.
Qed.

(** The copying branch of [extract_original_area], for a region with
    pixels and a buffer with pixels. *)
Lemma extract_original_area_copies (t : ImgTask) (m : Mat) (w : World) :
  0 < Rect.width (m_valid_area t) -> 0 < Rect.height (m_valid_area t) ->
  m_valid_area t <> Rect.mk 0 0 (cols m) (rows m) ->
  is_Some (data m) ->
  0 < cols m -> Int32.fits (cols m) -> 0 < rows m -> Int32.fits (rows m) ->
  exists copy w',
    extract_original_area t m w = (Ok copy, w') /\
    deep_copy_of w w' m (safeRect t m) copy.
Proof.
  intros Hw Hh Hne [p Hp] Hc Hcf Hr Hrf.
  destruct (safeRect_inside t m Hw Hh Hc Hcf Hr Hrf) as [Hin [Hpw Hph]].
  set (roi := safeRect t m) in *.
  unfold extract_original_area.
  rewrite (has_valid_area_positive t Hw Hh). cbn [negb].
  fold (covers_whole t m).
  destruct (covers_whole t m) eqn:Hcov.
  { apply covers_whole_true in Hcov. contradiction. }
  unfold bind. fold roi. clearbody roi.
  rewrite Mat_roi_inside by (assumption || lia).
  rewrite Mat_clone_nonempty.
  2:{ unfold Mat_is_empty. cbn. rewrite Hp. solve_leb. reflexivity. }
  eexists _, _. split; [reflexivity|].
  unfold deep_copy_of.
  cbn [data rows cols roi_y roi_x depth channels heap clock fs trace timing].
  repeat split; eauto.
  intros r c Hr' Hc'.
  rewrite Mat_at_new by reflexivity.
  cbn [data rows cols roi_y roi_x depth channels].
  rewrite Buffer_at_tabulate2 by lia.
  unfold Mat_at. cbn [data rows cols roi_y roi_x depth channels]. rewrite Hp.
  destruct (heap w !! p); [|reflexivity].
  f_equal; lia.
Qed.

(** A window inside the matrix but without pixels gives the empty matrix. *)
Lemma Mat_roi_no_pixels (m : Mat) (roi : Rect.t) (w : World) :
  Int32.fits (cols m) -> Int32.fits (rows m) ->
  0 <= Rect.x roi -> 0 <= Rect.y roi ->
  0 <= Rect.width roi -> 0 <= Rect.height roi ->
  Rect.x roi + Rect.width roi <= cols m ->
  Rect.y roi + Rect.height roi <= rows m ->
  Rect.width roi = 0 \/ Rect.height roi = 0 ->
  Mat_roi m roi w = (Ok (mkMat None 0 0 0 0 (depth m) (channels m)), w).
Proof.
  intros Hcf Hrf Hx Hy Hw Hh Hxw Hyh Hz. unfold Mat_roi.
  rewrite (add_fits (Rect.x roi)), (add_fits (Rect.y roi)).
  - rewrite (proj2 (Z.leb_le 0 (Rect.x roi))), (proj2 (Z.leb_le 0 (Rect.y roi))),
      (proj2 (Z.leb_le 0 (Rect.width roi))), (proj2 (Z.leb_le 0 (Rect.height roi))),
      (proj2 (Z.leb_le _ (cols m))), (proj2 (Z.leb_le _ (rows m))) by lia.
    cbn [andb].
    destruct Hz as [Hz|Hz]; rewrite Hz; cbn; [by rewrite orb_true_r|done].
  - apply (fits_between 0 (rows m)); auto using fits_0. lia.
  - apply (fits_between 0 (cols m)); auto using fits_0. lia.
Qed.

(** The copying branch on a buffer without pixels: the copy is the empty
    matrix and nothing is allocated. *)
Lemma extract_original_area_empty (t : ImgTask) (m : Mat) (w : World) :
  0 < Rect.width (m_valid_area t) -> 0 < Rect.height (m_valid_area t) ->
  m_valid_area t <> Rect.mk 0 0 (cols m) (rows m) ->
  0 <= cols m -> Int32.fits (cols m) -> 0 <= rows m -> Int32.fits (rows m) ->
  rows m = 0 \/ cols m = 0 ->
  extract_original_area t m w = (Ok Mat_empty, w).
Proof.
  intros Hw Hh Hne Hc Hcf Hr Hrf Hz.
  destruct (safeRect_bounds t m Hw Hh Hc Hcf Hr Hrf)
    as ((Hx & Hy & Hxw & Hyh) & (Hwd & Hht) & _ & _).
  set (roi := safeRect t m) in *.
  unfold extract_original_area.
  rewrite (has_valid_area_positive t Hw Hh). cbn [negb].
  fold (covers_whole t m).
  destruct (covers_whole t m) eqn:Hcov.
  { apply covers_whole_true in Hcov. contradiction. }
  unfold bind. fold roi. clearbody roi.
  rewrite Mat_roi_no_pixels by (assumption || lia).
  reflexivity.
Qed.

(** C7 (as amended).  [extract_original_area(buffer)] returns the very
    buffer it was given, same header and same shared pixels, with nothing
    allocated, when no valid region is set or when the region has origin
    (0, 0) and exactly the buffer's width and height.  Otherwise, when the
    region's width and height are both positive, it returns a deep copy of
    the valid region clamped to the buffer's bounds: a matrix of the clamped
    size that owns a fresh buffer holding the pixels of the clamped window
    (for a buffer without pixels, the empty matrix). *)
Theorem extract_original_area_identity_or_copy
    (t : ImgTask) (expanded_img : Mat) (w : World) :
  (has_valid_area t = false ->
   extract_original_area t expanded_img w = (Ok expanded_img, w)) /\
  (m_valid_area t = Rect.mk 0 0 (cols expanded_img) (rows expanded_img) ->
   extract_original_area t expanded_img w = (Ok expanded_img, w)) /\
  (0 < Rect.width (m_valid_area t) -> 0 < Rect.height (m_valid_area t) ->
   m_valid_area t <> Rect.mk 0 0 (cols expanded_img) (rows expanded_img) ->
   Mat_wf expanded_img ->
   (Mat_is_empty expanded_img = false ->
    exists copy w',
      extract_original_area t expanded_img w = (Ok copy, w') /\
      deep_copy_of w w' expanded_img (safeRect t expanded_img) copy) /\
   (Mat_is_empty expanded_img = true ->
    extract_original_area t expanded_img w = (Ok Mat_empty, w))).
Proof.
  split; [|split].
  - intros Hv. unfold extract_original_area. by rewrite Hv.
  - intros Hcov. unfold extract_original_area.
    destruct (has_valid_area t); [|reflexivity]. cbn [negb].
    apply covers_whole_true in Hcov. unfold covers_whole in Hcov.
    by rewrite Hcov.
  - intros Hw Hh Hne (Hr & Hrf & Hc & Hcf & Hnull). split.
    + intros He. unfold Mat_is_empty in He.
      destruct (data expanded_img) as [p|] eqn:Hp; [|discriminate].
      apply orb_false_iff in He as [Hr0 Hc0].
      apply Z.eqb_neq in Hr0, Hc0.
      apply extract_original_area_copies; try assumption; try lia.
      rewrite Hp. eauto.
    + intros He. apply extract_original_area_empty; try assumption.
      unfold Mat_is_empty in He.
      destruct (data expanded_img) as [p|]; [|by apply Hnull].
      apply orb_true_iff in He as [He|He]; apply Z.eqb_eq in He; auto.
Qed.

(** Witness for C7: the valid region (2, 3, 4, 5) of the 10 x 10 sample
    buffer is copied into a fresh 5 x 4 matrix. *)
Lemma extract_original_area_identity_or_copy_witness :
  exists copy w',
    extract_original_area (Samples.imgtask10 (Rect.mk 2 3 4 5))
                          Samples.mat10 Samples.world10 = (Ok copy, w') /\
    deep_copy_of Samples.world10 w' Samples.mat10 (Rect.mk 2 3 4 5) copy.
Proof.
  apply (extract_original_area_identity_or_copy
           (Samples.imgtask10 (Rect.mk 2 3 4 5)) Samples.mat10 Samples.world10);
    cbn; try lia; try discriminate; try reflexivity.
  unfold Mat_wf, Int32.fits, Int32.min_int, Int32.max_int. cbn.
  repeat split; try lia. discriminate.
Defined.

(** Counterexample to C7 as stated.  The valid region [Rect(2, 2, -2, -2)]
    (what [limit_valid_area] leaves after meeting a disjoint rectangle) is
    set and does not cover the 10 x 10 buffer, yet no copy comes back: the
    clamped rectangle keeps its negative width and the sub-matrix
    constructor raises. *)
Lemma extract_original_area_negative_counterexample :
  let t := Samples.imgtask10 (Rect.mk 2 2 (-2) (-2)) in
  has_valid_area t = true /\
  m_valid_area t <> Rect.mk 0 0 (cols Samples.mat10) (rows Samples.mat10) /\
  safeRect t Samples.mat10 = Rect.mk 2 2 (-2) (-2) /\
  extract_original_area t Samples.mat10 Samples.world10
  = (Throw "Mat::Mat(m, roi): roi outside of the matrix", Samples.world10) /\
  ~ (exists copy w',
       extract_original_area t Samples.mat10 Samples.world10 = (Ok copy, w')).
Proof.
  cbv zeta. split; [reflexivity|]. split; [discriminate|].
  split; [reflexivity|]. split; [reflexivity|].
  intros (copy & w' & H).
  change (extract_original_area _ _ _)
    with (@Throw Mat "Mat::Mat(m, roi): roi outside of the matrix",
          Samples.world10) in H.
  discriminate.
Qed.

(** ** [Task_LoadImg]: padding for the wavelet transform *)

Lemma Mat_new_fresh (nrows ncols dp cn : Z) (w : World) :
  0 < nrows -> 0 < ncols ->
  Mat_new nrows ncols dp cn w
  = (Ok (mkMat (Some (length (heap w))) nrows ncols 0 0 dp cn),
     mkWorld (heap w ++ [tabulate2 nrows ncols (fun _ _ => [])])
             (clock w) (fs w) (trace w) (timing w)).
Proof.
  intros Hr Hc. unfold Mat_new, Mat_create. solve_leb. cbn. reflexivity.
Qed.

Lemma lookup_tabulate2_row (nrows ncols : Z) (g : Z -> Z -> Pixel) (r : Z) :
  0 <= r < nrows ->
  tabulate2 nrows ncols g !! Z.to_nat r = Some (tabulate ncols (fun c => g r c)).
Proof. intros Hr. unfold tabulate2. by rewrite lookup_tabulate. Qed.

Lemma Buffer_at_write_full (nrows ncols : Z) (g f : Z -> Z -> Pixel) (r c : Z) :
  0 <= r < nrows -> 0 <= c < ncols ->
  Buffer_at (Buffer_write (tabulate2 nrows ncols g) 0 0 nrows ncols f) r c
  = f r c.
Proof.
  intros Hr Hc. unfold Buffer_write, Buffer_at.
  solve_leb. cbn [orb].
  unfold tabulate2 at 1. rewrite length_tabulate, Z2Nat.id by lia.
  rewrite lookup_tabulate by lia.
  rewrite lookup_tabulate2_row by lia. cbn [default from_option id].
  rewrite length_tabulate, Z2Nat.id by lia.
  rewrite lookup_tabulate by lia. cbn [default from_option id].
  solve_leb. cbn [andb]. f_equal; lia.
Qed.

(** [copyMakeBorder] into a destination that already has the padded size
    and the type of the source: the buffer of the destination is kept and
    overwritten. *)
Lemma copyMakeBorder_into (src dst : Mat) (top bottom left right : Z)
    (p : nat) (b : Buffer) (w : World) :
  0 <= top -> 0 <= bottom -> 0 <= left -> 0 <= right ->
  Int32.fits (rows src + top) -> Int32.fits (rows src + top + bottom) ->
  Int32.fits (cols src + left) -> Int32.fits (cols src + left + right) ->
  0 <= rows src -> 0 <= cols src ->
  dst = mkMat (Some p) (rows src + top + bottom) (cols src + left + right)
              0 0 (depth src) (channels src) ->
  heap w !! p = Some b ->
  copyMakeBorder src dst top bottom left right w
  = (Ok dst,
     mkWorld (<[p := Buffer_write b 0 0 (rows dst) (cols dst)
                       (fun i j =>
                          Mat_at (heap w) src
                            (borderInterpolate_reflect (i - top) (rows src))
                            (borderInterpolate_reflect (j - left) (cols src)))]>
               (heap w))
             (clock w) (fs w) (trace w) (timing w)).
Proof.
  intros Ht Hb Hl Hr Hf1 Hf2 Hf3 Hf4 Hrs Hcs -> Hp.
  unfold copyMakeBorder. solve_leb. cbn [andb].
  rewrite (add_fits (rows src) top), (add_fits (cols src) left) by assumption.
  rewrite !add_fits by assumption.
  unfold bind, get_heap, Mat_create.
  cbn [data rows cols roi_y roi_x depth channels].
  solve_leb. cbn [orb andb].
  rewrite bool_decide_eq_true_2 by eauto. cbn [andb].
  unfold ret, Mat_fill. cbn [data rows cols roi_y roi_x depth channels].
  unfold bind, get_heap. rewrite Hp. reflexivity.
Qed.

Lemma div2_fits (e : Z) :
  0 <= e -> Int32.fits e ->
  Int32.div e 2 = e ÷ 2 /\ Int32.sub e (Int32.div e 2) = e - e ÷ 2 /\
  0 <= e ÷ 2 /\ 0 <= e - e ÷ 2 /\ e ÷ 2 <= e - e ÷ 2 <= e ÷ 2 + 1.
Proof.
  intros He Hf.
  assert (Hq : e ÷ 2 = e / 2) by (apply Z.quot_div_nonneg; lia).
  assert (Hb : 0 <= e / 2 <= e) by (split; [apply Z.div_pos|apply Z.div_le_upper_bound]; lia).
  assert (Hd : Int32.div e 2 = e ÷ 2).
  { unfold Int32.div. apply wrap_fits. rewrite Hq.
    apply (fits_between 0 e); auto using fits_0. }
  rewrite Hd, Hq. split; [reflexivity|]. split.
  - apply sub_fits. apply (fits_between 0 e); auto using fits_0. lia.
  - pose proof (Z.div_mod e 2 ltac:(lia)) as Hdm.
    pose proof (Z.mod_pos_bound e 2 ltac:(lia)). lia.
Qed.

Section PadLoaded.

Variable levels_for_size : Size.t -> Z * Size.t.

(** What lines 67-102 do to a decoded image smaller than the size the
    wavelet transform needs. *)
Lemma pad_loaded_expands (t : Task_LoadImg) (result : Mat) (w : World) (p : nat) :
  data result = Some p -> (p < length (heap w))%nat ->
  0 < cols result -> 0 < rows result ->
  let expanded := snd (levels_for_size (Mat_size result)) in
  cols result <= Size.width expanded -> rows result <= Size.height expanded ->
  Size.eqb expanded (Mat_size result) = false ->
  Int32.fits (Size.width expanded) -> Int32.fits (Size.height expanded) ->
  let ex := Size.width expanded - cols result in
  let ey := Size.height expanded - rows result in
  let padded := mkMat (Some (S (length (heap w))))
                      (Size.height expanded) (Size.width expanded) 0 0
                      (depth result) (channels result) in
  exists w',
    LoadImg.pad_loaded levels_for_size t result w
    = (Ok (mkLoadImg
             (mkImgTask (img_base (load_img t)) padded
                        (Rect.mk (ex ÷ 2) (ey ÷ 2) (cols result) (rows result)))
             (m_wait_images t) (m_wait_images_until t) (Mat_size result)
             (mkMat (Some (length (heap w))) (rows result) (cols result) 0 0
                    (depth result) (channels result))), w') /\
    length (heap w') = S (S (length (heap w))) /\
    (forall q, (q < length (heap w))%nat -> heap w' !! q = heap w !! q) /\
    (forall i j, 0 <= i < Size.height expanded -> 0 <= j < Size.width expanded ->
       Mat_at (heap w') padded i j
       = Mat_at (heap w) result
           (borderInterpolate_reflect (i - ey ÷ 2) (rows result))
           (borderInterpolate_reflect (j - ex ÷ 2) (cols result))) /\
    clock w' = clock w /\ fs w' = fs w /\ trace w' = trace w.
Proof.
  intros Hp Hlt Hc Hr expanded Hwc Hhr Hneq Hfw Hfh ex ey padded.
  assert (Hex : Int32.sub (Size.width expanded) (cols result) = ex).
  { apply sub_fits. apply (fits_between 0 (Size.width expanded));
      auto using fits_0. lia. }
  assert (Hey : Int32.sub (Size.height expanded) (rows result) = ey).
  { apply sub_fits. apply (fits_between 0 (Size.height expanded));
      auto using fits_0. lia. }
  destruct (div2_fits ex) as (Hx1 & Hx2 & Hx3 & Hx4 & Hx5); [lia| |].
  { apply (fits_between 0 (Size.width expanded)); auto using fits_0. lia. }
  destruct (div2_fits ey) as (Hy1 & Hy2 & Hy3 & Hy4 & Hy5); [lia| |].
  { apply (fits_between 0 (Size.height expanded)); auto using fits_0. lia. }
  unfold LoadImg.pad_loaded. fold expanded.
  rewrite Hneq. cbn [negb Mat_size Size.width Size.height].
  rewrite Hex, Hey, Hx2, Hx1, Hy2, Hy1.
  unfold bind at 1.
  rewrite Mat_clone_nonempty
    by (unfold Mat_is_empty; rewrite Hp; solve_leb; reflexivity).
  unfold bind at 1. rewrite Mat_new_fresh by lia. cbn [heap clock fs trace timing].
  rewrite length_app. cbn [length]. rewrite Nat.add_1_r.
  unfold bind at 1.
  erewrite (copyMakeBorder_into result _ _ _ _ _ (S (length (heap w)))
              (tabulate2 (Size.height expanded) (Size.width expanded)
                         (fun _ _ => []))); cycle 1.
  1-4: lia.
  1-4: first [ apply (fits_between 0 (Size.height expanded)); auto using fits_0; lia
             | apply (fits_between 0 (Size.width expanded)); auto using fits_0; lia ].
  1-2: lia.
  { f_equal; lia. }
  { cbn [heap]. apply list_lookup_middle.
    rewrite length_app. cbn [length]. lia. }
  cbn [heap clock fs trace rows cols timing].
  eexists. split; [reflexivity|]. cbn [heap clock fs trace timing].
  split; [|split; [|split]].
  - rewrite length_insert, !length_app. cbn. lia.
  - intros q Hq. rewrite list_lookup_insert_ne by lia.
    rewrite <- app_assoc. by rewrite lookup_app_l.
  - intros i j Hi Hj. unfold padded, Mat_at at 1. cbn [data roi_y roi_x].
    rewrite list_lookup_insert_eq by (rewrite !length_app; cbn; lia).
    rewrite Buffer_at_write_full by lia.
    rewrite <- app_assoc.
    rewrite (Mat_at_old_app (heap w) _ result p) by assumption.
    reflexivity.
  - auto.
Qed.

End PadLoaded.

Lemma borderInterpolate_reflect_inside (p len : Z) :
  0 <= p < len -> borderInterpolate_reflect p len = p.
Proof. intros Hp. unfold borderInterpolate_reflect. solve_leb. reflexivity. Qed.

(** A valid area with pixels that lies inside the buffer is not changed by
    the clamping. *)
Lemma safeRect_unchanged (t : ImgTask) (m : Mat) :
  0 <= Rect.x (m_valid_area t) -> 0 <= Rect.y (m_valid_area t) ->
  0 < Rect.width (m_valid_area t) -> 0 < Rect.height (m_valid_area t) ->
  Rect.x (m_valid_area t) + Rect.width (m_valid_area t) <= cols m ->
  Rect.y (m_valid_area t) + Rect.height (m_valid_area t) <= rows m ->
  Int32.fits (cols m) -> Int32.fits (rows m) ->
  safeRect t m = m_valid_area t.
Proof.
  intros Hx Hy Hw Hh Hxw Hyh Hcf Hrf. unfold safeRect.
  destruct (m_valid_area t) as [x y wd ht].
  cbn [Rect.x Rect.y Rect.width Rect.height] in *.
  rewrite (sub_fits (cols m) 1), (sub_fits (rows m) 1) by solve_fits.
  replace (Z.max 0 (Z.min x (cols m - 1))) with x by lia.
  replace (Z.max 0 (Z.min y (rows m - 1))) with y by lia.
  rewrite (sub_fits (cols m) x), (sub_fits (rows m) y) by solve_fits.
  f_equal; lia.
Qed.

Section LoadTask.

Variable levels_for_size : Size.t -> Z * Size.t.

(** Once an image has been acquired, [task()] is lines 67-102. *)
Lemma task_acquired (fuel : nat) (t : Task_LoadImg) (w w1 : World)
    (result : Mat) (p : nat) :
  LoadImg.acquire fuel t w = (Ok (Some result), w1) ->
  data result = Some p ->
  LoadImg.task levels_for_size fuel t w
  = match LoadImg.pad_loaded levels_for_size t result w1 with
    | (Ok t', w') => (Ok (Some t'), w')
    | (Throw e, w') => (Throw e, w')
    end.
Proof.
  intros Ha Hp. unfold LoadImg.task. unfold bind at 1. rewrite Ha.
  rewrite bool_decide_eq_false_2 by (rewrite Hp; discriminate).
  unfold bind, ret. by destruct (LoadImg.pad_loaded _ _ _ _) as [[?|?] ?].
Qed.

(** What [task()] leaves behind when the decoded image is smaller than the
    size the wavelet transform needs. *)
Lemma task_expands (fuel : nat) (t : Task_LoadImg) (w w1 : World)
    (result : Mat) (p : nat) :
  LoadImg.acquire fuel t w = (Ok (Some result), w1) ->
  data result = Some p -> (p < length (heap w1))%nat ->
  0 < cols result -> 0 < rows result ->
  let expanded := snd (levels_for_size (Mat_size result)) in
  cols result <= Size.width expanded -> rows result <= Size.height expanded ->
  Size.eqb expanded (Mat_size result) = false ->
  Int32.fits (Size.width expanded) -> Int32.fits (Size.height expanded) ->
  let ex := Size.width expanded - cols result in
  let ey := Size.height expanded - rows result in
  exists t' w',
    LoadImg.task levels_for_size fuel t w = (Ok (Some t'), w') /\
    m_result (load_img t')
    = mkMat (Some (S (length (heap w1))))
            (Size.height expanded) (Size.width expanded) 0 0
            (depth result) (channels result) /\
    m_valid_area (load_img t')
    = Rect.mk (ex ÷ 2) (ey ÷ 2) (cols result) (rows result) /\
    m_orig_size t' = Mat_size result /\
    length (heap w') = S (S (length (heap w1))) /\
    (forall i j, 0 <= i < Size.height expanded -> 0 <= j < Size.width expanded ->
       Mat_at (heap w') (m_result (load_img t')) i j
       = Mat_at (heap w1) result
           (borderInterpolate_reflect (i - ey ÷ 2) (rows result))
           (borderInterpolate_reflect (j - ex ÷ 2) (cols result))).
Proof.
  intros Ha Hp Hlt Hc Hr expanded Hwc Hhr Hneq Hfw Hfh ex ey.
  destruct (pad_loaded_expands levels_for_size t result w1 p
              Hp Hlt Hc Hr Hwc Hhr Hneq Hfw Hfh)
    as (w' & Hpad & Hlen & _ & Hpix & _).
  rewrite (task_acquired fuel t w w1 result p Ha Hp), Hpad.
  eexists _, w'. split; [reflexivity|].
  cbn [load_img m_result m_valid_area m_orig_size]. auto.
Qed.

End LoadTask.

Section LoadTaskClaims.

Variable levels_for_size : Size.t -> Z * Size.t.

(** C3.  When the size the wavelet transform needs exceeds the size of the
    decoded image, [task()] leaves a buffer of exactly the needed size; the
    extra columns are [left = expand_x / 2] before and
    [right = expand_x - expand_x / 2] after the original ones, the extra
    rows [top] and [bottom] likewise, so the two sides differ by at most
    one; the valid region is the rectangle at ([left], [top]) with the
    original width and height, and the original pixels sit exactly there. *)
Theorem task_pads_symmetrically (fuel : nat) (t : Task_LoadImg) (w w1 : World)
    (result : Mat) (p : nat) :
  LoadImg.acquire fuel t w = (Ok (Some result), w1) ->
  data result = Some p -> (p < length (heap w1))%nat ->
  0 < cols result -> 0 < rows result ->
  let expanded := snd (levels_for_size (Mat_size result)) in
  cols result <= Size.width expanded -> rows result <= Size.height expanded ->
  Size.eqb expanded (Mat_size result) = false ->
  Int32.fits (Size.width expanded) -> Int32.fits (Size.height expanded) ->
  let expand_x := Size.width expanded - cols result in
  let expand_y := Size.height expanded - rows result in
  let left := expand_x ÷ 2 in
  let right := expand_x - expand_x ÷ 2 in
  let top := expand_y ÷ 2 in
  let bottom := expand_y - expand_y ÷ 2 in
  exists t' w',
    LoadImg.task levels_for_size fuel t w = (Ok (Some t'), w') /\
    Mat_size (m_result (load_img t')) = expanded /\
    cols (m_result (load_img t')) = left + cols result + right /\
    rows (m_result (load_img t')) = top + rows result + bottom /\
    (0 <= left <= right /\ right <= left + 1) /\
    (0 <= top <= bottom /\ bottom <= top + 1) /\
    m_valid_area (load_img t') = Rect.mk left top (cols result) (rows result) /\
    (forall r c, 0 <= r < rows result -> 0 <= c < cols result ->
       Mat_at (heap w') (m_result (load_img t')) (top + r) (left + c)
       = Mat_at (heap w1) result r c).
Proof.
  intros Ha Hp Hlt Hc Hr expanded Hwc Hhr Hneq Hfw Hfh
         expand_x expand_y left right top bottom.
  destruct (task_expands levels_for_size fuel t w w1 result p
              Ha Hp Hlt Hc Hr Hwc Hhr Hneq Hfw Hfh)
    as (t' & w' & Ht & Hm & Hv & _ & _ & Hpix).
  fold expanded expand_x expand_y in Hm, Hv, Hpix.
  destruct (div2_fits expand_x) as (_ & _ & Hx3 & Hx4 & Hx5);
    [unfold expand_x; lia | unfold expand_x; solve_fits |].
  destruct (div2_fits expand_y) as (_ & _ & Hy3 & Hy4 & Hy5);
    [unfold expand_y; lia | unfold expand_y; solve_fits |].
  exists t', w'. split; [exact Ht|].
  rewrite Hm, Hv. cbn [Mat_size rows cols].
  split; [by destruct expanded|].
  split; [unfold left, right, expand_x; lia|].
  split; [unfold top, bottom, expand_y; lia|].
  split; [unfold left, right; lia|].
  split; [unfold top, bottom; lia|].
  split; [reflexivity|].
  intros r c Hr' Hc'. rewrite <- Hm, Hpix by (unfold top, left, expand_x, expand_y in *; lia).
  fold left top.
  rewrite !borderInterpolate_reflect_inside by lia.
  f_equal; lia.
Qed.

(** C2.  Padding a decoded image in [task()] and then calling
    [extract_original_area] on the padded result gives back a buffer of the
    original size whose every pixel equals the pixel of the decoded image
    at the same place. *)
Theorem pad_then_extract_roundtrip (fuel : nat) (t : Task_LoadImg)
    (w w1 : World) (result : Mat) (p : nat) :
  LoadImg.acquire fuel t w = (Ok (Some result), w1) ->
  data result = Some p -> (p < length (heap w1))%nat ->
  0 < cols result -> 0 < rows result ->
  let expanded := snd (levels_for_size (Mat_size result)) in
  cols result <= Size.width expanded -> rows result <= Size.height expanded ->
  Size.eqb expanded (Mat_size result) = false ->
  Int32.fits (Size.width expanded) -> Int32.fits (Size.height expanded) ->
  exists t' w' copy w'',
    LoadImg.task levels_for_size fuel t w = (Ok (Some t'), w') /\
    extract_original_area (load_img t') (m_result (load_img t')) w'
    = (Ok copy, w'') /\
    rows copy = rows result /\ cols copy = cols result /\
    depth copy = depth result /\ channels copy = channels result /\
    (forall r c, 0 <= r < rows result -> 0 <= c < cols result ->
       Mat_at (heap w'') copy r c = Mat_at (heap w1) result r c).
Proof.
  intros Ha Hp Hlt Hc Hr expanded Hwc Hhr Hneq Hfw Hfh.
  destruct (task_expands levels_for_size fuel t w w1 result p
              Ha Hp Hlt Hc Hr Hwc Hhr Hneq Hfw Hfh)
    as (t' & w' & Ht & Hm & Hv & _ & _ & Hpix).
  fold expanded in Hm, Hv, Hpix.
  pose proof (div2_fits (Size.width expanded - cols result)
                ltac:(lia) ltac:(solve_fits)) as (_ & _ & Hx3 & Hx4 & Hx5).
  pose proof (div2_fits (Size.height expanded - rows result)
                ltac:(lia) ltac:(solve_fits)) as (_ & _ & Hy3 & Hy4 & Hy5).
  assert (Hne : m_valid_area (load_img t')
                <> Rect.mk 0 0 (cols (m_result (load_img t')))
                               (rows (m_result (load_img t')))).
  { rewrite Hv, Hm. cbn [rows cols]. intros [= _ _ Hcw Hrh].
    unfold Size.eqb in Hneq. cbn [Mat_size Size.width Size.height] in Hneq.
    rewrite <- Hcw, <- Hrh, !Z.eqb_refl in Hneq. discriminate. }
  destruct (extract_original_area_copies (load_img t') (m_result (load_img t')) w')
    as (copy & w'' & Hext & Hcopy).
  1-2: rewrite Hv; cbn [Rect.width Rect.height]; lia.
  { exact Hne. }
  { rewrite Hm. cbn [data]. eauto. }
  1-4: rewrite Hm; cbn [rows cols]; first [lia | assumption].
  rewrite safeRect_unchanged in Hcopy.
  2-7: rewrite Hv, ?Hm; cbn [Rect.x Rect.y Rect.width Rect.height rows cols];
       lia.
  2-3: rewrite Hm; cbn [rows cols]; assumption.
  rewrite Hv in Hcopy.
  destruct Hcopy as (_ & _ & _ & Hrows & Hcols & Hdepth & Hchan & Hcpix & _).
  cbn [Rect.x Rect.y Rect.width Rect.height] in *.
  exists t', w', copy, w''. split; [exact Ht|]. split; [exact Hext|].
  rewrite Hrows, Hcols, Hdepth, Hchan, Hm. cbn [depth channels].
  repeat split; try reflexivity.
  intros r c Hr' Hc'. rewrite Hcpix by lia.
  rewrite Hpix by lia.
  rewrite !borderInterpolate_reflect_inside by lia.
  f_equal; lia.
Qed.

End LoadTaskClaims.

(** Witness for C3: the 10 x 10 sample image, padded to 12 x 12. *)
Lemma task_pads_symmetrically_witness :
  exists t' w',
    LoadImg.task Samples.levels_for_size 0 Samples.load10
                 Samples.world10_copied
    = (Ok (Some t'), w') /\
    Mat_size (m_result (load_img t')) = Size.mk 12 12 /\
    cols (m_result (load_img t')) = 1 + 10 + 1 /\
    rows (m_result (load_img t')) = 1 + 10 + 1 /\
    (0 <= 1 <= 1 /\ 1 <= 1 + 1) /\
    (0 <= 1 <= 1 /\ 1 <= 1 + 1) /\
    m_valid_area (load_img t') = Rect.mk 1 1 10 10 /\
    (forall r c, 0 <= r < 10 -> 0 <= c < 10 ->
       Mat_at (heap w') (m_result (load_img t')) (1 + r) (1 + c)
       = Mat_at (heap Samples.world10_copied)
                (m_result (load_img Samples.load10)) r c).
Proof.
  apply (task_pads_symmetrically Samples.levels_for_size 0 Samples.load10
           Samples.world10_copied Samples.world10_copied
           (m_result (load_img Samples.load10)) 1%nat);
    try reflexivity; cbn; try lia;
    change (Z.div (10 + 3) 4 * 4) with 12;
    unfold Int32.fits, Int32.min_int, Int32.max_int; lia.
Defined.

(** Witness for C2: the same image, padded and extracted again. *)
Lemma pad_then_extract_roundtrip_witness :
  exists t' w' copy w'',
    LoadImg.task Samples.levels_for_size 0 Samples.load10
                 Samples.world10_copied
    = (Ok (Some t'), w') /\
    extract_original_area (load_img t') (m_result (load_img t')) w'
    = (Ok copy, w'') /\
    rows copy = 10 /\ cols copy = 10 /\
    depth copy = CV_8U /\ channels copy = 1 /\
    (forall r c, 0 <= r < 10 -> 0 <= c < 10 ->
       Mat_at (heap w'') copy r c
       = Mat_at (heap Samples.world10_copied)
                (m_result (load_img Samples.load10)) r c).
Proof.
  apply (pad_then_extract_roundtrip Samples.levels_for_size 0 Samples.load10
           Samples.world10_copied Samples.world10_copied
           (m_result (load_img Samples.load10)) 1%nat);
    try reflexivity; cbn; try lia;
    change (Z.div (10 + 3) 4 * 4) with 12;
    unfold Int32.fits, Int32.min_int, Int32.max_int; lia.
Defined.

(** ** [Task_SaveImg] *)

Lemma heap_only_ret {A : Type} (a : A) : heap_only (ret a).
Proof. by intros w. Qed.

Lemma heap_only_throw {A : Type} (e : string) : heap_only (@throw A e).
Proof. by intros w. Qed.

Lemma heap_only_get_heap : heap_only get_heap.
Proof. by intros w. Qed.

Lemma heap_only_alloc (b : Buffer) : heap_only (alloc b).
Proof. by intros w. Qed.

Lemma heap_only_store (p : nat) (b : Buffer) : heap_only (store p b).
Proof. by intros w. Qed.

Lemma heap_only_bind {A B : Type} (c : M A) (k : A -> M B) :
  heap_only c -> (forall a, heap_only (k a)) -> heap_only (bind c k).
Proof.
  intros Hc Hk w. unfold bind. specialize (Hc w).
  destruct (c w) as [[a|e] w1]; cbn in *.
  - destruct (Hk a w1) as (H1 & H2 & H3). destruct Hc as (H4 & H5 & H6).
    rewrite H1, H2, H3. auto.
  - exact Hc.
Qed.

Create HintDb heap_only.
#[local] Hint Resolve heap_only_ret heap_only_throw heap_only_get_heap
  heap_only_alloc heap_only_store : heap_only.

Ltac heap_only_step :=
  match goal with
  | |- heap_only (bind _ _) => apply heap_only_bind; [|intros ?]
  | |- heap_only (if ?b then _ else _) => destruct b
  | |- heap_only (match ?x with _ => _ end) => destruct x
  | |- heap_only _ => solve [eauto with heap_only]
  end.

Ltac solve_heap_only := repeat heap_only_step.

Lemma heap_only_Mat_fill (m : Mat) (f : Z -> Z -> Pixel) : heap_only (Mat_fill m f).
Proof. unfold Mat_fill. solve_heap_only. Qed.

Lemma heap_only_Mat_create (dst : Mat) (nrows ncols dp cn : Z) :
  heap_only (Mat_create dst nrows ncols dp cn).
Proof. unfold Mat_create. solve_heap_only. Qed.

Lemma heap_only_Mat_new (nrows ncols dp cn : Z) :
  heap_only (Mat_new nrows ncols dp cn).
Proof. apply heap_only_Mat_create. Qed.

Lemma heap_only_Mat_roi (m : Mat) (roi : Rect.t) : heap_only (Mat_roi m roi).
Proof. unfold Mat_roi. solve_heap_only. Qed.

Lemma heap_only_Mat_clone (m : Mat) : heap_only (Mat_clone m).
Proof. unfold Mat_clone. solve_heap_only. Qed.

#[local] Hint Resolve heap_only_Mat_fill heap_only_Mat_create heap_only_Mat_new
  heap_only_Mat_roi heap_only_Mat_clone : heap_only.

Lemma heap_only_extract_original_area (t : ImgTask) (m : Mat) :
  heap_only (extract_original_area t m).
Proof. unfold extract_original_area. solve_heap_only. Qed.

#[local] Hint Resolve heap_only_extract_original_area : heap_only.

Lemma heap_only_img_cropped (t : ImgTask) : heap_only (img_cropped t).
Proof. unfold img_cropped. solve_heap_only. Qed.

Lemma heap_only_convertTo_8U (m : Mat) : heap_only (convertTo_8U m).
Proof. unfold convertTo_8U. solve_heap_only. Qed.

Lemma heap_only_extract_channel (m : Mat) (i : Z) : heap_only (extract_channel m i).
Proof. unfold extract_channel. solve_heap_only. Qed.

Lemma heap_only_mapM {A B : Type} (f : A -> M B) (l : list A) :
  (forall a, heap_only (f a)) -> heap_only (mapM f l).
Proof.
  intros Hf. induction l as [|a l IH]; cbn [mapM].
  - apply heap_only_ret.
  - apply heap_only_bind; [apply Hf|intros b].
    apply heap_only_bind; [apply IH|intros bs]. apply heap_only_ret.
Qed.

Lemma heap_only_split (m : Mat) : heap_only (split m).
Proof. apply heap_only_mapM, heap_only_extract_channel. Qed.

Lemma heap_only_merge (planes : list Mat) (dst : Mat) : heap_only (merge planes dst).
Proof. unfold merge. solve_heap_only. Qed.

#[local] Hint Resolve heap_only_img_cropped heap_only_convertTo_8U
  heap_only_split heap_only_merge : heap_only.

Lemma heap_only_select_result (self input : ImgTask) (nocrop : bool) :
  heap_only (SaveImg.select_result self input nocrop).
Proof. unfold SaveImg.select_result. solve_heap_only. Qed.

Lemma heap_only_complex_to_rgb (result : Mat) :
  heap_only (SaveImg.complex_to_rgb result).
Proof.
  unfold SaveImg.complex_to_rgb. solve_heap_only.
  apply heap_only_mapM, heap_only_convertTo_8U.
Qed.

Lemma heap_only_add_alpha (result : Mat) (alphamask : option (shared_ptr ImgTask))
    (nocrop : bool) :
  heap_only (SaveImg.add_alpha result alphamask nocrop).
Proof. unfold SaveImg.add_alpha. solve_heap_only. Qed.

#[local] Hint Resolve heap_only_select_result heap_only_complex_to_rgb
  heap_only_add_alpha : heap_only.

Lemma heap_only_composite (t : Task_SaveImg) : heap_only (SaveImg.composite t).
Proof. unfold SaveImg.composite. solve_heap_only. Qed.


(** When the compositing steps raise, [task()] raises with them, and no
    codec call has been made: line 122 is not reached. *)
Lemma save_task_raises_writes_nothing (t : Task_SaveImg) (w w1 : World)
    (e : string) :
  SaveImg.composite t w = (Throw e, w1) ->
  SaveImg.task t w = (Throw e, w1) /\ trace w1 = trace w.
Proof.
  intros Hcomp. destruct (heap_only_composite t w) as (_ & _ & Htrace).
  rewrite Hcomp in Htrace. split; [|exact Htrace].
  unfold SaveImg.task, bind. by rewrite Hcomp.
Qed.




(** [select_result] on a save task as its constructor leaves it: in no-crop
    mode the input buffer and the input's valid area are taken over as they
    are, whatever the input's valid area is. *)
Lemma select_result_new_nocrop (path : string) (input : shared_ptr ImgTask)
    (alphamask : option (shared_ptr ImgTask)) (quality : Z) (w : World) :
  SaveImg.select_result
    (save_img (SaveImg.new path input alphamask quality true))
    (pointee input) true w
  = (Ok (img (pointee input), valid_area (pointee input)), w).
Proof. reflexivity. Qed.

(** C1, evaluated on the code.  A save task in no-crop mode is given an
    input whose valid region (1, 1, 8, 8) is strictly smaller than its
    10 x 10 buffer.  After [task()] the result is still the 10 x 10 input
    buffer, padding included, sharing the input's pixels (nothing was
    copied), the task's valid region is (1, 1, 8, 8) and not the full
    extent of the result, and the 10 x 10 picture is what goes to the
    encoder.  The test on line 42 asks the save task itself, whose own
    valid area is still unset, instead of the input. *)
Theorem nocrop_keeps_padding :
  has_valid_area (pointee Samples.padded_input) = true /\
  valid_area (pointee Samples.padded_input) = Rect.mk 1 1 8 8 /\
  Mat_size (img (pointee Samples.padded_input)) = Size.mk 10 10 /\
  has_valid_area (save_img Samples.save_nocrop) = false /\
  exists t' w',
    SaveImg.task Samples.save_nocrop Samples.world10 = (Ok t', w') /\
    m_result (save_img t') = Samples.mat10 /\
    Mat_size (m_result (save_img t')) = Size.mk 10 10 /\
    m_valid_area (save_img t') = Rect.mk 1 1 8 8 /\
    heap w' = heap Samples.world10 /\
    trace w' = [EvImwrite "out.jpg" (Samples.gradient 10 10)
                          [IMWRITE_JPEG_QUALITY; 95]].
Proof.
  repeat (split; [reflexivity|]).
  eexists _, _. split; [reflexivity|].
  repeat split; reflexivity.
Qed.

(** ** [Task_LoadImg]: readiness and the wait window *)

(** C6.  [ready_to_run()] of a load task changes nothing and never raises.
    It answers true only if the base check of [Task] does, that is, only
    if every dependency reports completion: the override never loosens
    it.  While a positive wait window is configured and has not elapsed, it
    answers true only if, besides, the target file exists and is readable.
    Its answer is the conjunction of exactly these two conditions. *)
Theorem load_ready_to_run_stricter (completed : nat -> bool)
    (t : Task_LoadImg) (w : World) :
  exists b : bool,
    LoadImg.ready_to_run completed t w = (Ok b, w) /\
    (b = true -> Task_ready_to_run completed (img_base (load_img t)) = true) /\
    (b = true ->
     forall d, d ∈ m_depends_on (img_base (load_img t)) -> completed d = true) /\
    (wait_positive (m_wait_images t) = true ->
     clock w < m_wait_images_until t ->
     b = true ->
     exists decoded, fs w (clock w) (LoadImg.filename t) = Present decoded) /\
    b = Task_ready_to_run completed (img_base (load_img t)) &&
        (negb (wait_positive (m_wait_images t) &&
               (clock w <? m_wait_images_until t))
         || match fs w (clock w) (LoadImg.filename t) with
            | Missing => false
            | Present _ => true
            end).
Proof.
  unfold LoadImg.ready_to_run.
  destruct (Task_ready_to_run completed (img_base (load_img t))) eqn:Hbase;
    cbn [negb andb].
  - unfold bind, now, ifstream_good, ret.
    destruct (wait_positive (m_wait_images t)) eqn:Hpos; cbn [andb negb orb].
    + destruct (clock w <? m_wait_images_until t) eqn:Hopen; cbn [andb negb orb].
      * destruct (fs w (clock w) (LoadImg.filename t)) as [|decoded] eqn:Hfs;
          cbn [negb].
        -- exists false. repeat split; try discriminate; auto.
        -- exists true. repeat split; auto.
           ++ intros _ d Hd. unfold Task_ready_to_run in Hbase.
              rewrite forallb_forall in Hbase. apply Hbase.
              by apply list_elem_of_In.
           ++ eauto.
      * exists true. repeat split; auto.
        -- intros _ d Hd. unfold Task_ready_to_run in Hbase.
           rewrite forallb_forall in Hbase. apply Hbase.
           by apply list_elem_of_In.
        -- intros _ Hlt. apply Z.ltb_ge in Hopen. lia.
    + exists true. repeat split; auto.
      * intros _ d Hd. unfold Task_ready_to_run in Hbase.
        rewrite forallb_forall in Hbase. apply Hbase.
        by apply list_elem_of_In.
      * discriminate.
  - exists false. repeat split; try discriminate; auto.
Qed.

Lemma imread_fails (path : string) (w : World) :
  decodable w (clock w) path = false ->
  imread path w
  = (Ok Mat_empty,
     mkWorld (heap w) (decode_end (timing w) (clock w)) (fs w)
             (trace w ++ [EvImread path (clock w)]) (timing w)).
Proof.
  unfold decodable, imread, bind, now, emit, fs_lookup, decoding.
  cbn [clock fs heap trace timing].
  intros Hd. destruct (fs w (clock w) path) as [|[image|]]; try reflexivity.
  by rewrite Hd.
Qed.

Lemma imread_decodes (path : string) (w : World) (image : Image) :
  fs w (clock w) path = Present (Some image) ->
  0 < i_rows image -> 0 < i_cols image ->
  imread path w
  = (Ok (mkMat (Some (length (heap w))) (i_rows image) (i_cols image) 0 0
               (i_depth image) (i_channels image)),
     mkWorld (heap w ++ [i_pixels image]) (decode_end (timing w) (clock w))
             (fs w) (trace w ++ [EvImread path (clock w)]) (timing w)).
Proof.
  unfold imread, bind, now, emit, fs_lookup, decoding.
  cbn [clock fs heap trace timing].
  intros -> Hr Hc. solve_leb. reflexivity.
Qed.

(** A decode does not end before it starts, and a sleep of 100 ms does not
    return before 100 ms have gone by. *)
Lemma decode_end_le (tm : Timing) (t : Z) : t <= decode_end tm t.
Proof. unfold decode_end. lia. Qed.

Lemma wake_le (tm : Timing) (t : Z) : t + 100 <= wake tm 100 t.
Proof. unfold wake. lia. Qed.

Lemma attempt_spacing (tm : Timing) (t0 : Z) (i : nat) :
  attempt_start tm t0 i <= attempt_end tm t0 i /\
  attempt_end tm t0 i + 100 <= attempt_start tm t0 (S i).
Proof.
  split.
  - destruct i; cbn [attempt_start attempt_end]; apply decode_end_le.
  - cbn [attempt_start]. apply wake_le.
Qed.

Lemma attempt_end_grows (tm : Timing) (t0 : Z) (i : nat) :
  t0 + 100 * Z.of_nat i <= attempt_end tm t0 i.
Proof.
  induction i as [|i IH].
  - cbn [attempt_end]. pose proof (decode_end_le tm t0). lia.
  - pose proof (attempt_spacing tm t0 i) as [_ H1].
    pose proof (attempt_spacing tm t0 (S i)) as [H2 _]. lia.
Qed.

(** A sequence of times that reaches [until] at index [n] has a first index
    at which it does. *)
Lemma first_reach (f : nat -> Z) (until : Z) (n : nat) :
  until <= f n ->
  exists k : nat,
    (k <= n)%nat /\ (forall i : nat, (i < k)%nat -> f i < until) /\
    until <= f k.
Proof.
  induction n as [|n IH]; intros Hn.
  - exists 0%nat. split; [lia|]. split; [|exact Hn]. intros i Hi. lia.
  - destruct (Z_lt_le_dec (f n) until) as [Hlt|Hge].
    + destruct (Z_lt_le_dec (f 0%nat) until) as [H0|H0].
      * (* the first index is searched from the front *)
        clear IH.
        assert (Hsearch : forall m : nat,
                  (m <= S n)%nat ->
                  (forall i : nat, (i < m)%nat -> f i < until) ->
                  exists k : nat,
                    (k <= S n)%nat /\
                    (forall i : nat, (i < k)%nat -> f i < until) /\
                    until <= f k).
        { intros m Hm. remember (S n - m)%nat as d eqn:Hd.
          revert m Hm Hd. induction d as [|d IHd]; intros m Hm Hd Hbelow.
          - assert (m = S n) by lia. subst m.
            exists (S n). split; [lia|]. split; [exact Hbelow|exact Hn].
          - destruct (Z_lt_le_dec (f m) until) as [Hm'|Hm'].
            + apply (IHd (S m)); [lia|lia|].
              intros i Hi. destruct (Nat.eq_dec i m) as [->|Hne];
                [exact Hm'|apply Hbelow; lia].
            + exists m. split; [lia|]. split; [exact Hbelow|exact Hm']. }
        apply (Hsearch 0%nat); [lia|]. intros i Hi. lia.
      * exists 0%nat. split; [lia|]. split; [|exact H0]. intros i Hi. lia.
    + destruct (IH Hge) as (k & Hk & Hbelow & Hreach).
      exists k. split; [lia|]. split; assumption.
Qed.


Lemma wait_loop_done (fuel : nat) (path : string) (until : Z) (m : Mat)
    (w : World) :
  is_Some (data m) \/ until <= clock w ->
  LoadImg.wait_loop fuel path until m w = (Ok (Some m), w).
Proof.
  intros Hdone.
  assert (Hcond : bool_decide (data m = None) && (clock w <? until) = false).
  { destruct Hdone as [[p Hp]|Hlate].
    - rewrite bool_decide_eq_false_2; [reflexivity|]. rewrite Hp. discriminate.
    - rewrite (proj2 (Z.ltb_ge _ _)) by lia. apply andb_false_r. }
  destruct fuel; cbn [LoadImg.wait_loop]; unfold bind, now; by rewrite Hcond.
Qed.

(** One more turn of the loop, at the end of which the decode succeeds. *)
Lemma wait_loop_decodes (fuel : nat) (path : string) (until : Z) (w : World)
    (image : Image) :
  clock w < until ->
  let entered := wake (timing w) 100 (clock w) in
  fs w entered path = Present (Some image) ->
  0 < i_rows image -> 0 < i_cols image ->
  LoadImg.wait_loop (S fuel) path until Mat_empty w
  = (Ok (Some (mkMat (Some (length (heap w))) (i_rows image) (i_cols image)
                     0 0 (i_depth image) (i_channels image))),
     mkWorld (heap w ++ [i_pixels image]) (decode_end (timing w) entered)
             (fs w) (trace w ++ [EvSleep 100; EvImread path entered])
             (timing w)).
Proof.
  intros Hopen entered Hfs Hr Hc.
  cbn [LoadImg.wait_loop]. unfold bind at 1. unfold now at 1.
  rewrite bool_decide_eq_true_2 by reflexivity.
  rewrite (proj2 (Z.ltb_lt (clock w) until)) by lia.
  cbn [andb]. unfold bind at 1. unfold sleep_for at 1.
  unfold bind at 1.
  rewrite (imread_decodes path _ image) by (cbn [clock fs]; assumption).
  cbn [clock fs heap trace timing].
  rewrite wait_loop_done by (left; cbn [data]; eauto).
  by rewrite <- app_assoc.
Qed.

(** The number of retries a wait window allows under a given timing exists,
    is unique, and is at most the number of whole sleeps that fit into the
    window. *)
Lemma retries_allowed (tm : Timing) (t0 until : Z) :
  exists k : nat,
    (forall i : nat, (i < k)%nat -> attempt_end tm t0 i < until) /\
    until <= attempt_end tm t0 k /\
    (k <= Z.to_nat ((until - t0 + 99) / 100))%nat.
Proof.
  set (n := Z.to_nat ((until - t0 + 99) / 100)).
  destruct (first_reach (attempt_end tm t0) until n) as (k & Hk & Hopen & Hclosed).
  - pose proof (attempt_end_grows tm t0 n) as Hgrow.
    pose proof (Z.div_mod (until - t0 + 99) 100 ltac:(lia)) as Hdm.
    pose proof (Z.mod_pos_bound (until - t0 + 99) 100 ltac:(lia)) as Hmb.
    unfold n in *. lia.
  - exists k. split; [exact Hopen|]. split; [exact Hclosed|exact Hk].
Qed.


Section LoadRetry.

Variable levels_for_size : Size.t -> Z * Size.t.


End LoadRetry.


(** ** [Worker]: the cap on the constrained resource *)

Lemma filter_remove_first_in (P : nat -> Prop) `{forall x, Decision (P x)}
    (task : nat) (l : list nat) :
  task ∈ l -> P task ->
  S (length (filter P (Worker.remove_first task l))) = length (filter P l).
Proof.
  intros Hin HP. induction l as [|y l IH]; [by apply elem_of_nil in Hin|].
  cbn [Worker.remove_first]. destruct (Nat.eqb_spec task y) as [->|Hne].
  - rewrite filter_cons_True by exact HP. reflexivity.
  - apply elem_of_cons in Hin as [Heq|Hin]; [contradiction|].
    destruct (decide (P y)) as [Hy|Hy].
    + rewrite !filter_cons_True by exact Hy. cbn [length]. by rewrite IH.
    + rewrite !filter_cons_False by exact Hy. by apply IH.
Qed.

Lemma filter_remove_first_out (P : nat -> Prop) `{forall x, Decision (P x)}
    (task : nat) (l : list nat) :
  ~ P task ->
  filter P (Worker.remove_first task l) = filter P l.
Proof.
  intros Hno. induction l as [|y l IH]; [reflexivity|].
  cbn [Worker.remove_first]. destruct (Nat.eqb_spec task y) as [->|Hne].
  - by rewrite filter_cons_False.
  - destruct (decide (P y)) as [Hy|Hy].
    + rewrite !filter_cons_True by exact Hy. by rewrite IH.
    + by rewrite !filter_cons_False.
Qed.

Section WorkerInvariant.

Variable info : nat -> Worker.TaskInfo.
Variable max_threads : Z.
Variable opencl_cap : Z.

Lemma pick_eligible (s : Worker.t) (task : nat) :
  Worker.pick info opencl_cap s = Some task ->
  Worker.eligible info opencl_cap s task = true /\ task ∈ Worker.m_tasks s.
Proof.
  unfold Worker.pick. intros Hfind.
  apply List.find_some in Hfind as [Hin Hel].
  split; [exact Hel|]. by apply list_elem_of_In.
Qed.

Lemma opencl_invariant_init : opencl_invariant info opencl_cap Worker.init.
Proof. split; cbn; lia. Qed.

Lemma opencl_invariant_step (s s' : Worker.t) :
  Worker.step info max_threads opencl_cap s s' ->
  opencl_invariant info opencl_cap s -> opencl_invariant info opencl_cap s'.
Proof.
  intros Hstep [Hcount Hcap].
  destruct Hstep as [task s|task s|task s Hidle Hpick|task s Hrun].
  - split; assumption.
  - split; assumption.
  - apply pick_eligible in Hpick as [Hel _].
    unfold Worker.eligible in Hel. apply andb_true_iff in Hel as [_ Hel].
    unfold opencl_invariant, Worker.opencl_running, Worker.start in *.
    cbn [Worker.m_running Worker.m_opencl_users] in *.
    destruct (Worker.uses_opencl (info task)) eqn:Hu.
    + rewrite filter_cons_True by exact Hu. cbn [negb orb] in Hel.
      apply Z.ltb_lt in Hel. cbn [length]. lia.
    + rewrite filter_cons_False by (rewrite Hu; discriminate). lia.
  - unfold opencl_invariant, Worker.opencl_running, Worker.finish in *.
    cbn [Worker.m_running Worker.m_opencl_users] in *.
    destruct (Worker.uses_opencl (info task)) eqn:Hu.
    + pose proof (filter_remove_first_in
                    (fun task => Worker.uses_opencl (info task) = true)
                    task _ Hrun Hu) as Hlen.
      lia.
    + rewrite (filter_remove_first_out
                 (fun task => Worker.uses_opencl (info task) = true) task)
        by (rewrite Hu; discriminate).
      lia.
Qed.

Lemma opencl_invariant_reachable (s : Worker.t) :
  Worker.reachable info max_threads opencl_cap s ->
  opencl_invariant info opencl_cap s.
Proof.
  unfold Worker.reachable. revert s.
  apply (rtc_ind_r (R := Worker.step info max_threads opencl_cap)
           (opencl_invariant info opencl_cap) Worker.init).
  - apply opencl_invariant_init.
  - intros s1 s2 _ Hstep IH. by apply (opencl_invariant_step s1 s2).
Qed.

Lemma two_distinct_elements (l : list nat) (a b : nat) :
  a ≠ b -> a ∈ l -> b ∈ l -> (2 <= length l)%nat.
Proof.
  intros Hne Ha Hb. destruct l as [|x [|y l]]; cbn [length]; [| |lia].
  - by apply elem_of_nil in Ha.
  - apply list_elem_of_singleton in Ha, Hb. congruence.
Qed.

End WorkerInvariant.

(** C9.  With a resource cap of 1, in every state the Worker can reach,
    two different tasks that both declare [uses_opencl()] are never both
    in the running set, whether or not one depends on the other; the
    resource counter is the number of running tasks that declare
    [uses_opencl()] and never exceeds the cap. *)
Theorem worker_serialises_opencl (info : nat -> Worker.TaskInfo)
    (max_threads : Z) (s : Worker.t) (task1 task2 : nat) :
  Worker.reachable info max_threads 1 s ->
  task1 ≠ task2 ->
  Worker.uses_opencl (info task1) = true ->
  Worker.uses_opencl (info task2) = true ->
  ~ (task1 ∈ Worker.m_running s /\ task2 ∈ Worker.m_running s) /\
  Worker.m_opencl_users s = Z.of_nat (length (Worker.opencl_running info s)) /\
  0 <= Worker.m_opencl_users s <= 1.
Proof.
  intros Hreach Hne Hu1 Hu2.
  destruct (opencl_invariant_reachable info max_threads 1 s Hreach)
    as [Hcount Hcap].
  split; [|split; [exact Hcount|lia]].
  intros [Hr1 Hr2].
  assert (Hlen : (2 <= length (Worker.opencl_running info s))%nat).
  { apply (two_distinct_elements _ task1 task2 Hne);
      unfold Worker.opencl_running; apply list_elem_of_filter; auto. }
  lia.
Qed.

(** Witness for C9: two independent tasks that use the resource were
    added and the first one runs; the second is not running. *)
Lemma worker_serialises_opencl_witness :
  ~ (0%nat ∈ Worker.m_running Samples.one_gpu_task_running /\
     1%nat ∈ Worker.m_running Samples.one_gpu_task_running) /\
  Worker.m_opencl_users Samples.one_gpu_task_running = 1 /\
  0 <= Worker.m_opencl_users Samples.one_gpu_task_running <= 1.
Proof.
  apply (worker_serialises_opencl Samples.gpu_tasks 2
           Samples.one_gpu_task_running 0%nat 1%nat);
    [|lia|reflexivity|reflexivity].
  unfold Worker.reachable, Samples.one_gpu_task_running.
  eapply rtc_l; [apply (Worker.step_add _ _ _ 0%nat)|].
  eapply rtc_l; [apply (Worker.step_add _ _ _ 1%nat)|].
  eapply rtc_l; [|apply rtc_refl].
  apply Worker.step_start; [cbn; lia|reflexivity].
Defined.

(* ===================================================================== *)
(** * Worked examples *)
(* ===================================================================== *)

(** The sample tasks are what the constructors build. *)
Example load10_constructed :
  Task_LoadImg_memory "mem" Samples.mat10 Samples.world10
  = (Ok Samples.load10, Samples.world10_copied).
Proof. reflexivity. Qed.

Example load_missing_constructed :
  Task_LoadImg_path "missing.jpg" Samples.two_seconds Samples.world10
  = (Ok Samples.load_missing, Samples.world10).
Proof. reflexivity. Qed.

Example load_late_constructed :
  Task_LoadImg_path "late.jpg" Samples.two_seconds Samples.world_late
  = (Ok Samples.load_late, Samples.world_late).
Proof. reflexivity. Qed.

(** The wait window in milliseconds is the [float] product, rounded, then
    truncated: 0.251f gives 250 and 0.005f gives 5; 3e6f is out of the
    range of [int]. *)
Example wait_ms_rounds :
  wait_ms (S754_finite false 8422162 (-25)) = 250 /\
  wait_ms (S754_finite false 10737418 (-31)) = 5 /\
  wait_ms Samples.two_seconds = 2000 /\
  wait_ms (S754_finite false 12000000 (-2)) = Int32.min_int.
Proof. repeat split. Qed.

Example save_nocrop_constructed :
  m_name (img_base (save_img Samples.save_nocrop)) = "Save out.jpg" /\
  m_depends_on (img_base (save_img Samples.save_nocrop)) = [1%nat] /\
  m_valid_area (save_img Samples.save_nocrop) = Rect.zero.
Proof. repeat split. Qed.

(** [BORDER_REFLECT] on a line of 8 pixels: fedcba|abcdefgh|hgfedcb. *)
Example borderInterpolate_reflect_line :
  (fun p => borderInterpolate_reflect p 8) <$> [-3; -2; -1; 0; 7; 8; 9; 10]
  = [2; 1; 0; 0; 7; 7; 6; 5].
Proof. reflexivity. Qed.

(** The corner of the padded sample picture mirrors the corner of the
    original, and the original corner sits at (1, 1). *)
Example load10_padded_corner :
  match LoadImg.task Samples.levels_for_size 0 Samples.load10
                     Samples.world10_copied with
  | (Ok (Some t'), w') =>
      Mat_at (heap w') (m_result (load_img t')) 0 0 = [0] /\
      Mat_at (heap w') (m_result (load_img t')) 1 1 = [0] /\
      Mat_at (heap w') (m_result (load_img t')) 1 2 = [1] /\
      Mat_at (heap w') (m_result (load_img t')) 11 11 = [99] /\
      Mat_at (heap w') (m_original_image t') 9 9 = [99]
  | _ => False
  end.
Proof. vm_compute. repeat split. Qed.

(** A file that appears 250 ms after the task started, on a machine whose
    sleeps return 1 ms late and whose decodes take 2 ms, is decoded by the
    fourth attempt, which is entered at 309 ms and returns at 311 ms. *)
Example load_late_acquires :
  LoadImg.acquire 20 Samples.load_late Samples.world_late
  = (Ok (Some (mkMat (Some 0%nat) 10 10 0 0 CV_8U 1)),
     mkWorld [i_pixels (Samples.gradient 10 10)] 311 (fs Samples.world_late)
             [EvImread "late.jpg" 0;
              EvSleep 100; EvImread "late.jpg" 103;
              EvSleep 100; EvImread "late.jpg" 206;
              EvSleep 100; EvImread "late.jpg" 309]
             (timing Samples.world_late)).
Proof. reflexivity. Qed.

(** While its wait window is open, a load task without dependency is not
    ready before the file is there, and is ready once it is. *)
Example load_late_ready :
  LoadImg.ready_to_run (fun _ => false) Samples.load_late Samples.world_late
  = (Ok false, Samples.world_late) /\
  (let w := mkWorld [] 300 (fs Samples.world_late) []
                    (timing Samples.world_late) in
   LoadImg.ready_to_run (fun _ => false) Samples.load_late w = (Ok true, w)).
Proof. split; reflexivity. Qed.

(** In crop mode the same input is cropped to its valid region. *)
Example save_crop_extracts :
  match SaveImg.task (SaveImg.new ":memory:" Samples.padded_input None 95 false)
                     Samples.world10 with
  | (Ok t', w') =>
      Mat_size (m_result (save_img t')) = Size.mk 8 8 /\
      m_valid_area (save_img t') = Rect.mk 0 0 8 8 /\
      Mat_at (heap w') (m_result (save_img t')) 0 0 = [11] /\
      trace w' = []
  | _ => False
  end.
Proof. vm_compute. repeat split. Qed.

(** With the first resource task running, the scheduler does not pick the
    second one; it does once the first has finished. *)
Example second_gpu_task_waits :
  Worker.pick Samples.gpu_tasks 1 Samples.one_gpu_task_running = None /\
  Worker.pick Samples.gpu_tasks 1
    (Worker.finish Samples.gpu_tasks 0%nat Samples.one_gpu_task_running)
  = Some 1%nat.
Proof. split; reflexivity. Qed.

(* ===================================================================== *)
(** * Further properties of the valid-region model *)
(* ===================================================================== *)

Lemma fits_small (z : Z) : - 2 ^ 30 <= z <= 2 ^ 30 -> Int32.fits z.
Proof. unfold Int32.fits, Int32.min_int, Int32.max_int. lia. Qed.

(** [limit_valid_area] on small coordinates, without the wrap-around. *)
Lemma limit_valid_area_small (t : ImgTask) (other : Rect.t) :
  - 2 ^ 29 <= Rect.x (m_valid_area t) <= 2 ^ 29 ->
  - 2 ^ 29 <= Rect.y (m_valid_area t) <= 2 ^ 29 ->
  - 2 ^ 29 <= Rect.x (m_valid_area t) + Rect.width (m_valid_area t) <= 2 ^ 29 ->
  - 2 ^ 29 <= Rect.y (m_valid_area t) + Rect.height (m_valid_area t) <= 2 ^ 29 ->
  Rect_small other ->
  m_valid_area (limit_valid_area t other)
  = Rect.mk (Z.max (Rect.x (m_valid_area t)) (Rect.x other))
            (Z.max (Rect.y (m_valid_area t)) (Rect.y other))
            (Z.min (Rect.x (m_valid_area t) + Rect.width (m_valid_area t))
                   (Rect.x other + Rect.width other)
             - Z.max (Rect.x (m_valid_area t)) (Rect.x other))
            (Z.min (Rect.y (m_valid_area t) + Rect.height (m_valid_area t))
                   (Rect.y other + Rect.height other)
             - Z.max (Rect.y (m_valid_area t)) (Rect.y other)).
Proof.
  intros Hx Hy Hxw Hyh (Hox & Hoy & How & Hoh).
  unfold limit_valid_area. cbn [m_valid_area].
  rewrite !add_fits by (apply fits_small; lia).
  rewrite !sub_fits by (apply fits_small; lia).
  reflexivity.
Qed.

(** Limiting by two rectangles gives the same region in either order, and
    limiting twice by the same rectangle is limiting once. *)
Theorem limit_valid_area_commutes (t : ImgTask) (a b : Rect.t) :
  Rect_small (m_valid_area t) -> Rect_small a -> Rect_small b ->
  m_valid_area (limit_valid_area (limit_valid_area t a) b)
  = m_valid_area (limit_valid_area (limit_valid_area t b) a) /\
  m_valid_area (limit_valid_area (limit_valid_area t a) a)
  = m_valid_area (limit_valid_area t a).
Proof.
  intros (Hx & Hy & Hw & Hh) Ha Hb.
  pose proof Ha as (Hax & Hay & Haw & Hah).
  pose proof Hb as (Hbx & Hby & Hbw & Hbh).
  assert (Ea := limit_valid_area_small t a ltac:(lia) ltac:(lia) ltac:(lia)
                  ltac:(lia) Ha).
  assert (Eb := limit_valid_area_small t b ltac:(lia) ltac:(lia) ltac:(lia)
                  ltac:(lia) Hb).
  split.
  - rewrite (limit_valid_area_small (limit_valid_area t a) b),
            (limit_valid_area_small (limit_valid_area t b) a);
      rewrite ?Ea, ?Eb; cbn [Rect.x Rect.y Rect.width Rect.height];
      try assumption; try lia.
    f_equal; lia.
  - rewrite (limit_valid_area_small (limit_valid_area t a) a);
      rewrite ?Ea; cbn [Rect.x Rect.y Rect.width Rect.height];
      try assumption; try lia.
    f_equal; lia.
Qed.

Lemma limit_valid_area_commutes_witness :
  m_valid_area (limit_valid_area
                  (limit_valid_area (Samples.imgtask10 (Rect.mk 1 2 6 6))
                                    (Rect.mk 4 0 6 5))
                  (Rect.mk 0 3 5 5))
  = m_valid_area (limit_valid_area
                    (limit_valid_area (Samples.imgtask10 (Rect.mk 1 2 6 6))
                                      (Rect.mk 0 3 5 5))
                    (Rect.mk 4 0 6 5)).
Proof.
  apply (limit_valid_area_commutes (Samples.imgtask10 (Rect.mk 1 2 6 6))
           (Rect.mk 4 0 6 5) (Rect.mk 0 3 5 5));
    unfold Rect_small; cbn; lia.
Defined.

(** When the stored region ends exactly where the argument begins (or the
    other way round), on either axis, the two have no pixel in common and
    the stored width or height becomes 0: the region counts as unset from
    then on, and [valid_area()] reports the entire buffer. *)
Theorem limit_valid_area_touching_unsets (t : ImgTask) (other : Rect.t) :
  Rect_small (m_valid_area t) -> Rect_small other ->
  0 <= Rect.width (m_valid_area t) -> 0 <= Rect.height (m_valid_area t) ->
  0 <= Rect.width other -> 0 <= Rect.height other ->
  Rect.x (m_valid_area t) + Rect.width (m_valid_area t) = Rect.x other \/
  Rect.x other + Rect.width other = Rect.x (m_valid_area t) \/
  Rect.y (m_valid_area t) + Rect.height (m_valid_area t) = Rect.y other \/
  Rect.y other + Rect.height other = Rect.y (m_valid_area t) ->
  let t' := limit_valid_area t other in
  (forall px py, ~ (Rect.contains (m_valid_area t) px py /\
                    Rect.contains other px py)) /\
  has_valid_area t' = false /\
  valid_area t' = Rect_whole (m_result t).
Proof.
  intros Hs Ho Hw Hh How Hoh Htouch t'.
  pose proof Hs as (Hx & Hy & Hw' & Hh').
  pose proof Ho as (Hox & Hoy & How' & Hoh').
  assert (E := limit_valid_area_small t other ltac:(lia) ltac:(lia) ltac:(lia)
                 ltac:(lia) Ho).
  assert (Hno : has_valid_area t' = false).
  { unfold has_valid_area, t'. rewrite E.
    cbn [Rect.x Rect.y Rect.width Rect.height].
    destruct Htouch as [H|[H|[H|H]]].
    - rewrite (proj2 (Z.eqb_eq _ 0)) by lia. reflexivity.
    - rewrite (proj2 (Z.eqb_eq _ 0)) by lia. reflexivity.
    - rewrite (proj2 (Z.eqb_eq (_ - Z.max (Rect.y _) _) 0)) by lia.
      apply andb_false_r.
    - rewrite (proj2 (Z.eqb_eq (_ - Z.max (Rect.y _) _) 0)) by lia.
      apply andb_false_r. }
  split; [|split; [exact Hno|]].
  - intros px py [[Hpx Hpy] [Hqx Hqy]]. lia.
  - unfold valid_area. rewrite Hno. reflexivity.
Qed.

Lemma limit_valid_area_touching_unsets_witness :
  let t' := limit_valid_area (Samples.imgtask10 (Rect.mk 0 0 5 10))
                             (Rect.mk 5 0 5 10) in
  has_valid_area t' = false /\ valid_area t' = Rect.mk 0 0 10 10.
Proof.
  apply (limit_valid_area_touching_unsets
           (Samples.imgtask10 (Rect.mk 0 0 5 10)) (Rect.mk 5 0 5 10));
    unfold Rect_small; cbn; lia.
Defined.

(** The clamped rectangle when the origin of the valid area is inside the
    buffer: the origin stays, the sides are cut at the buffer's edges. *)
Lemma safeRect_origin_inside (t : ImgTask) (m : Mat) :
  0 <= Rect.x (m_valid_area t) < cols m ->
  0 <= Rect.y (m_valid_area t) < rows m ->
  Int32.fits (cols m) -> Int32.fits (rows m) ->
  safeRect t m
  = Rect.mk (Rect.x (m_valid_area t)) (Rect.y (m_valid_area t))
            (Z.min (Rect.width (m_valid_area t)) (cols m - Rect.x (m_valid_area t)))
            (Z.min (Rect.height (m_valid_area t)) (rows m - Rect.y (m_valid_area t))).
Proof.
  intros Hx Hy Hcf Hrf. unfold safeRect.
  rewrite (sub_fits (cols m) 1), (sub_fits (rows m) 1) by solve_fits.
  replace (Z.max 0 (Z.min (Rect.x (m_valid_area t)) (cols m - 1)))
    with (Rect.x (m_valid_area t)) by lia.
  replace (Z.max 0 (Z.min (Rect.y (m_valid_area t)) (rows m - 1)))
    with (Rect.y (m_valid_area t)) by lia.
  by rewrite !sub_fits by solve_fits.
Qed.

(** The clamped rectangle when the origin of the valid area is left of and
    above the buffer: the origin moves to (0, 0) and the sides are only
    capped by the buffer's size. *)
Lemma safeRect_origin_negative (t : ImgTask) (m : Mat) :
  Rect.x (m_valid_area t) <= 0 -> Rect.y (m_valid_area t) <= 0 ->
  0 < cols m -> 0 < rows m -> Int32.fits (cols m) -> Int32.fits (rows m) ->
  safeRect t m
  = Rect.mk 0 0 (Z.min (Rect.width (m_valid_area t)) (cols m))
                (Z.min (Rect.height (m_valid_area t)) (rows m)).
Proof.
  intros Hx Hy Hc Hr Hcf Hrf. unfold safeRect.
  rewrite (sub_fits (cols m) 1), (sub_fits (rows m) 1) by solve_fits.
  replace (Z.max 0 (Z.min (Rect.x (m_valid_area t)) (cols m - 1))) with 0 by lia.
  replace (Z.max 0 (Z.min (Rect.y (m_valid_area t)) (rows m - 1))) with 0 by lia.
  rewrite !sub_fits by solve_fits. by rewrite !Z.sub_0_r.
Qed.

(** A valid region of positive width and height that starts inside the
    buffer, is not the whole buffer and may hang over its right or bottom
    edge is cut at the edge: [extract_original_area] copies exactly the
    part of the region that lies in the buffer. *)
Theorem extract_original_area_cuts_at_edges (t : ImgTask) (m : Mat) (w : World) :
  is_Some (data m) -> Int32.fits (cols m) -> Int32.fits (rows m) ->
  0 <= Rect.x (m_valid_area t) < cols m ->
  0 <= Rect.y (m_valid_area t) < rows m ->
  0 < Rect.width (m_valid_area t) -> 0 < Rect.height (m_valid_area t) ->
  m_valid_area t <> Rect_whole m ->
  let inside :=
    Rect.mk (Rect.x (m_valid_area t)) (Rect.y (m_valid_area t))
            (Z.min (Rect.width (m_valid_area t)) (cols m - Rect.x (m_valid_area t)))
            (Z.min (Rect.height (m_valid_area t)) (rows m - Rect.y (m_valid_area t))) in
  (forall px py, Rect.contains inside px py <->
                 Rect.contains (m_valid_area t) px py /\
                 Rect.contains (Rect_whole m) px py) /\
  exists copy w',
    extract_original_area t m w = (Ok copy, w') /\
    deep_copy_of w w' m inside copy.
Proof.
  intros Hd Hcf Hrf Hx Hy Hw Hh Hne inside. split.
  - intros px py. unfold Rect.contains, inside, Rect_whole.
    cbn [Rect.x Rect.y Rect.width Rect.height]. lia.
  - destruct (extract_original_area_copies t m w) as (copy & w' & He & Hcopy);
      try assumption; try lia.
    rewrite safeRect_origin_inside in Hcopy by assumption.
    eauto.
Qed.

Lemma extract_original_area_cuts_at_edges_witness :
  exists copy w',
    extract_original_area (Samples.imgtask10 (Rect.mk 7 8 20 5))
                          Samples.mat10 Samples.world10 = (Ok copy, w') /\
    deep_copy_of Samples.world10 w' Samples.mat10 (Rect.mk 7 8 3 2) copy.
Proof.
  apply (extract_original_area_cuts_at_edges
           (Samples.imgtask10 (Rect.mk 7 8 20 5)) Samples.mat10 Samples.world10);
    cbn; eauto; try lia; try discriminate;
    unfold Int32.fits, Int32.min_int, Int32.max_int; lia.
Defined.

(** A valid region of positive width and height whose origin is left of
    and above the buffer is moved, not cut: [extract_original_area] copies
    the window at (0, 0) with the region's full width and height (capped
    by the buffer), which reaches past the region's own right and bottom
    edges. *)
Theorem extract_original_area_moves_negative_origin
    (t : ImgTask) (m : Mat) (w : World) :
  is_Some (data m) ->
  0 < cols m -> Int32.fits (cols m) -> 0 < rows m -> Int32.fits (rows m) ->
  Rect.x (m_valid_area t) < 0 -> Rect.y (m_valid_area t) < 0 ->
  0 < Rect.width (m_valid_area t) -> 0 < Rect.height (m_valid_area t) ->
  let moved := Rect.mk 0 0 (Z.min (Rect.width (m_valid_area t)) (cols m))
                           (Z.min (Rect.height (m_valid_area t)) (rows m)) in
  (exists copy w',
     extract_original_area t m w = (Ok copy, w') /\
     deep_copy_of w w' m moved copy) /\
  (forall px py, Rect.contains (m_valid_area t) px py ->
                 Rect.contains (Rect_whole m) px py ->
                 Rect.contains moved px py) /\
  (0 <= Rect.x (m_valid_area t) + Rect.width (m_valid_area t) < cols m ->
   Rect.contains moved (Rect.x (m_valid_area t) + Rect.width (m_valid_area t)) 0 /\
   ~ Rect.contains (m_valid_area t)
       (Rect.x (m_valid_area t) + Rect.width (m_valid_area t)) 0).
Proof.
  intros Hd Hc Hcf Hr Hrf Hx Hy Hw Hh moved. split; [|split].
  - destruct (extract_original_area_copies t m w) as (copy & w' & He & Hcopy);
      try assumption.
    { intros E. rewrite E in Hx. cbn in Hx. lia. }
    rewrite safeRect_origin_negative in Hcopy by (assumption || lia).
    eauto.
  - intros px py. unfold Rect.contains, moved, Rect_whole.
    cbn [Rect.x Rect.y Rect.width Rect.height]. lia.
  - intros Hshort. unfold Rect.contains, moved.
    cbn [Rect.x Rect.y Rect.width Rect.height]. lia.
Qed.

Lemma extract_original_area_moves_negative_origin_witness :
  exists copy w',
    extract_original_area (Samples.imgtask10 (Rect.mk (-2) (-3) 6 7))
                          Samples.mat10 Samples.world10 = (Ok copy, w') /\
    deep_copy_of Samples.world10 w' Samples.mat10 (Rect.mk 0 0 6 7) copy.
Proof.
  apply (extract_original_area_moves_negative_origin
           (Samples.imgtask10 (Rect.mk (-2) (-3) 6 7))
           Samples.mat10 Samples.world10);
    cbn; eauto; try lia;
    unfold Int32.fits, Int32.min_int, Int32.max_int; lia.
Defined.

(** The test of [img_cropped] (worker.hh, lines 80-81), for a region with
    pixels that lies inside the buffer: it asks for a copy exactly when the
    region is not the whole buffer. *)
Lemma img_cropped_inside (t : ImgTask) (w : World) :
  0 <= Rect.x (m_valid_area t) -> 0 <= Rect.y (m_valid_area t) ->
  0 < Rect.width (m_valid_area t) -> 0 < Rect.height (m_valid_area t) ->
  Rect.x (m_valid_area t) + Rect.width (m_valid_area t) <= cols (img t) ->
  Rect.y (m_valid_area t) + Rect.height (m_valid_area t) <= rows (img t) ->
  img_cropped t w
  = if covers_whole t (img t) then (Ok (img t), w)
    else extract_original_area t (img t) w.
Proof.
  intros Hx Hy Hw Hh Hxw Hyh. unfold img_cropped.
  rewrite (has_valid_area_positive t Hw Hh). cbn [andb].
  destruct (covers_whole t (img t)) eqn:Hcov.
  - apply covers_whole_true in Hcov. rewrite Hcov.
    cbn [Rect.x Rect.y Rect.width Rect.height].
    by rewrite !Z.ltb_irrefl.
  - assert (Hstrict : (0 <? Rect.x (m_valid_area t))
                      || (0 <? Rect.y (m_valid_area t))
                      || (Rect.width (m_valid_area t) <? cols (img t))
                      || (Rect.height (m_valid_area t) <? rows (img t)) = true).
    { destruct ((0 <? Rect.x (m_valid_area t))
                || (0 <? Rect.y (m_valid_area t))
                || (Rect.width (m_valid_area t) <? cols (img t))
                || (Rect.height (m_valid_area t) <? rows (img t))) eqn:E;
        [reflexivity|].
      rewrite !orb_false_iff, !Z.ltb_ge in E.
      destruct E as [[[E1 E2] E3] E4].
      unfold covers_whole in Hcov.
      rewrite !(proj2 (Z.eqb_eq _ _)) in Hcov by lia. discriminate. }
    by rewrite Hstrict.
Qed.

(** [img_cropped()] of a task whose valid region has pixels and lies inside
    its buffer returns a matrix of the region's size that holds the
    region's pixels: the buffer itself, with nothing copied, when the
    region is the whole buffer, and a deep copy otherwise.  With no region
    set it returns the buffer itself. *)
Theorem img_cropped_returns_region (t : ImgTask) (w : World) :
  (has_valid_area t = false -> img_cropped t w = (Ok (img t), w)) /\
  (is_Some (data (img t)) ->
   Int32.fits (cols (img t)) -> Int32.fits (rows (img t)) ->
   0 <= Rect.x (m_valid_area t) -> 0 <= Rect.y (m_valid_area t) ->
   0 < Rect.width (m_valid_area t) -> 0 < Rect.height (m_valid_area t) ->
   Rect.x (m_valid_area t) + Rect.width (m_valid_area t) <= cols (img t) ->
   Rect.y (m_valid_area t) + Rect.height (m_valid_area t) <= rows (img t) ->
   exists cropped w',
     img_cropped t w = (Ok cropped, w') /\
     rows cropped = Rect.height (m_valid_area t) /\
     cols cropped = Rect.width (m_valid_area t) /\
     (forall r c, 0 <= r < rows cropped -> 0 <= c < cols cropped ->
        Mat_at (heap w') cropped r c
        = Mat_at (heap w) (img t) (Rect.y (m_valid_area t) + r)
                                  (Rect.x (m_valid_area t) + c)) /\
     (m_valid_area t = Rect_whole (img t) -> cropped = img t /\ w' = w) /\
     (m_valid_area t <> Rect_whole (img t) ->
      deep_copy_of w w' (img t) (m_valid_area t) cropped)).
Proof.
  split.
  - intros Hno. unfold img_cropped. by rewrite Hno.
  - intros Hd Hcf Hrf Hx Hy Hw Hh Hxw Hyh.
    rewrite img_cropped_inside by assumption.
    destruct (covers_whole t (img t)) eqn:Hcov.
    + apply covers_whole_true in Hcov.
      exists (img t), w. rewrite Hcov.
      cbn [Rect.x Rect.y Rect.width Rect.height].
      split; [reflexivity|]. split; [reflexivity|]. split; [reflexivity|].
      split; [intros r c _ _; by rewrite !Z.add_0_l|].
      split; [done|]. intros Hne. by destruct Hne.
    + assert (Hne : m_valid_area t <> Rect.mk 0 0 (cols (img t)) (rows (img t))).
      { intros E. apply covers_whole_true in E. congruence. }
      destruct (extract_original_area_copies t (img t) w)
        as (copy & w' & He & Hcopy); try assumption; try lia.
      rewrite safeRect_unchanged in Hcopy by assumption.
      exists copy, w'. split; [exact He|].
      pose proof Hcopy as (_ & _ & _ & Hr & Hc & _ & _ & Hpix & _).
      rewrite Hr, Hc.
      split; [reflexivity|]. split; [reflexivity|]. split; [exact Hpix|].
      split; [intros E; contradiction|]. intros _. exact Hcopy.
Qed.

Lemma img_cropped_returns_region_witness :
  exists cropped w',
    img_cropped (Samples.imgtask10 (Rect.mk 1 1 8 8)) Samples.world10
    = (Ok cropped, w') /\
    rows cropped = 8 /\ cols cropped = 8 /\
    (forall r c, 0 <= r < rows cropped -> 0 <= c < cols cropped ->
       Mat_at (heap w') cropped r c
       = Mat_at (heap Samples.world10) Samples.mat10 (1 + r) (1 + c)) /\
    (Rect.mk 1 1 8 8 = Rect_whole Samples.mat10 ->
     cropped = Samples.mat10 /\ w' = Samples.world10) /\
    (Rect.mk 1 1 8 8 <> Rect_whole Samples.mat10 ->
     deep_copy_of Samples.world10 w' Samples.mat10 (Rect.mk 1 1 8 8) cropped).
Proof.
  apply (img_cropped_returns_region (Samples.imgtask10 (Rect.mk 1 1 8 8))
           Samples.world10);
    cbn; eauto; try lia;
    unfold Int32.fits, Int32.min_int, Int32.max_int; lia.
Defined.

(* ===================================================================== *)
(** * Further properties of [Task_LoadImg] *)
(* ===================================================================== *)

Lemma wait_ms_0 : wait_ms Float.zero = 0.
Proof. reflexivity. Qed.

(** The in-memory constructor keeps a deep copy of the picture it is given,
    so the caller's buffer and the task's never share pixels, sets no valid
    region and no wait window, and puts the deadline at the time of
    construction.  Given a matrix without pixels it keeps the empty matrix
    and allocates nothing. *)
Theorem memory_constructor_clones (name : string) (image : Mat) (w : World) :
  (Mat_is_empty image = false ->
   exists t w',
     Task_LoadImg_memory name image w = (Ok t, w') /\
     deep_copy_of w w' image (Rect_whole image) (m_result (load_img t)) /\
     has_valid_area (load_img t) = false /\
     wait_positive (m_wait_images t) = false /\
     m_wait_images_until t = clock w /\
     LoadImg.filename t = name /\
     m_name (img_base (load_img t)) = "Memory image " +:+ name) /\
  (Mat_is_empty image = true ->
   exists t,
     Task_LoadImg_memory name image w = (Ok t, w) /\
     m_result (load_img t) = Mat_empty /\
     m_wait_images_until t = clock w /\
     LoadImg.filename t = name).
Proof.
  split; intros He; unfold Task_LoadImg_memory, bind at 1.
  - rewrite Mat_clone_nonempty by exact He.
    unfold bind, now, ret. cbn [clock heap fs trace timing].
    eexists _, _. split; [reflexivity|].
    cbn [load_img m_result m_valid_area m_wait_images m_wait_images_until
         LoadImg.filename img_base m_filename m_name Task_named].
    rewrite wait_ms_0, Z.add_0_r.
    repeat split; try reflexivity; eauto.
    intros r c Hr Hc. cbn [Rect_whole Rect.x Rect.y Rect.width Rect.height] in *.
    cbn [heap]. rewrite Mat_at_new by reflexivity.
    cbn [roi_y roi_x]. rewrite Buffer_at_tabulate2 by lia.
    reflexivity.
  - unfold Mat_clone. rewrite He. unfold bind, now, ret.
    eexists. split; [reflexivity|].
    cbn [load_img m_result m_wait_images_until LoadImg.filename img_base
         m_filename Task_named].
    rewrite wait_ms_0, Z.add_0_r. repeat split.
Qed.

Section LoadTaskMore.

Variable levels_for_size : Size.t -> Z * Size.t.

Lemma Size_eqb_refl (s : Size.t) : Size.eqb s s = true.
Proof. unfold Size.eqb. by rewrite !Z.eqb_refl. Qed.

(** A load task built in memory from a matrix without pixels falls back to
    the codec: [task()] decodes its name as a path, once, since the
    deadline is the time of construction, and raises if that fails. *)
Theorem memory_constructor_empty_image_decodes_name
    (name : string) (image : Mat) (w : World) :
  Mat_is_empty image = true ->
  exists t,
    Task_LoadImg_memory name image w = (Ok t, w) /\
    forall (fuel : nat) (w2 : World),
      clock w <= clock w2 ->
      decodable w2 (clock w2) name = false ->
      LoadImg.task levels_for_size fuel t w2
      = (Throw ("Could not load " +:+ name),
         mkWorld (heap w2) (decode_end (timing w2) (clock w2)) (fs w2)
                 (trace w2 ++ [EvImread name (clock w2)]) (timing w2)).
Proof.
  intros He. unfold Task_LoadImg_memory, bind at 1, Mat_clone.
  rewrite He. unfold bind, now, ret.
  eexists. split; [reflexivity|].
  intros fuel w2 Hlater Hfail.
  unfold LoadImg.task, LoadImg.acquire, LoadImg.filename.
  cbn [load_img m_result m_wait_images_until img_base m_filename Task_named
       Mat_empty data].
  rewrite bool_decide_eq_true_2 by reflexivity.
  unfold bind at 1. unfold bind at 1.
  rewrite imread_fails by exact Hfail.
  rewrite wait_loop_done
    by (right; cbn [clock]; rewrite wait_ms_0;
        pose proof (decode_end_le (timing w2) (clock w2)); lia).
  by rewrite bool_decide_eq_true_2 by reflexivity.
Qed.

(** When the decoded image already has the size the wavelet transform
    needs, [task()] keeps the decoded buffer as it is, with the whole of it
    as valid region, and retains a separate deep copy as the original
    image. *)
Theorem task_keeps_compatible_image (fuel : nat) (t : Task_LoadImg)
    (w w1 : World) (result : Mat) (p : nat) :
  LoadImg.acquire fuel t w = (Ok (Some result), w1) ->
  data result = Some p -> (p < length (heap w1))%nat ->
  0 < cols result -> 0 < rows result ->
  snd (levels_for_size (Mat_size result)) = Mat_size result ->
  exists t' w',
    LoadImg.task levels_for_size fuel t w = (Ok (Some t'), w') /\
    m_result (load_img t') = result /\
    m_valid_area (load_img t') = Rect_whole result /\
    m_orig_size t' = Mat_size result /\
    deep_copy_of w1 w' result (Rect_whole result) (m_original_image t') /\
    (forall r c, Mat_at (heap w') result r c = Mat_at (heap w1) result r c).
Proof.
  intros Ha Hp Hlt Hc Hr Hsame.
  rewrite (task_acquired levels_for_size fuel t w w1 result p Ha Hp).
  unfold LoadImg.pad_loaded. rewrite Hsame, Size_eqb_refl. cbn [negb].
  unfold bind at 1.
  rewrite Mat_clone_nonempty
    by (unfold Mat_is_empty; rewrite Hp; solve_leb; reflexivity).
  unfold ret. eexists _, _. split; [reflexivity|].
  cbn [load_img m_result m_valid_area m_orig_size m_original_image heap].
  split; [reflexivity|]. split; [reflexivity|]. split; [reflexivity|].
  split.
  - unfold deep_copy_of, Rect_whole.
    cbn [data rows cols roi_y roi_x depth channels heap clock fs trace
         Rect.x Rect.y Rect.width Rect.height timing].
    repeat split; eauto.
    intros r c Hr' Hc'. rewrite Mat_at_new by reflexivity.
    cbn [roi_y roi_x]. by rewrite Buffer_at_tabulate2 by lia.
  - intros r c. by apply (Mat_at_old _ _ _ p).
Qed.

(** With an image supplied in memory, [task()] neither calls the codec nor
    sleeps, whatever the deadline is: it goes straight to lines 67-102, and
    no fuel is needed. *)
Theorem task_with_supplied_image_skips_codec (fuel : nat) (t : Task_LoadImg)
    (w : World) :
  is_Some (data (m_result (load_img t))) ->
  LoadImg.task levels_for_size fuel t w
  = match LoadImg.pad_loaded levels_for_size t (m_result (load_img t)) w with
    | (Ok t', w') => (Ok (Some t'), w')
    | (Throw e, w') => (Throw e, w')
    end /\
  clock (LoadImg.task levels_for_size fuel t w).2 = clock w /\
  fs (LoadImg.task levels_for_size fuel t w).2 = fs w /\
  trace (LoadImg.task levels_for_size fuel t w).2 = trace w.
Proof.
  intros [p Hp].
  assert (Ha : LoadImg.acquire fuel t w = (Ok (Some (m_result (load_img t))), w)).
  { unfold LoadImg.acquire.
    rewrite bool_decide_eq_false_2 by (rewrite Hp; discriminate).
    unfold bind, ret. apply wait_loop_done. left. rewrite Hp. eauto. }
  rewrite (task_acquired levels_for_size fuel t w w _ p Ha Hp).
  split; [reflexivity|].
  assert (Hpad : heap_only (LoadImg.pad_loaded levels_for_size t
                              (m_result (load_img t)))).
  { unfold LoadImg.pad_loaded, copyMakeBorder. solve_heap_only. }
  specialize (Hpad w).
  by destruct (LoadImg.pad_loaded _ _ _ w) as [[t'|e] w'].
Qed.

End LoadTaskMore.

Lemma memory_constructor_clones_witness :
  exists t w',
    Task_LoadImg_memory "mem" Samples.mat10 Samples.world10 = (Ok t, w') /\
    deep_copy_of Samples.world10 w' Samples.mat10 (Rect_whole Samples.mat10)
                 (m_result (load_img t)).
Proof.
  destruct (proj1 (memory_constructor_clones "mem" Samples.mat10 Samples.world10)
              eq_refl) as (t & w' & H1 & H2 & _).
  exists t, w'. split; assumption.
Defined.

Lemma memory_constructor_empty_image_decodes_name_witness :
  exists t,
    Task_LoadImg_memory "gone.jpg" Mat_empty Samples.world10
    = (Ok t, Samples.world10) /\
    LoadImg.task Samples.levels_for_size 0 t Samples.world10
    = (Throw "Could not load gone.jpg",
       mkWorld (heap Samples.world10) 2 (fs Samples.world10)
               [EvImread "gone.jpg" 0] (timing Samples.world10)).
Proof.
  destruct (memory_constructor_empty_image_decodes_name
              Samples.levels_for_size "gone.jpg" Mat_empty Samples.world10
              eq_refl) as (t & H1 & H2).
  exists t. split; [exact H1|].
  apply (H2 0%nat Samples.world10); [cbn; lia|reflexivity].
Defined.

Lemma task_with_supplied_image_skips_codec_witness :
  trace (LoadImg.task Samples.levels_for_size 0 Samples.load10
                      Samples.world10_copied).2 = [].
Proof.
  apply (task_with_supplied_image_skips_codec Samples.levels_for_size 0
           Samples.load10 Samples.world10_copied).
  cbn. eauto.
Defined.

Lemma task_keeps_compatible_image_witness :
  exists t' w',
    LoadImg.task (fun size => (5, size)) 0 Samples.load10 Samples.world10_copied
    = (Ok (Some t'), w') /\
    m_result (load_img t') = m_result (load_img Samples.load10) /\
    m_valid_area (load_img t') = Rect.mk 0 0 10 10.
Proof.
  destruct (task_keeps_compatible_image (fun size => (5, size)) 0 Samples.load10
              Samples.world10_copied Samples.world10_copied
              (m_result (load_img Samples.load10)) 1%nat)
    as (t' & w' & H1 & H2 & H3 & _); try reflexivity; cbn; try lia.
  exists t', w'. repeat split; assumption.
Defined.

Lemma decodable_image (w : World) (at_ms : Z) (path : string) :
  decodable w at_ms path = true ->
  exists image, fs w at_ms path = Present (Some image) /\
                0 < i_rows image /\ 0 < i_cols image.
Proof.
  unfold decodable. destruct (fs w at_ms path) as [|[image|]]; try discriminate.
  intros H. apply andb_true_iff in H as [Hr Hc].
  apply Z.ltb_lt in Hr, Hc. eauto.
Qed.

(** The loop ends, whatever the file system does: when the window allows
    [n] more retries, it sleeps at most [n] times. *)
Lemma wait_loop_ends (path : string) (until : Z) (tm : Timing) (t0 : Z)
    (n : nat) :
  forall (i fuel : nat) (w : World),
    timing w = tm -> clock w = attempt_end tm t0 i ->
    (n <= fuel)%nat ->
    (forall m : nat, (i <= m < i + n)%nat -> attempt_end tm t0 m < until) ->
    until <= attempt_end tm t0 (i + n) ->
    exists (result : Mat) (w1 : World) (j : nat),
      LoadImg.wait_loop fuel path until Mat_empty w = (Ok (Some result), w1) /\
      (j <= n)%nat /\ clock w1 = attempt_end tm t0 (i + j) /\
      fs w1 = fs w /\
      trace w1 = trace w ++ retry_events path (attempt_start tm t0) i j /\
      (data result = None -> j = n /\ heap w1 = heap w).
Proof.
  induction n as [|n IH]; intros i fuel w Htm Hclock Hfuel Hopen Hclosed.
  - exists Mat_empty, w, 0%nat.
    rewrite wait_loop_done by (right; rewrite Nat.add_0_r in Hclosed; lia).
    rewrite Nat.add_0_r. cbn [retry_events]. rewrite app_nil_r.
    repeat split; try reflexivity; try assumption; lia.
  - destruct fuel as [|fuel]; [lia|].
    pose proof (Hopen i ltac:(lia)) as Hnow. rewrite <- Hclock in Hnow.
    assert (Hentered : wake (timing w) 100 (clock w) = attempt_start tm t0 (S i)).
    { cbn [attempt_start]. by rewrite Htm, Hclock. }
    destruct (decodable w (wake (timing w) 100 (clock w)) path) eqn:Hdec.
    + apply decodable_image in Hdec as (image & Hfs & Hr & Hc).
      rewrite (wait_loop_decodes fuel path until w image) by assumption.
      eexists _, _, 1%nat. split; [reflexivity|].
      cbn [clock fs heap data trace retry_events timing].
      split; [lia|]. split.
      { replace (i + 1)%nat with (S i) by lia. cbn [attempt_end].
        by rewrite Htm, Hclock. }
      split; [reflexivity|]. split; [by rewrite Hentered|]. discriminate.
    + cbn [LoadImg.wait_loop]. unfold bind at 1. unfold now at 1.
      rewrite bool_decide_eq_true_2 by reflexivity.
      rewrite (proj2 (Z.ltb_lt (clock w) until)) by lia.
      cbn [andb]. unfold bind at 1. unfold sleep_for at 1.
      unfold bind at 1. rewrite imread_fails by exact Hdec.
      cbn [clock fs heap trace timing].
      destruct (IH (S i) fuel
                  (mkWorld (heap w)
                     (decode_end (timing w) (wake (timing w) 100 (clock w)))
                     (fs w)
                     ((trace w ++ [EvSleep 100])
                      ++ [EvImread path (wake (timing w) 100 (clock w))])
                     (timing w)))
        as (result & w1 & j & Hloop & Hj & Hclock1 & Hfs & Htrace & Hnone);
        cbn [clock fs heap trace timing]; try lia; try assumption.
      { cbn [attempt_end]. by rewrite Htm, Hclock. }
      { intros m Hm. apply Hopen. lia. }
      { by replace (S i + n)%nat with (i + S n)%nat by lia. }
      exists result, w1, (S j). split; [exact Hloop|].
      cbn [clock fs heap trace timing] in *.
      split; [lia|]. split.
      { by replace (i + S j)%nat with (S i + j)%nat by lia. }
      split; [exact Hfs|]. split.
      { rewrite Htrace. cbn [retry_events]. rewrite Hentered.
        by rewrite <- !app_assoc. }
      intros Hn. destruct (Hnone Hn) as [-> Hheap]. by split.
Qed.

Section LoadTaskTime.

Variable levels_for_size : Size.t -> Z * Size.t.

(** Without an open wait window (the deadline is not ahead when [task()]
    starts), a load task without an in-memory image makes exactly one
    decode attempt and never sleeps: it raises at once if the attempt
    fails, and goes on with the decoded image otherwise. *)
Theorem task_without_window_decodes_once (fuel : nat) (t : Task_LoadImg)
    (w : World) :
  data (m_result (load_img t)) = None ->
  m_wait_images_until t <= clock w ->
  let path := LoadImg.filename t in
  let w1 := mkWorld (heap w) (decode_end (timing w) (clock w)) (fs w)
                    (trace w ++ [EvImread path (clock w)]) (timing w) in
  (decodable w (clock w) path = false ->
   LoadImg.task levels_for_size fuel t w
   = (Throw ("Could not load " +:+ path), w1)) /\
  (forall image,
     fs w (clock w) path = Present (Some image) ->
     0 < i_rows image -> 0 < i_cols image ->
     LoadImg.acquire fuel t w
     = (Ok (Some (mkMat (Some (length (heap w))) (i_rows image) (i_cols image)
                        0 0 (i_depth image) (i_channels image))),
        mkWorld (heap w ++ [i_pixels image])
                (decode_end (timing w) (clock w)) (fs w)
                (trace w ++ [EvImread path (clock w)]) (timing w))).
Proof.
  intros Hnone Hclosed path w1. split.
  - intros Hfail. unfold LoadImg.task, LoadImg.acquire. fold path.
    rewrite bool_decide_eq_true_2 by exact Hnone.
    unfold bind at 1. unfold bind at 1.
    rewrite imread_fails by exact Hfail. fold w1.
    rewrite wait_loop_done
      by (right; unfold w1; cbn [clock];
          pose proof (decode_end_le (timing w) (clock w)); lia).
    by rewrite bool_decide_eq_true_2 by reflexivity.
  - intros image Hfs Hr Hc. unfold LoadImg.acquire. fold path.
    rewrite bool_decide_eq_true_2 by exact Hnone.
    unfold bind at 1.
    rewrite (imread_decodes path w image) by assumption.
    apply wait_loop_done. left. cbn [data]. eauto.
Qed.

(** Image acquisition always ends, whatever the file system does and
    however long the sleeps and the decodes take, given fuel for the
    sleeps of 100 ms that fit into the window.  It makes one attempt and
    then [j] retries, each after a sleep that was entered while the
    deadline was still ahead, so that 100 ms or more go by per retry.
    The loop gives up without an image only once the deadline is reached,
    and has allocated nothing then. *)
Theorem acquire_always_ends (t : Task_LoadImg) (w : World) :
  data (m_result (load_img t)) = None ->
  let path := LoadImg.filename t in
  let until := m_wait_images_until t in
  let start := attempt_start (timing w) (clock w) in
  let finish := attempt_end (timing w) (clock w) in
  let sleeps := Z.to_nat ((until - clock w + 99) / 100) in
  forall fuel : nat, (sleeps <= fuel)%nat ->
    exists (result : Mat) (w1 : World) (j : nat),
      LoadImg.acquire fuel t w = (Ok (Some result), w1) /\
      (j <= sleeps)%nat /\
      clock w1 = finish j /\
      clock w + 100 * Z.of_nat j <= clock w1 /\
      trace w1 = trace w ++ EvImread path (clock w)
                         :: retry_events path start 0 j /\
      fs w1 = fs w /\
      (forall i : nat, (i < j)%nat -> finish i < until) /\
      (data result = None -> until <= clock w1 /\ heap w1 = heap w).
Proof.
  intros Hnone path until start finish sleeps fuel Hfuel.
  destruct (retries_allowed (timing w) (clock w) until)
    as (k & Hopen & Hclosed & Hbound).
  fold finish in Hopen, Hclosed. fold sleeps in Hbound.
  unfold LoadImg.acquire. fold path until.
  rewrite bool_decide_eq_true_2 by exact Hnone.
  unfold bind at 1.
  destruct (decodable w (clock w) path) eqn:Hdec.
  - apply decodable_image in Hdec as (image & Hfs & Hr & Hc).
    rewrite (imread_decodes _ w image) by assumption.
    rewrite wait_loop_done by (left; cbn [data]; eauto).
    eexists _, _, 0%nat. split; [reflexivity|].
    cbn [clock fs data trace retry_events timing].
    split; [lia|]. split; [reflexivity|].
    split; [pose proof (decode_end_le (timing w) (clock w)); lia|].
    split; [reflexivity|]. split; [reflexivity|].
    split; [intros i Hi; lia|discriminate].
  - rewrite imread_fails by exact Hdec.
    destruct (wait_loop_ends path until (timing w) (clock w) k 0 fuel
                (mkWorld (heap w) (decode_end (timing w) (clock w)) (fs w)
                   (trace w ++ [EvImread path (clock w)]) (timing w)))
      as (result & w1 & j & Hloop & Hj & Hclock & Hfs & Htrace & Hgive);
      try reflexivity; try assumption; try lia.
    { intros m Hm. apply Hopen. lia. }
    cbn [clock fs heap trace Nat.add timing] in *.
    exists result, w1, j. split; [exact Hloop|].
    split; [lia|]. split; [exact Hclock|].
    split; [rewrite Hclock; apply attempt_end_grows|].
    split; [by rewrite Htrace, <- app_assoc|].
    split; [exact Hfs|]. split.
    + intros i Hi. apply Hopen. lia.
    + intros Hn. destruct (Hgive Hn) as [-> Hheap].
      split; [by rewrite Hclock|exact Hheap].
Qed.

End LoadTaskTime.

Lemma task_without_window_decodes_once_witness :
  LoadImg.task Samples.levels_for_size 0 Samples.load_missing
    (mkWorld [] 2000 (fun _ _ => Missing) [] Samples.slow)
  = (Throw "Could not load missing.jpg",
     mkWorld [] 2002 (fun _ _ => Missing) [EvImread "missing.jpg" 2000]
             Samples.slow).
Proof.
  apply (task_without_window_decodes_once Samples.levels_for_size 0
           Samples.load_missing
           (mkWorld [] 2000 (fun _ _ => Missing) [] Samples.slow));
    [reflexivity|cbn; lia|reflexivity].
Defined.

(** The file late.jpg appears at 250 ms: with fuel for the 20 sleeps that
    fit into the window of 2 seconds, the loop ends, after at most 20
    sleeps. *)
Lemma acquire_always_ends_witness :
  exists (result : Mat) (w1 : World) (j : nat),
    LoadImg.acquire 20 Samples.load_late Samples.world_late
    = (Ok (Some result), w1) /\
    (j <= 20)%nat /\
    0 + 100 * Z.of_nat j <= clock w1 /\
    fs w1 = fs Samples.world_late /\
    (data result = None -> 2000 <= clock w1 /\ heap w1 = []).
Proof.
  destruct (acquire_always_ends Samples.load_late Samples.world_late eq_refl
              20%nat (le_n 20))
    as (result & w1 & j & H1 & H2 & _ & H4 & _ & H6 & _ & H8).
  exists result, w1, j. split; [exact H1|]. split; [exact H2|].
  split; [exact H4|]. split; [exact H6|exact H8].
Defined.

(* ===================================================================== *)
(** * Further properties of [Task_SaveImg] *)
(* ===================================================================== *)

Lemma tabulate_ext {A : Type} (n : Z) (f g : Z -> A) :
  (forall i, 0 <= i < n -> f i = g i) -> tabulate n f = tabulate n g.
Proof.
  intros Hfg. unfold tabulate. apply list_eq. intros i.
  rewrite !list_lookup_fmap.
  destruct (seqZ 0 n !! i) as [z|] eqn:E; [|reflexivity].
  apply lookup_seqZ in E as [-> Hi]. cbn. f_equal. apply Hfg. lia.
Qed.

Lemma tabulate2_ext (nrows ncols : Z) (f g : Z -> Z -> Pixel) :
  (forall r c, 0 <= r < nrows -> 0 <= c < ncols -> f r c = g r c) ->
  tabulate2 nrows ncols f = tabulate2 nrows ncols g.
Proof.
  intros Hfg. unfold tabulate2. apply tabulate_ext. intros r Hr.
  apply tabulate_ext. intros c Hc. by apply Hfg.
Qed.

(** The output step on a matrix with pixels. *)
Lemma write_output_nonempty (path : string) (result : Mat) (quality : Z)
    (w : World) :
  Mat_is_empty result = false ->
  SaveImg.write_output path result quality w
  = (Ok tt,
     mkWorld (heap w) (clock w) (fs w)
       (trace w ++
        if SaveImg.writes_file path
        then [EvImwrite path (Mat_snapshot (heap w) result)
                        [IMWRITE_JPEG_QUALITY; quality]]
        else []) (timing w)).
Proof.
  intros He. unfold SaveImg.write_output, imwrite.
  destruct (SaveImg.writes_file path).
  - rewrite He. reflexivity.
  - unfold ret. rewrite app_nil_r. by destruct w.
Qed.

(** [task()] without alpha mask and without a 2-channel result: the
    selected buffer is the result. *)
Lemma save_task_plain (t : Task_SaveImg) (input : shared_ptr ImgTask)
    (w w1 : World) (result : Mat) (valid : Rect.t) :
  m_input t = Some input -> m_alphamask t = None ->
  SaveImg.select_result (save_img t) (pointee input) (m_nocrop t) w
  = (Ok (result, valid), w1) ->
  channels result <> 2 -> Mat_is_empty result = false ->
  SaveImg.task t w
  = (Ok (mkSaveImg (mkImgTask (img_base (save_img t)) result valid)
                   None None (m_nocrop t)),
     mkWorld (heap w1) (clock w1) (fs w1)
       (trace w1 ++
        if SaveImg.writes_file (SaveImg.filename t)
        then [EvImwrite (SaveImg.filename t) (Mat_snapshot (heap w1) result)
                [IMWRITE_JPEG_QUALITY; m_jpgquality (img_base (save_img t))]]
        else []) (timing w1)).
Proof.
  intros Hin Halpha Hsel Hch He.
  unfold SaveImg.task, SaveImg.composite. rewrite Hin, Halpha.
  unfold bind at 1. unfold bind at 1. rewrite Hsel. cbn [fst snd].
  unfold SaveImg.complex_to_rgb.
  rewrite (proj2 (Z.eqb_neq _ _) Hch).
  unfold bind at 1. unfold ret at 1. unfold SaveImg.add_alpha.
  unfold bind at 1. unfold ret at 1. unfold bind at 1. unfold ret at 1.
  cbn [fst snd]. unfold bind.
  by rewrite write_output_nonempty by exact He.
Qed.

(** A save task in no-crop mode, as constructed, without alpha mask and
    for an input that is not 2-channel: [task()] takes the input's buffer
    over as it is, padding included, sharing its pixels, and takes over
    the input's valid area; nothing is allocated, and the whole buffer is
    what goes to the encoder. *)
Theorem save_nocrop_passes_buffer_through (path : string)
    (input : shared_ptr ImgTask) (quality : Z) (w : World) :
  channels (img (pointee input)) <> 2 ->
  Mat_is_empty (img (pointee input)) = false ->
  exists t' w',
    SaveImg.task (SaveImg.new path input None quality true) w = (Ok t', w') /\
    m_result (save_img t') = img (pointee input) /\
    m_valid_area (save_img t') = valid_area (pointee input) /\
    heap w' = heap w /\
    trace w' =
      trace w ++
      (if SaveImg.writes_file path
       then [EvImwrite path (Mat_snapshot (heap w) (img (pointee input)))
                       [IMWRITE_JPEG_QUALITY; quality]]
       else []).
Proof.
  intros Hch He.
  rewrite (save_task_plain (SaveImg.new path input None quality true) input
             w w (img (pointee input)) (valid_area (pointee input)));
    try reflexivity; try assumption.
  eexists _, _. split; [reflexivity|]. repeat split.
Qed.

Lemma save_nocrop_passes_buffer_through_witness :
  exists t' w',
    SaveImg.task (SaveImg.new ":memory:" Samples.padded_input None 95 true)
                 Samples.world10 = (Ok t', w') /\
    m_result (save_img t') = Samples.mat10 /\
    m_valid_area (save_img t') = Rect.mk 1 1 8 8 /\
    heap w' = heap Samples.world10 /\
    trace w' = [].
Proof.
  apply (save_nocrop_passes_buffer_through ":memory:" Samples.padded_input 95
           Samples.world10); [discriminate|reflexivity].
Defined.

(** Crop mode on a save task as constructed: the selection is
    [img_cropped()] of the input, with the full extent of what it returns
    as valid area. *)
Lemma select_result_new_crop (path : string) (input : shared_ptr ImgTask)
    (alphamask : option (shared_ptr ImgTask)) (quality : Z) (w : World) :
  SaveImg.select_result
    (save_img (SaveImg.new path input alphamask quality false))
    (pointee input) false w
  = match img_cropped (pointee input) w with
    | (Ok result, w1) => (Ok (result, Rect_whole result), w1)
    | (Throw e, w1) => (Throw e, w1)
    end.
Proof. reflexivity. Qed.

(** [task()] in crop mode, without alpha mask, on an input that is not
    2-channel and whose valid region has pixels and lies inside its
    buffer. *)
Lemma save_crop_core (path : string) (input : shared_ptr ImgTask)
    (quality : Z) (w : World) :
  let source := pointee input in
  let region := m_valid_area source in
  is_Some (data (img source)) -> channels (img source) <> 2 ->
  Int32.fits (cols (img source)) -> Int32.fits (rows (img source)) ->
  0 <= Rect.x region -> 0 <= Rect.y region ->
  0 < Rect.width region -> 0 < Rect.height region ->
  Rect.x region + Rect.width region <= cols (img source) ->
  Rect.y region + Rect.height region <= rows (img source) ->
  exists cropped w1,
    SaveImg.task (SaveImg.new path input None quality false) w
    = (Ok (mkSaveImg
             (mkImgTask
                (img_base (save_img (SaveImg.new path input None quality false)))
                cropped (Rect_whole cropped))
             None None false),
       mkWorld (heap w1) (clock w) (fs w)
         (trace w ++
          if SaveImg.writes_file path
          then [EvImwrite path (Mat_snapshot (heap w1) cropped)
                          [IMWRITE_JPEG_QUALITY; quality]]
          else []) (timing w1)) /\
    rows cropped = Rect.height region /\ cols cropped = Rect.width region /\
    depth cropped = depth (img source) /\
    channels cropped = channels (img source) /\
    (forall r c, 0 <= r < Rect.height region -> 0 <= c < Rect.width region ->
       Mat_at (heap w1) cropped r c
       = Mat_at (heap w) (img source) (Rect.y region + r) (Rect.x region + c)).
Proof.
  intros source region [p Hp] Hch Hcf Hrf Hx Hy Hw Hh Hxw Hyh.
  pose proof (select_result_new_crop path input None quality w) as Hsel.
  fold source in Hsel.
  rewrite (img_cropped_inside source w) in Hsel by assumption.
  destruct (covers_whole source (img source)) eqn:Hcov.
  - apply covers_whole_true in Hcov. fold region in Hcov.
    exists (img source), w.
    assert (Hfull : Mat_is_empty (img source) = false).
    { unfold Mat_is_empty. rewrite Hp. rewrite Hcov in Hw, Hh.
      cbn in Hw, Hh. solve_leb. reflexivity. }
    rewrite (save_task_plain (SaveImg.new path input None quality false) input
               w w (img source) (Rect_whole (img source)));
      [|reflexivity|reflexivity|exact Hsel|assumption|assumption].
    split; [reflexivity|]. rewrite Hcov.
    cbn [Rect.x Rect.y Rect.width Rect.height].
    repeat (split; [reflexivity|]). intros r c _ _. by rewrite !Z.add_0_l.
  - assert (Hne : m_valid_area source
                  <> Rect.mk 0 0 (cols (img source)) (rows (img source))).
    { intros E. apply covers_whole_true in E. congruence. }
    destruct (extract_original_area_copies source (img source) w)
      as (copy & w1 & He & Hcopy); try assumption; try lia; [eauto|].
    rewrite safeRect_unchanged in Hcopy by assumption.
    rewrite He in Hsel.
    destruct Hcopy as (Hdata & _ & _ & Hr & Hc & Hdp & Hcn & Hpix & _
                       & Hclock & Hfs & Htrace).
    fold region in Hr, Hc, Hpix.
    exists copy, w1.
    assert (Hfull : Mat_is_empty copy = false).
    { unfold Mat_is_empty. rewrite Hdata, Hr, Hc. solve_leb. reflexivity. }
    rewrite (save_task_plain (SaveImg.new path input None quality false) input
               w w1 copy (Rect_whole copy));
      [|reflexivity|reflexivity|exact Hsel|by rewrite Hcn|assumption].
    rewrite Hclock, Hfs, Htrace. auto 10.
Qed.

(** A save task in crop mode, as constructed, without alpha mask, for an
    input that is not 2-channel and whose valid region has pixels and lies
    inside its buffer: after [task()] the result has the size of the
    region and holds its pixels, the task's valid region is the full extent
    of the result, the references to the input are dropped, and with a real
    file name the picture handed to the encoder is exactly the region. *)
Theorem save_crop_writes_valid_region (path : string)
    (input : shared_ptr ImgTask) (quality : Z) (w : World) :
  let source := pointee input in
  let region := m_valid_area source in
  is_Some (data (img source)) -> channels (img source) <> 2 ->
  Int32.fits (cols (img source)) -> Int32.fits (rows (img source)) ->
  0 <= Rect.x region -> 0 <= Rect.y region ->
  0 < Rect.width region -> 0 < Rect.height region ->
  Rect.x region + Rect.width region <= cols (img source) ->
  Rect.y region + Rect.height region <= rows (img source) ->
  let picture :=
    mkImage (Rect.height region) (Rect.width region)
            (depth (img source)) (channels (img source))
            (tabulate2 (Rect.height region) (Rect.width region)
               (fun r c => Mat_at (heap w) (img source)
                             (Rect.y region + r) (Rect.x region + c))) in
  exists t' w',
    SaveImg.task (SaveImg.new path input None quality false) w = (Ok t', w') /\
    Mat_snapshot (heap w') (m_result (save_img t')) = picture /\
    m_valid_area (save_img t') = Rect_whole (m_result (save_img t')) /\
    m_input t' = None /\ m_alphamask t' = None /\
    trace w' =
      trace w ++
      (if SaveImg.writes_file path
       then [EvImwrite path picture [IMWRITE_JPEG_QUALITY; quality]]
       else []).
Proof.
  intros source region Hd Hch Hcf Hrf Hx Hy Hw Hh Hxw Hyh picture.
  destruct (save_crop_core path input quality w)
    as (cropped & w1 & Htask & Hr & Hc & Hdp & Hcn & Hpix); try assumption.
  fold source region in Hr, Hc, Hdp, Hcn, Hpix.
  assert (Hsnap : Mat_snapshot (heap w1) cropped = picture).
  { unfold Mat_snapshot, picture. rewrite Hr, Hc, Hdp, Hcn. f_equal.
    by apply tabulate2_ext. }
  rewrite Htask. eexists _, _. split; [reflexivity|].
  cbn [save_img m_result m_valid_area m_input m_alphamask heap trace].
  rewrite Hsnap. repeat split.
Qed.

Lemma save_crop_writes_valid_region_witness :
  exists t' w',
    SaveImg.task (SaveImg.new "out.jpg" Samples.padded_input None 95 false)
                 Samples.world10 = (Ok t', w') /\
    m_valid_area (save_img t') = Rect_whole (m_result (save_img t')) /\
    trace w' =
      [EvImwrite "out.jpg"
         (mkImage 8 8 CV_8U 1
            (tabulate2 8 8 (fun r c => [10 * (1 + r) + (1 + c)])))
         [IMWRITE_JPEG_QUALITY; 95]].
Proof.
  destruct (save_crop_writes_valid_region "out.jpg" Samples.padded_input 95
              Samples.world10)
    as (t' & w' & H1 & _ & H3 & _ & _ & H6);
    try (cbn; lia); try discriminate;
    try (cbn; unfold Int32.fits, Int32.min_int, Int32.max_int; lia);
    try (cbn; eexists; reflexivity).
  exists t', w'. split; [exact H1|]. split; [exact H3|].
  rewrite H6. reflexivity.
Defined.

(* ===================================================================== *)
(** * Loading, then saving *)
(* ===================================================================== *)

Ltac split_ands := repeat match goal with |- _ /\ _ => split end.

Section Pipeline.

Variable levels_for_size : Size.t -> Z * Size.t.

(** Lines 67-102 on an image that already has the size the wavelet
    transform needs. *)
Lemma task_same_size (fuel : nat) (t : Task_LoadImg) (w w1 : World)
    (result : Mat) (p : nat) :
  LoadImg.acquire fuel t w = (Ok (Some result), w1) ->
  data result = Some p ->
  0 < cols result -> 0 < rows result ->
  Size.eqb (snd (levels_for_size (Mat_size result))) (Mat_size result) = true ->
  exists t' b,
    LoadImg.task levels_for_size fuel t w
    = (Ok (Some t'),
       mkWorld (heap w1 ++ [b]) (clock w1) (fs w1) (trace w1) (timing w1)) /\
    m_result (load_img t') = result /\
    m_valid_area (load_img t') = Rect_whole result.
Proof.
  intros Ha Hp Hc Hr Hsame.
  rewrite (task_acquired levels_for_size fuel t w w1 result p Ha Hp).
  unfold LoadImg.pad_loaded. rewrite Hsame. cbn [negb].
  unfold bind at 1.
  rewrite Mat_clone_nonempty
    by (unfold Mat_is_empty; rewrite Hp; solve_leb; reflexivity).
  unfold ret. eexists _, _. split; [reflexivity|]. split; reflexivity.
Qed.

(** Loading a picture that is not 2-channel and saving it in crop mode,
    without alpha mask, writes the decoded picture: whatever size the
    wavelet transform asks for (at least the original one), the padding
    that [Task_LoadImg] adds is taken off again by [Task_SaveImg], and the
    picture handed to the encoder has the size, the type and every pixel
    of the decoded one. *)
Theorem load_then_save_crop_roundtrip (fuel : nat) (t : Task_LoadImg)
    (w w1 : World) (result : Mat) (p : nat)
    (path : string) (address : nat) (quality : Z) :
  LoadImg.acquire fuel t w = (Ok (Some result), w1) ->
  data result = Some p -> (p < length (heap w1))%nat ->
  0 < cols result -> 0 < rows result -> channels result <> 2 ->
  let expanded := snd (levels_for_size (Mat_size result)) in
  cols result <= Size.width expanded -> rows result <= Size.height expanded ->
  Int32.fits (Size.width expanded) -> Int32.fits (Size.height expanded) ->
  exists t' w' s' w'',
    LoadImg.task levels_for_size fuel t w = (Ok (Some t'), w') /\
    SaveImg.task
      (SaveImg.new path (mk_shared address (load_img t')) None quality false) w'
    = (Ok s', w'') /\
    Mat_snapshot (heap w'') (m_result (save_img s'))
    = Mat_snapshot (heap w1) result /\
    m_valid_area (save_img s') = Rect_whole (m_result (save_img s')) /\
    trace w'' =
      trace w' ++
      (if SaveImg.writes_file path
       then [EvImwrite path (Mat_snapshot (heap w1) result)
                       [IMWRITE_JPEG_QUALITY; quality]]
       else []).
Proof.
  intros Ha Hp Hlt Hc Hr Hch expanded Hwc Hhr Hfw Hfh.
  assert (Hload :
    exists t' w',
      LoadImg.task levels_for_size fuel t w = (Ok (Some t'), w') /\
      is_Some (data (m_result (load_img t'))) /\
      channels (m_result (load_img t')) = channels result /\
      depth (m_result (load_img t')) = depth result /\
      Int32.fits (cols (m_result (load_img t'))) /\
      Int32.fits (rows (m_result (load_img t'))) /\
      0 <= Rect.x (m_valid_area (load_img t')) /\
      0 <= Rect.y (m_valid_area (load_img t')) /\
      Rect.width (m_valid_area (load_img t')) = cols result /\
      Rect.height (m_valid_area (load_img t')) = rows result /\
      Rect.x (m_valid_area (load_img t')) + cols result
        <= cols (m_result (load_img t')) /\
      Rect.y (m_valid_area (load_img t')) + rows result
        <= rows (m_result (load_img t')) /\
      (forall r c, 0 <= r < rows result -> 0 <= c < cols result ->
         Mat_at (heap w') (m_result (load_img t'))
                (Rect.y (m_valid_area (load_img t')) + r)
                (Rect.x (m_valid_area (load_img t')) + c)
         = Mat_at (heap w1) result r c)).
  { destruct (Size.eqb expanded (Mat_size result)) eqn:Hsame.
    - destruct (task_same_size fuel t w w1 result p Ha Hp Hc Hr Hsame)
        as (t' & b & Ht & Hm & Hv).
      exists t', (mkWorld (heap w1 ++ [b]) (clock w1) (fs w1) (trace w1) (timing w1)).
      split; [exact Ht|]. rewrite Hm, Hv. unfold Rect_whole.
      cbn [Rect.x Rect.y Rect.width Rect.height heap].
      unfold Size.eqb in Hsame. apply andb_true_iff in Hsame as [Hsw Hsh].
      apply Z.eqb_eq in Hsw, Hsh. cbn [Mat_size Size.width Size.height] in Hsw, Hsh.
      fold expanded in Hsw, Hsh.
      split_ands; eauto; try lia; try congruence.
      intros r c _ _. rewrite !Z.add_0_l. by apply (Mat_at_old _ _ _ p).
    - destruct (task_expands levels_for_size fuel t w w1 result p
                  Ha Hp Hlt Hc Hr Hwc Hhr Hsame Hfw Hfh)
        as (t' & w' & Ht & Hm & Hv & _ & _ & Hpix).
      fold expanded in Hm, Hv, Hpix.
      pose proof (div2_fits (Size.width expanded - cols result)
                    ltac:(lia) ltac:(solve_fits)) as (_ & _ & Hx3 & Hx4 & Hx5).
      pose proof (div2_fits (Size.height expanded - rows result)
                    ltac:(lia) ltac:(solve_fits)) as (_ & _ & Hy3 & Hy4 & Hy5).
      exists t', w'. split; [exact Ht|].
      rewrite Hv. rewrite Hm at 1 2 3 4 5 6 7.
      cbn [data depth channels rows cols Rect.x Rect.y Rect.width Rect.height].
      split_ands; eauto; try lia.
      intros r c Hr' Hc'. rewrite Hpix by lia.
      rewrite !borderInterpolate_reflect_inside by lia.
      f_equal; lia. }
  destruct Hload as (t' & w' & Ht & Hd & Hcn & Hdp & Hcf & Hrf & Hx & Hy
                     & Hw & Hh & Hxw & Hyh & Hpix).
  destruct (save_crop_core path (mk_shared address (load_img t')) quality w')
    as (cropped & w2 & Hsave & Hcr & Hcc & Hcd & Hcch & Hcpix);
    unfold img; cbn [pointee]; try assumption; try lia; try congruence.
  unfold img in *. cbn [pointee] in *.
  assert (Hsnap : Mat_snapshot (heap w2) cropped = Mat_snapshot (heap w1) result).
  { unfold Mat_snapshot. rewrite Hcr, Hcc, Hcd, Hcch, Hw, Hh, Hcn, Hdp.
    f_equal. apply tabulate2_ext. intros r c Hr' Hc'.
    rewrite Hcpix by lia. by apply Hpix. }
  exists t', w'. eexists _, _. split; [exact Ht|]. split; [exact Hsave|].
  cbn [save_img m_result m_valid_area heap trace].
  rewrite Hsnap. repeat split.
Qed.

End Pipeline.

Lemma load_then_save_crop_roundtrip_witness :
  exists t' w' s' w'',
    LoadImg.task Samples.levels_for_size 0 Samples.load10
                 Samples.world10_copied = (Ok (Some t'), w') /\
    SaveImg.task
      (SaveImg.new "out.jpg" (mk_shared 7%nat (load_img t')) None 95 false) w'
    = (Ok s', w'') /\
    trace w'' = [EvImwrite "out.jpg" (Samples.gradient 10 10)
                           [IMWRITE_JPEG_QUALITY; 95]].
Proof.
  destruct (load_then_save_crop_roundtrip Samples.levels_for_size 0
              Samples.load10 Samples.world10_copied Samples.world10_copied
              (m_result (load_img Samples.load10)) 1%nat "out.jpg" 7%nat 95)
    as (t' & w' & s' & w'' & H1 & H2 & _ & _ & H5);
    try reflexivity; try (cbn; lia); try discriminate;
    try (cbn; change (Z.div (10 + 3) 4 * 4) with 12;
         unfold Int32.fits, Int32.min_int, Int32.max_int; lia).
  exists t', w', s', w''. split; [exact H1|]. split; [exact H2|].
  rewrite H5.
  assert (Htr : trace w' = []).
  { change w' with (Ok (Some t'), w').2. rewrite <- H1. reflexivity. }
  rewrite Htr. reflexivity.
Defined.

(* ===================================================================== *)
(** * Channel normalisation and alpha compositing *)
(* ===================================================================== *)

Lemma heap_extends_refl (w : World) : heap_extends w w.
Proof. split; [exists []; by rewrite app_nil_r|auto]. Qed.

Lemma heap_extends_trans (w1 w2 w3 : World) :
  heap_extends w1 w2 -> heap_extends w2 w3 -> heap_extends w1 w3.
Proof.
  intros [[l1 H1] (Hc1 & Hf1 & Ht1)] [[l2 H2] (Hc2 & Hf2 & Ht2)].
  split; [exists (l1 ++ l2); by rewrite H2, H1, app_assoc|].
  rewrite Hc2, Hf2, Ht2. auto.
Qed.

Lemma allocated_extends (w w' : World) (m : Mat) :
  heap_extends w w' -> allocated w m -> allocated w' m.
Proof.
  intros [[l Hl] _] (p & Hp & Hlt). exists p. split; [exact Hp|].
  rewrite Hl, length_app. lia.
Qed.

Lemma Mat_at_extends (w w' : World) (m : Mat) (r c : Z) :
  heap_extends w w' -> allocated w m ->
  Mat_at (heap w') m r c = Mat_at (heap w) m r c.
Proof.
  intros [[l Hl] _] (p & Hp & Hlt). rewrite Hl.
  by apply (Mat_at_old_app _ _ _ p).
Qed.

Lemma allocated_nonempty (w : World) (m : Mat) :
  allocated w m -> 0 < rows m -> 0 < cols m -> Mat_is_empty m = false.
Proof.
  intros (p & Hp & _) Hr Hc. unfold Mat_is_empty. rewrite Hp.
  solve_leb. reflexivity.
Qed.

(** A world with one more buffer. *)
Lemma heap_extends_alloc (w : World) (b : Buffer) :
  heap_extends w (mkWorld (heap w ++ [b]) (clock w) (fs w) (trace w) (timing w)).
Proof. split; [by exists [b]|auto]. Qed.

Lemma allocated_new (w : World) (b : Buffer) (m : Mat) :
  data m = Some (length (heap w)) ->
  allocated (mkWorld (heap w ++ [b]) (clock w) (fs w) (trace w) (timing w)) m.
Proof.
  intros Hd. exists (length (heap w)). split; [exact Hd|].
  cbn [heap]. rewrite length_app. cbn. lia.
Qed.

(** One plane of [cv::split]. *)
Lemma extract_channel_spec (m : Mat) (i : Z) (w : World) :
  allocated w m -> 0 < rows m -> 0 < cols m ->
  exists plane w',
    extract_channel m i w = (Ok plane, w') /\
    heap_extends w w' /\ allocated w' plane /\
    rows plane = rows m /\ cols plane = cols m /\
    depth plane = depth m /\ channels plane = 1 /\
    (forall r c, 0 <= r < rows m -> 0 <= c < cols m ->
       Mat_at (heap w') plane r c = channel_at i (Mat_at (heap w) m r c)).
Proof.
  intros Ha Hr Hc. unfold extract_channel.
  rewrite (allocated_nonempty w m Ha Hr Hc).
  unfold bind, get_heap, alloc, ret. cbn [heap clock fs trace timing].
  eexists _, _. split; [reflexivity|].
  split; [apply heap_extends_alloc|]. split; [by apply allocated_new|].
  split_ands; try reflexivity.
  intros r c Hr' Hc'. cbn [heap]. rewrite Mat_at_new by reflexivity.
  cbn [roi_y roi_x]. by rewrite Buffer_at_tabulate2 by lia.
Qed.

Lemma convertTo_8U_spec (m : Mat) (w : World) :
  allocated w m -> 0 < rows m -> 0 < cols m ->
  exists m8 w',
    convertTo_8U m w = (Ok m8, w') /\
    heap_extends w w' /\ allocated w' m8 /\
    rows m8 = rows m /\ cols m8 = cols m /\
    depth m8 = CV_8U /\ channels m8 = channels m /\
    (forall r c, 0 <= r < rows m -> 0 <= c < cols m ->
       Mat_at (heap w') m8 r c = to_8U (depth m) <$> Mat_at (heap w) m r c).
Proof.
  intros Ha Hr Hc. unfold convertTo_8U, to_8U.
  rewrite (allocated_nonempty w m Ha Hr Hc).
  destruct (depth m =? CV_8U) eqn:Hd.
  - apply Z.eqb_eq in Hd. exists m, w. split; [reflexivity|].
    split; [apply heap_extends_refl|]. split; [exact Ha|].
    split_ands; try reflexivity; try assumption.
    intros r c _ _. by rewrite list_fmap_id.
  - unfold bind, get_heap, alloc, ret. cbn [heap clock fs trace timing].
    eexists _, _. split; [reflexivity|].
    split; [apply heap_extends_alloc|]. split; [by apply allocated_new|].
    split_ands; try reflexivity.
    intros r c Hr' Hc'. cbn [heap]. rewrite Mat_at_new by reflexivity.
    cbn [roi_y roi_x]. by rewrite Buffer_at_tabulate2 by lia.
Qed.

Lemma insert_last {A : Type} (l : list A) (x y : A) :
  <[length l := y]> (l ++ [x]) = l ++ [y].
Proof.
  rewrite insert_app_r_alt by lia. by rewrite Nat.sub_diag.
Qed.

(** [create] into a destination that cannot be reused, then [fill]. *)
Lemma create_fill_fresh (dst : Mat) (nrows ncols dp cn : Z)
    (f : Z -> Z -> Pixel) (w : World) :
  0 < nrows -> 0 < ncols ->
  data dst = None \/ rows dst <> nrows \/ cols dst <> ncols
  \/ depth dst <> dp \/ channels dst <> cn ->
  exists d w',
    (let* d := Mat_create dst nrows ncols dp cn in
     let* _ := Mat_fill d f in ret d) w = (Ok d, w') /\
    heap_extends w w' /\ allocated w' d /\
    d = mkMat (Some (length (heap w))) nrows ncols 0 0 dp cn /\
    (forall r c, 0 <= r < nrows -> 0 <= c < ncols ->
       Mat_at (heap w') d r c = f r c).
Proof.
  intros Hr Hc Hno.
  assert (Hreuse : bool_decide (is_Some (data dst)) && (rows dst =? nrows) &&
                   (cols dst =? ncols) && (depth dst =? dp) &&
                   (channels dst =? cn) = false).
  { destruct Hno as [H|[H|[H|[H|H]]]].
    - rewrite H. rewrite bool_decide_eq_false_2; [reflexivity|].
      intros [? ?]; discriminate.
    - rewrite (proj2 (Z.eqb_neq _ _) H). by rewrite andb_false_r.
    - rewrite (proj2 (Z.eqb_neq _ _) H). by rewrite !andb_false_r.
    - rewrite (proj2 (Z.eqb_neq (depth dst) _) H). by rewrite !andb_false_r.
    - rewrite (proj2 (Z.eqb_neq (channels dst) _) H). by rewrite !andb_false_r. }
  unfold Mat_create. solve_leb. cbn [orb]. rewrite Hreuse.
  unfold bind at 1. unfold bind at 1. unfold alloc at 1. unfold ret at 1.
  unfold bind at 1. unfold Mat_fill. cbn [data rows cols roi_y roi_x].
  unfold bind at 1. unfold get_heap at 1. cbn [heap].
  rewrite list_lookup_middle by reflexivity.
  unfold store, ret. cbn [heap clock fs trace timing]. rewrite insert_last.
  eexists _, _. split; [reflexivity|].
  split; [apply heap_extends_alloc|]. split; [by apply allocated_new|].
  split; [reflexivity|].
  intros r c Hr' Hc'. cbn [heap]. rewrite Mat_at_new by reflexivity.
  cbn [roi_y roi_x]. by rewrite Buffer_at_write_full by lia.
Qed.

(** [cv::merge] of planes that agree in size and depth into a destination
    with another number of channels. *)
Lemma merge_spec (m0 : Mat) (rest : list Mat) (dst : Mat) (w : World) :
  0 < rows m0 -> 0 < cols m0 ->
  Forall (fun m => Mat_size m = Mat_size m0 /\ depth m = depth m0) (m0 :: rest) ->
  channels dst <> foldr Z.add 0 (channels <$> m0 :: rest) ->
  exists d w',
    merge (m0 :: rest) dst w = (Ok d, w') /\
    heap_extends w w' /\ allocated w' d /\
    d = mkMat (Some (length (heap w))) (rows m0) (cols m0) 0 0 (depth m0)
              (foldr Z.add 0 (channels <$> m0 :: rest)) /\
    (forall r c, 0 <= r < rows m0 -> 0 <= c < cols m0 ->
       Mat_at (heap w') d r c
       = concat ((fun m => Mat_at (heap w) m r c) <$> m0 :: rest)).
Proof.
  intros Hr Hc Hall Hcn. unfold merge.
  assert (Hok : forallb (fun m => Size.eqb (Mat_size m) (Mat_size m0) &&
                                  (depth m =? depth m0)) (m0 :: rest) = true).
  { apply forallb_forall. intros m Hm. apply list_elem_of_In in Hm.
    rewrite Forall_forall in Hall. destruct (Hall m Hm) as [-> ->].
    by rewrite Size_eqb_refl, Z.eqb_refl. }
  rewrite Hok. unfold bind at 1. unfold get_heap at 1.
  destruct (create_fill_fresh dst (rows m0) (cols m0) (depth m0)
              (foldr Z.add 0 (channels <$> m0 :: rest))
              (fun r c => concat ((fun m => Mat_at (heap w) m r c) <$> m0 :: rest))
              w Hr Hc) as (d & w' & Hrun & Hrest); [auto 10|].
  exists d, w'. split; [exact Hrun|exact Hrest].
Qed.

Lemma mapM_two {A B : Type} (f : A -> M B) (a b : A) (w : World) :
  mapM f [a; b] w
  = match f a w with
    | (Ok x, w1) =>
        match f b w1 with
        | (Ok y, w2) => (Ok [x; y], w2)
        | (Throw e, w2) => (Throw e, w2)
        end
    | (Throw e, w1) => (Throw e, w1)
    end.
Proof.
  cbn [mapM]. unfold bind, ret.
  destruct (f a w) as [[x|e] w1]; [|reflexivity].
  by destruct (f b w1) as [[y|e] w2].
Qed.

Lemma Mat_size_eq (m m' : Mat) :
  rows m = rows m' -> cols m = cols m' -> Mat_size m = Mat_size m'.
Proof. unfold Mat_size. by intros -> ->. Qed.

(** Lines 74-84 on a 2-channel matrix with pixels. *)
Lemma complex_to_rgb_spec (result : Mat) (w : World) :
  allocated w result -> 0 < rows result -> 0 < cols result ->
  channels result = 2 ->
  exists rgb w',
    SaveImg.complex_to_rgb result w = (Ok rgb, w') /\
    heap_extends w w' /\ allocated w' rgb /\
    rows rgb = rows result /\ cols rgb = cols result /\
    depth rgb = CV_8U /\ channels rgb = 3 /\
    (forall r c, 0 <= r < rows result -> 0 <= c < cols result ->
       Mat_at (heap w') rgb r c
       = (to_8U (depth result) <$> channel_at 0 (Mat_at (heap w) result r c))
         ++ (to_8U (depth result) <$> channel_at 1 (Mat_at (heap w) result r c))
         ++ [0]).
Proof.
  intros Ha Hr Hc Hch. unfold SaveImg.complex_to_rgb, split.
  rewrite Hch. change (seqZ 0 2) with [0; 1]. cbn [Z.eqb Pos.eqb].
  (* the two planes *)
  destruct (extract_channel_spec result 0 w Ha Hr Hc)
    as (c0 & w1 & Hrun0 & He0 & Ha0 & Hr0 & Hc0 & Hd0 & Hn0 & Hp0).
  destruct (extract_channel_spec result 1 w1 (allocated_extends _ _ _ He0 Ha) Hr Hc)
    as (c1 & w2 & Hrun1 & He1 & Ha1 & Hr1 & Hc1 & Hd1 & Hn1 & Hp1).
  unfold bind at 1. rewrite mapM_two, Hrun0, Hrun1.
  (* their conversion to 8 bits *)
  destruct (convertTo_8U_spec c0 w2 (allocated_extends _ _ _ He1 Ha0)
              ltac:(lia) ltac:(lia))
    as (p0 & w3 & Hrun2 & He2 & Ha2 & Hr2 & Hc2 & Hd2 & Hn2 & Hp2).
  destruct (convertTo_8U_spec c1 w3 (allocated_extends _ _ _ He2 Ha1)
              ltac:(lia) ltac:(lia))
    as (p1 & w4 & Hrun3 & He3 & Ha3 & Hr3 & Hc3 & Hd3 & Hn3 & Hp3).
  unfold bind at 1. rewrite mapM_two, Hrun2, Hrun3.
  (* the blank third plane *)
  destruct (create_fill_fresh Mat_empty (rows result) (cols result) CV_8U 1
              (fun _ _ => [0]) w4 Hr Hc ltac:(by left))
    as (blank & w5 & Hrun4 & He4 & Ha4 & Hblank & Hp4).
  assert (Hrun4' :
    forall (B : Type) (k : Mat -> M B),
      (let* blank := Mat_new (rows result) (cols result) CV_8U 1 in
       let* _ := Mat_fill blank (fun _ _ => [0]) in k blank) w4 = k blank w5).
  { intros B k. unfold Mat_new. unfold bind in Hrun4 |- *.
    destruct (Mat_create Mat_empty _ _ _ _ w4) as [[d|e] wd]; [|discriminate].
    destruct (Mat_fill d _ wd) as [[[]|e] wf]; [|discriminate].
    unfold ret in Hrun4. by injection Hrun4 as -> ->. }
  rewrite Hrun4'.
  (* the merge *)
  destruct (merge_spec p0 [p1; blank] result w5) as
    (rgb & w6 & Hrun5 & He5 & Ha5 & Hrgb & Hp5).
  { lia. } { lia. }
  { repeat constructor; try (apply Mat_size_eq); rewrite ?Hblank;
      cbn [rows cols depth]; congruence. }
  { cbn. rewrite Hn2, Hn3, Hn0, Hn1, Hblank, Hch. cbn. lia. }
  cbn [app]. rewrite Hrun5.
  exists rgb, w6. split; [reflexivity|].
  assert (He04 : heap_extends w w4).
  { eauto using heap_extends_trans. }
  split; [eauto using heap_extends_trans|]. split; [exact Ha5|].
  assert (Hshape : rows rgb = rows result /\ cols rgb = cols result /\
                   depth rgb = CV_8U /\ channels rgb = 3).
  { rewrite Hrgb. cbn [rows cols depth channels fmap list_fmap foldr].
    rewrite Hn2, Hn3, Hn0, Hn1, Hblank. cbn [channels].
    split_ands; try lia; try congruence. }
  destruct Hshape as (Hs1 & Hs2 & Hs3 & Hs4).
  split_ands; try assumption.
  intros r c Hr' Hc'. rewrite Hp5 by lia.
  cbn [fmap list_fmap concat]. rewrite app_nil_r.
  rewrite (Mat_at_extends w3 w5 p0), (Mat_at_extends w4 w5 p1), Hp4
    by (eauto using heap_extends_trans; lia).
  rewrite Hp2, Hp3 by lia.
  rewrite (Mat_at_extends w1 w2 c0), (Mat_at_extends w2 w3 c1)
    by assumption.
  rewrite Hp0, Hp1 by lia.
  rewrite (Mat_at_extends w w1 result) by assumption.
  by rewrite Hd0, Hd1.
Qed.

(** For an input whose valid region is unset, a save task as constructed
    selects the input's buffer itself, in either mode. *)
Lemma select_result_unset (path : string) (input : shared_ptr ImgTask)
    (alphamask : option (shared_ptr ImgTask)) (quality : Z) (nocrop : bool)
    (w : World) :
  has_valid_area (pointee input) = false ->
  SaveImg.select_result
    (save_img (SaveImg.new path input alphamask quality nocrop))
    (pointee input) nocrop w
  = (Ok (img (pointee input), Rect_whole (img (pointee input))), w).
Proof.
  intros Hno. destruct nocrop.
  - rewrite select_result_new_nocrop. unfold valid_area. by rewrite Hno.
  - rewrite select_result_new_crop. unfold img_cropped. by rewrite Hno.
Qed.

(** [task()] without alpha mask, given what the first two steps do. *)
Lemma save_task_no_alpha (t : Task_SaveImg) (input : shared_ptr ImgTask)
    (w w1 w2 : World) (result rgb : Mat) (valid : Rect.t) :
  m_input t = Some input -> m_alphamask t = None ->
  SaveImg.select_result (save_img t) (pointee input) (m_nocrop t) w
  = (Ok (result, valid), w1) ->
  SaveImg.complex_to_rgb result w1 = (Ok rgb, w2) ->
  Mat_is_empty rgb = false ->
  SaveImg.task t w
  = (Ok (mkSaveImg (mkImgTask (img_base (save_img t)) rgb valid)
                   None None (m_nocrop t)),
     mkWorld (heap w2) (clock w2) (fs w2)
       (trace w2 ++
        if SaveImg.writes_file (SaveImg.filename t)
        then [EvImwrite (SaveImg.filename t) (Mat_snapshot (heap w2) rgb)
                [IMWRITE_JPEG_QUALITY; m_jpgquality (img_base (save_img t))]]
        else []) (timing w2)).
Proof.
  intros Hin Halpha Hsel Hrgb He.
  unfold SaveImg.task, SaveImg.composite. rewrite Hin, Halpha.
  unfold bind at 1. unfold bind at 1. rewrite Hsel. cbn [fst snd].
  unfold bind at 1. rewrite Hrgb.
  unfold SaveImg.add_alpha.
  unfold bind at 1. unfold ret at 1. unfold ret at 1.
  cbn [fst snd]. unfold bind.
  by rewrite write_output_nonempty by exact He.
Qed.

(** A 2-channel input of an integer element type with no valid region
    set, saved without alpha mask, becomes a 3-channel 8-bit picture of the
    same size: the two channels saturated to 8 bits, then a third channel
    of zeros.  The conversion works on copies, so the input's pixels are
    left as they were. *)
Theorem save_converts_complex_to_rgb (path : string)
    (input : shared_ptr ImgTask) (quality : Z) (nocrop : bool) (w : World) :
  let main := img (pointee input) in
  has_valid_area (pointee input) = false ->
  allocated w main -> 0 < rows main -> 0 < cols main -> channels main = 2 ->
  CV_8U <= depth main <= CV_32S ->
  exists t' w',
    SaveImg.task (SaveImg.new path input None quality nocrop) w = (Ok t', w') /\
    Mat_size (m_result (save_img t')) = Mat_size main /\
    channels (m_result (save_img t')) = 3 /\
    depth (m_result (save_img t')) = CV_8U /\
    m_valid_area (save_img t') = Rect_whole (m_result (save_img t')) /\
    (forall r c a b, 0 <= r < rows main -> 0 <= c < cols main ->
       Mat_at (heap w) main r c = [a; b] ->
       Mat_at (heap w') (m_result (save_img t')) r c
       = [to_8U (depth main) a; to_8U (depth main) b; 0]) /\
    (forall r c, Mat_at (heap w') main r c = Mat_at (heap w) main r c) /\
    trace w' =
      trace w ++
      (if SaveImg.writes_file path
       then [EvImwrite path
               (Mat_snapshot (heap w') (m_result (save_img t')))
               [IMWRITE_JPEG_QUALITY; quality]]
       else []).
Proof.
  intros main Hno Ha Hr Hc Hch _.
  destruct (complex_to_rgb_spec main w Ha Hr Hc Hch)
    as (rgb & w2 & Hrun & He & Ha2 & Hr2 & Hc2 & Hd2 & Hn2 & Hpix).
  rewrite (save_task_no_alpha (SaveImg.new path input None quality nocrop) input
             w w w2 main rgb (Rect_whole main));
    [|reflexivity|reflexivity|by apply select_result_unset|exact Hrun
     |apply (allocated_nonempty w2); [exact Ha2|lia|lia]].
  destruct He as (Hext & Hclock & Hfs & Htrace).
  eexists _, _. split; [reflexivity|].
  cbn [save_img m_result m_valid_area heap trace].
  split; [by apply Mat_size_eq|]. split; [exact Hn2|]. split; [exact Hd2|].
  split; [unfold Rect_whole; by rewrite Hr2, Hc2|].
  split; [|split].
  - intros r c a b Hr' Hc' Hab. rewrite Hpix by assumption.
    rewrite Hab. reflexivity.
  - intros r c. apply Mat_at_extends; [|exact Ha].
    split; [exact Hext|auto].
  - by rewrite Htrace.
Qed.

Lemma save_converts_complex_to_rgb_witness :
  exists t' w',
    SaveImg.task (SaveImg.new ":memory:" Samples.complex_input None 95 false)
                 Samples.world_complex = (Ok t', w') /\
    channels (m_result (save_img t')) = 3 /\
    depth (m_result (save_img t')) = CV_8U /\
    Mat_at (heap w') (m_result (save_img t')) 0 0 = [0; 255; 0] /\
    Mat_at (heap w') (m_result (save_img t')) 1 1 = [255; 42; 0].
Proof.
  destruct (save_converts_complex_to_rgb ":memory:" Samples.complex_input 95
              false Samples.world_complex)
    as (t' & w' & H1 & _ & H3 & H4 & _ & H6 & _);
    try reflexivity; try (cbn; lia).
  { exists 0%nat. split; [reflexivity|cbn; lia]. }
  { unfold CV_8U, CV_32S. cbn. lia. }
  exists t', w'. split; [exact H1|]. split; [exact H3|]. split; [exact H4|].
  split.
  - apply (H6 0 0 (-5) 300); [cbn; lia|cbn; lia|reflexivity].
  - apply (H6 1 1 1000 42); [cbn; lia|cbn; lia|reflexivity].
Defined.

(** [cv::split]-style extraction of the planes listed in [l]. *)
Lemma extract_channels_spec (m : Mat) (l : list Z) :
  forall w : World,
    allocated w m -> 0 < rows m -> 0 < cols m ->
    exists planes w',
      mapM (extract_channel m) l w = (Ok planes, w') /\
      heap_extends w w' /\ length planes = length l /\
      (forall (k : nat) (plane : Mat), planes !! k = Some plane ->
         allocated w' plane /\
         rows plane = rows m /\ cols plane = cols m /\
         depth plane = depth m /\ channels plane = 1 /\
         exists i, l !! k = Some i /\
           forall r c, 0 <= r < rows m -> 0 <= c < cols m ->
             Mat_at (heap w') plane r c = channel_at i (Mat_at (heap w) m r c)).
Proof.
  induction l as [|i l IH]; intros w Ha Hr Hc.
  - exists [], w. split; [reflexivity|]. split; [apply heap_extends_refl|].
    split; [reflexivity|]. intros k plane Hk. by rewrite lookup_nil in Hk.
  - destruct (extract_channel_spec m i w Ha Hr Hc)
      as (c0 & w1 & Hrun0 & He0 & Ha0 & Hr0 & Hc0 & Hd0 & Hn0 & Hp0).
    destruct (IH w1 (allocated_extends _ _ _ He0 Ha) Hr Hc)
      as (planes & w2 & Hrun & He & Hlen & Hplanes).
    exists (c0 :: planes), w2.
    cbn [mapM]. unfold bind at 1. rewrite Hrun0.
    unfold bind at 1. rewrite Hrun. unfold ret.
    split; [reflexivity|]. split; [eauto using heap_extends_trans|].
    split; [cbn; by rewrite Hlen|].
    intros [|k] plane Hk; cbn in Hk.
    + injection Hk as <-.
      split; [by apply (allocated_extends w1)|].
      split_ands; try assumption.
      exists i. split; [reflexivity|]. intros r c Hr' Hc'.
      rewrite (Mat_at_extends w1 w2) by assumption. by apply Hp0.
    + destruct (Hplanes k plane Hk)
        as (Hap & Hrp & Hcp & Hdp & Hnp & j & Hj & Hpix).
      split_ands; try assumption.
      exists j. split; [exact Hj|]. intros r c Hr' Hc'.
      rewrite Hpix by assumption.
      by rewrite (Mat_at_extends w w1) by assumption.
Qed.

(** The plane that lines 100-113 take from an alpha mask whose valid
    region is unset: the mask's buffer itself, in either mode. *)
Lemma alpha_plane_unset (alpha : shared_ptr ImgTask) (nocrop : bool) (w : World) :
  has_valid_area (pointee alpha) = false ->
  (if nocrop
   then
     let maskImg := img (pointee alpha) in
     if has_valid_area (pointee alpha)
     then extract_original_area (pointee alpha) maskImg
     else ret maskImg
   else img_cropped (pointee alpha)) w
  = (Ok (img (pointee alpha)), w).
Proof.
  intros Hno. destruct nocrop; cbv zeta.
  - by rewrite Hno.
  - unfold img_cropped. by rewrite Hno.
Qed.

(** [task()], given what its three composing steps do. *)
Lemma save_task_steps (t : Task_SaveImg) (input : shared_ptr ImgTask)
    (w w1 w2 w3 : World) (result rgb out : Mat) (valid : Rect.t) :
  m_input t = Some input ->
  SaveImg.select_result (save_img t) (pointee input) (m_nocrop t) w
  = (Ok (result, valid), w1) ->
  SaveImg.complex_to_rgb result w1 = (Ok rgb, w2) ->
  SaveImg.add_alpha rgb (m_alphamask t) (m_nocrop t) w2 = (Ok out, w3) ->
  Mat_is_empty out = false ->
  SaveImg.task t w
  = (Ok (mkSaveImg (mkImgTask (img_base (save_img t)) out valid)
                   None None (m_nocrop t)),
     mkWorld (heap w3) (clock w3) (fs w3)
       (trace w3 ++
        if SaveImg.writes_file (SaveImg.filename t)
        then [EvImwrite (SaveImg.filename t) (Mat_snapshot (heap w3) out)
                [IMWRITE_JPEG_QUALITY; m_jpgquality (img_base (save_img t))]]
        else []) (timing w3)).
Proof.
  intros Hin Hsel Hrgb Halpha He.
  unfold SaveImg.task, SaveImg.composite. rewrite Hin.
  unfold bind at 1. unfold bind at 1. rewrite Hsel. cbn [fst snd].
  unfold bind at 1. rewrite Hrgb.
  unfold bind at 1. rewrite Halpha. unfold ret at 1.
  cbn [fst snd]. unfold bind.
  by rewrite write_output_nonempty by exact He.
Qed.

Lemma complex_to_rgb_other (result : Mat) (w : World) :
  channels result <> 2 -> SaveImg.complex_to_rgb result w = (Ok result, w).
Proof.
  intros Hch. unfold SaveImg.complex_to_rgb.
  by rewrite (proj2 (Z.eqb_neq _ _) Hch).
Qed.

Lemma merge_mismatch (m0 : Mat) (rest : list Mat) (odd dst : Mat) (w : World) :
  odd ∈ m0 :: rest ->
  Mat_size odd <> Mat_size m0 \/ depth odd <> depth m0 ->
  merge (m0 :: rest) dst w = (Throw "merge: size or depth mismatch", w).
Proof.
  intros Hin Hodd. unfold merge.
  assert (Hbad : forallb (fun m => Size.eqb (Mat_size m) (Mat_size m0) &&
                                   (depth m =? depth m0)) (m0 :: rest) = false).
  { apply not_true_is_false. intros Hall.
    rewrite forallb_forall in Hall.
    specialize (Hall odd (proj1 (list_elem_of_In _ _) Hin)).
    apply andb_true_iff in Hall as [Hs Hd].
    apply Z.eqb_eq in Hd. unfold Size.eqb in Hs.
    apply andb_true_iff in Hs as [Hs1 Hs2]. apply Z.eqb_eq in Hs1, Hs2.
    destruct Hodd as [Hne|Hne]; [|contradiction].
    apply Hne. destruct (Mat_size odd), (Mat_size m0). cbn in *. congruence. }
  by rewrite Hbad.
Qed.

Lemma bind_ret {A B : Type} (a : A) (k : A -> M B) (w : World) :
  bind (ret a) k w = k a w.
Proof. reflexivity. Qed.

Lemma bind_ok {A B : Type} (c : M A) (k : A -> M B) (w w' : World) (a : A) :
  c w = (Ok a, w') -> bind c k w = k a w'.
Proof. intros Hc. unfold bind. by rewrite Hc. Qed.

(** Lines 87-116 on a 1-channel or 3-channel result and an alpha mask whose
    valid region is unset. *)
Lemma add_alpha_spec (rgb : Mat) (alpha : shared_ptr ImgTask) (nocrop : bool)
    (w : World) :
  let mask := img (pointee alpha) in
  has_valid_area (pointee alpha) = false ->
  allocated w rgb -> allocated w mask ->
  0 < rows rgb -> 0 < cols rgb ->
  channels rgb = 1 \/ channels rgb = 3 ->
  0 < channels mask ->
  (Mat_size mask = Mat_size rgb /\ depth mask = depth rgb ->
   exists out w',
     SaveImg.add_alpha rgb (Some alpha) nocrop w = (Ok out, w') /\
     heap_extends w w' /\ allocated w' out /\
     rows out = rows rgb /\ cols out = cols rgb /\ depth out = depth rgb /\
     channels out = 3 + channels mask /\
     (forall r c, 0 <= r < rows rgb -> 0 <= c < cols rgb ->
        Mat_at (heap w') out r c
        = (if channels rgb =? 1
           then Mat_at (heap w) rgb r c ++ Mat_at (heap w) rgb r c
                ++ Mat_at (heap w) rgb r c
           else channel_at 0 (Mat_at (heap w) rgb r c)
                ++ channel_at 1 (Mat_at (heap w) rgb r c)
                ++ channel_at 2 (Mat_at (heap w) rgb r c))
          ++ Mat_at (heap w) mask r c)) /\
  (Mat_size mask <> Mat_size rgb \/ depth mask <> depth rgb ->
   exists w',
     SaveImg.add_alpha rgb (Some alpha) nocrop w
     = (Throw "merge: size or depth mismatch", w') /\
     heap_extends w w').
Proof.
  intros mask Hno Ha Hm Hr Hc Hch Hmc.
  unfold SaveImg.add_alpha.
  destruct Hch as [Hch|Hch]; rewrite Hch; cbn [Z.eqb Pos.eqb Z.ltb Z.compare
                                              Pos.compare Pos.compare_cont].
  - (* one channel, replicated *)
    rewrite bind_ret.
    rewrite (bind_ok _ _ w w mask (alpha_plane_unset alpha nocrop w Hno)).
    cbn [app replicate take]. change (<[3%nat:=mask]> [rgb; rgb; rgb; Mat_empty])
      with [rgb; rgb; rgb; mask].
    split.
    + intros [Hsize Hdepth].
      destruct (merge_spec rgb [rgb; rgb; mask] rgb w Hr Hc)
        as (out & w' & Hrun & He & Hao & Hout & Hpix).
      { repeat constructor; assumption. }
      { cbn. rewrite Hch. lia. }
      exists out, w'. split; [exact Hrun|]. split; [exact He|].
      split; [exact Hao|]. rewrite Hout at 1 2 3 4.
      cbn [rows cols depth channels fmap list_fmap foldr]. rewrite Hch.
      split_ands; try reflexivity; try lia.
      intros r c Hr' Hc'. rewrite Hpix by assumption.
      cbn [fmap list_fmap concat]. by rewrite app_nil_r, <- !app_assoc.
    + intros Hodd. exists w. split; [|apply heap_extends_refl].
      apply (merge_mismatch rgb [rgb; rgb; mask] mask);
        [rewrite !elem_of_cons; auto|exact Hodd].
  - (* three channels, split *)
    unfold split. rewrite Hch. change (seqZ 0 3) with [0; 1; 2].
    destruct (extract_channels_spec rgb [0; 1; 2] w Ha Hr Hc)
      as (planes & w1 & Hrun & He & Hlen & Hplanes).
    destruct planes as [|c0 [|c1 [|c2 [|]]]]; try discriminate.
    destruct (Hplanes 0%nat c0 eq_refl)
      as (Ha0 & Hr0 & Hc0 & Hd0 & Hn0 & i0 & Hi0 & Hp0).
    destruct (Hplanes 1%nat c1 eq_refl)
      as (Ha1 & Hr1 & Hc1 & Hd1 & Hn1 & i1 & Hi1 & Hp1).
    destruct (Hplanes 2%nat c2 eq_refl)
      as (Ha2 & Hr2 & Hc2 & Hd2 & Hn2 & i2 & Hi2 & Hp2).
    injection Hi0 as <-. injection Hi1 as <-. injection Hi2 as <-.
    rewrite (bind_ok _ _ w w1 [c0; c1; c2] Hrun).
    rewrite (bind_ok _ _ w1 w1 mask (alpha_plane_unset alpha nocrop w1 Hno)).
    cbn [app replicate take].
    change (<[3%nat:=mask]> [c0; c1; c2; Mat_empty]) with [c0; c1; c2; mask].
    split.
    + intros [Hsize Hdepth].
      injection Hsize as Hsc Hsr.
      destruct (merge_spec c0 [c1; c2; mask] rgb w1)
        as (out & w' & Hrun' & He' & Hao & Hout & Hpix).
      { lia. } { lia. }
      { repeat constructor; try apply Mat_size_eq; congruence. }
      { cbn. rewrite Hn0, Hn1, Hn2, Hch. lia. }
      exists out, w'. split; [exact Hrun'|].
      split; [eauto using heap_extends_trans|].
      split; [exact Hao|]. rewrite Hout at 1 2 3 4.
      cbn [rows cols depth channels fmap list_fmap foldr].
      rewrite Hn0, Hn1, Hn2.
      split_ands; try lia; try congruence.
      intros r c Hr' Hc'. rewrite Hpix by lia.
      cbn [fmap list_fmap concat]. rewrite app_nil_r.
      rewrite Hp0, Hp1, Hp2 by assumption.
      rewrite (Mat_at_extends w w1 mask) by assumption.
      by rewrite <- !app_assoc.
    + intros Hodd. exists w1. split; [|exact He].
      apply (merge_mismatch c0 [c1; c2; mask] mask); [rewrite !elem_of_cons; auto|].
      destruct Hodd as [Hodd|Hodd]; [left|right; congruence].
      intros E. apply Hodd. rewrite E. by apply Mat_size_eq.
Qed.

Lemma bind_throw {A B : Type} (c : M A) (k : A -> M B) (w w' : World)
    (e : string) :
  c w = (Throw e, w') -> bind c k w = (Throw e, w').
Proof. intros Hc. unfold bind. by rewrite Hc. Qed.



(** With an alpha mask whose size or depth differs from the picture's,
    the task raises the error of [cv::merge]: no result is stored, the
    codec is not called, and the clock and the file system are as
    before. *)
Theorem save_alpha_mismatch_raises (path : string)
    (input alpha : shared_ptr ImgTask) (quality : Z) (nocrop : bool)
    (w : World) :
  let main := img (pointee input) in
  let mask := img (pointee alpha) in
  has_valid_area (pointee input) = false ->
  has_valid_area (pointee alpha) = false ->
  allocated w main -> allocated w mask ->
  0 < rows main -> 0 < cols main ->
  channels main = 1 \/ channels main = 3 -> 0 < channels mask ->
  Mat_size mask <> Mat_size main \/ depth mask <> depth main ->
  exists w',
    SaveImg.task (SaveImg.new path input (Some alpha) quality nocrop) w
    = (Throw "merge: size or depth mismatch", w') /\
    trace w' = trace w /\ clock w' = clock w /\ fs w' = fs w /\
    (forall r c, Mat_at (heap w') main r c = Mat_at (heap w) main r c).
Proof.
  intros main mask Hno Hnoa Ha Hm Hr Hc Hch Hmc Hbad.
  destruct (add_alpha_spec main alpha nocrop w Hnoa Ha Hm Hr Hc Hch Hmc)
    as [_ Hthrow].
  destruct (Hthrow Hbad) as (w' & Hrun & He).
  exists w'. pose proof He as (Hext & Hclock & Hfs & Htrace).
  split; [|split; [exact Htrace|split; [exact Hclock|split; [exact Hfs|]]]].
  - unfold SaveImg.task. apply bind_throw. unfold SaveImg.composite.
    set (t := SaveImg.new path input (Some alpha) quality nocrop).
    change (m_input t) with (Some input).
    change (m_nocrop t) with nocrop.
    change (m_alphamask t) with (Some alpha).
    cbv iota.
    rewrite (bind_ok _ _ w w (main, Rect_whole main))
      by (by apply select_result_unset).
    cbn beta iota.
    rewrite (bind_ok _ _ w w main)
      by (apply complex_to_rgb_other;
          destruct Hch as [E|E]; rewrite E; discriminate).
    apply bind_throw. exact Hrun.
  - intros r c. by apply Mat_at_extends.
Qed.

Lemma save_alpha_mismatch_raises_witness :
  exists w',
    SaveImg.task
      (SaveImg.new "out.png" Samples.gray10 (Some Samples.mask_small) 95 false)
      Samples.world10_copied
    = (Throw "merge: size or depth mismatch", w') /\
    trace w' = [].
Proof.
  destruct (save_alpha_mismatch_raises "out.png" Samples.gray10
              Samples.mask_small 95 false Samples.world10_copied)
    as (w' & H1 & H2 & _);
    try reflexivity; try (cbn; lia).
  { exists 0%nat. split; [reflexivity|cbn; lia]. }
  { exists 1%nat. split; [reflexivity|cbn; lia]. }
  { left. discriminate. }
  exists w'. split; [exact H1|exact H2].
Defined.

(** ** Alpha masks with a valid region *)

(** [extract_original_area] on a region inside the matrix gives a matrix
    of the region's size that holds the region's pixels. *)
Lemma region_copy (t : ImgTask) (m : Mat) (w0 w : World) :
  heap_extends w0 w -> allocated w0 m -> region_inside t m ->
  exists plane w',
    extract_original_area t m w = (Ok plane, w') /\
    heap_extends w w' /\ allocated w' plane /\
    rows plane = Rect.height (m_valid_area t) /\
    cols plane = Rect.width (m_valid_area t) /\
    depth plane = depth m /\ channels plane = channels m /\
    (forall r c, 0 <= r < Rect.height (m_valid_area t) ->
                 0 <= c < Rect.width (m_valid_area t) ->
       Mat_at (heap w') plane r c
       = Mat_at (heap w0) m (Rect.y (m_valid_area t) + r)
                            (Rect.x (m_valid_area t) + c)).
Proof.
  intros He Ha (Hx & Hy & Hw & Hh & Hxw & Hyh & Hcf & Hrf).
  pose proof (allocated_extends _ _ _ He Ha) as Ha'.
  destruct (covers_whole t m) eqn:Hcov.
  - pose proof Hcov as Hwhole. apply covers_whole_true in Hwhole.
    exists m, w. unfold extract_original_area.
    rewrite (has_valid_area_positive t Hw Hh). cbn [negb].
    fold (covers_whole t m). rewrite Hcov.
    split; [reflexivity|]. split; [apply heap_extends_refl|].
    split; [exact Ha'|]. rewrite Hwhole.
    cbn [Rect.x Rect.y Rect.width Rect.height].
    split_ands; try reflexivity.
    intros r c _ _. rewrite !Z.add_0_l. by apply Mat_at_extends.
  - assert (Hne : m_valid_area t <> Rect.mk 0 0 (cols m) (rows m)).
    { intros E. apply covers_whole_true in E. congruence. }
    destruct Ha' as (p & Hp & Hlt).
    destruct (extract_original_area_copies t m w)
      as (copy & w' & Hrun & Hcopy); try assumption; try lia; [eauto|].
    rewrite safeRect_unchanged in Hcopy by assumption.
    destruct Hcopy as (Hdata & _ & _ & Hr & Hc & Hdp & Hcn & Hpix & [b Hb]
                       & Hclock & Hfs & Htrace).
    exists copy, w'. split; [exact Hrun|].
    split; [split; [by exists [b]|auto]|].
    split.
    { exists (length (heap w)). split; [exact Hdata|].
      rewrite Hb, length_app. cbn. lia. }
    split_ands; try assumption.
    intros r c Hr' Hc'. rewrite Hpix by assumption.
    by apply Mat_at_extends.
Qed.

(** The fourth plane of lines 101-113 for a mask whose valid region lies
    inside it: the region, in either mode. *)
Lemma alpha_plane_region (alpha : shared_ptr ImgTask) (nocrop : bool)
    (w0 w : World) :
  let mask := img (pointee alpha) in
  let region := m_valid_area (pointee alpha) in
  heap_extends w0 w -> allocated w0 mask -> region_inside (pointee alpha) mask ->
  exists plane w',
    (if nocrop
     then
       let maskImg := img (pointee alpha) in
       if has_valid_area (pointee alpha)
       then extract_original_area (pointee alpha) maskImg
       else ret maskImg
     else img_cropped (pointee alpha)) w
    = (Ok plane, w') /\
    heap_extends w w' /\ allocated w' plane /\
    rows plane = Rect.height region /\ cols plane = Rect.width region /\
    depth plane = depth mask /\ channels plane = channels mask /\
    (forall r c, 0 <= r < Rect.height region -> 0 <= c < Rect.width region ->
       Mat_at (heap w') plane r c
       = Mat_at (heap w0) mask (Rect.y region + r) (Rect.x region + c)).
Proof.
  intros mask region He Ha Hin.
  destruct (region_copy (pointee alpha) mask w0 w He Ha Hin)
    as (plane & w' & Hrun & Hrest).
  pose proof Hin as (Hx & Hy & Hw & Hh & Hxw & Hyh & Hcf & Hrf).
  destruct nocrop; cbv zeta.
  - rewrite (has_valid_area_positive (pointee alpha) Hw Hh).
    exists plane, w'. split; [exact Hrun|exact Hrest].
  - rewrite (img_cropped_inside (pointee alpha) w) by assumption.
    fold mask.
    destruct (covers_whole (pointee alpha) mask) eqn:Hcov.
    + pose proof Hcov as Hwhole. apply covers_whole_true in Hwhole.
      unfold extract_original_area in Hrun.
      rewrite (has_valid_area_positive (pointee alpha) Hw Hh) in Hrun.
      cbn [negb] in Hrun. fold (covers_whole (pointee alpha) mask) in Hrun.
      rewrite Hcov in Hrun.
      exists plane, w'. split; [exact Hrun|exact Hrest].
    + exists plane, w'. split; [exact Hrun|exact Hrest].
Qed.

(** Lines 87-116 on a 1-channel or 3-channel result and an alpha mask whose
    valid region lies inside it. *)
Lemma add_alpha_region (rgb : Mat) (alpha : shared_ptr ImgTask) (nocrop : bool)
    (w0 w : World) :
  let mask := img (pointee alpha) in
  let region := m_valid_area (pointee alpha) in
  heap_extends w0 w -> allocated w0 mask -> region_inside (pointee alpha) mask ->
  allocated w rgb -> 0 < rows rgb -> 0 < cols rgb ->
  channels rgb = 1 \/ channels rgb = 3 ->
  0 < channels mask ->
  (Rect.height region = rows rgb /\ Rect.width region = cols rgb /\
   depth mask = depth rgb ->
   exists out w',
     SaveImg.add_alpha rgb (Some alpha) nocrop w = (Ok out, w') /\
     heap_extends w w' /\ allocated w' out /\
     rows out = rows rgb /\ cols out = cols rgb /\ depth out = depth rgb /\
     channels out = 3 + channels mask /\
     (forall r c, 0 <= r < rows rgb -> 0 <= c < cols rgb ->
        Mat_at (heap w') out r c
        = (if channels rgb =? 1
           then Mat_at (heap w) rgb r c ++ Mat_at (heap w) rgb r c
                ++ Mat_at (heap w) rgb r c
           else channel_at 0 (Mat_at (heap w) rgb r c)
                ++ channel_at 1 (Mat_at (heap w) rgb r c)
                ++ channel_at 2 (Mat_at (heap w) rgb r c))
          ++ Mat_at (heap w0) mask (Rect.y region + r) (Rect.x region + c))) /\
  (Rect.height region <> rows rgb \/ Rect.width region <> cols rgb \/
   depth mask <> depth rgb ->
   exists w',
     SaveImg.add_alpha rgb (Some alpha) nocrop w
     = (Throw "merge: size or depth mismatch", w') /\
     heap_extends w w').
Proof.
  intros mask region He0 Hm Hin Ha Hr Hc Hch Hmc.
  unfold SaveImg.add_alpha.
  destruct Hch as [Hch|Hch]; rewrite Hch; cbn [Z.eqb Pos.eqb Z.ltb Z.compare
                                              Pos.compare Pos.compare_cont].
  - (* one channel, replicated *)
    rewrite bind_ret.
    destruct (alpha_plane_region alpha nocrop w0 w He0 Hm Hin)
      as (plane & w1 & Hplane & He1 & Hap & Hpr & Hpc & Hpd & Hpn & Hpp).
    fold mask region in Hpr, Hpc, Hpd, Hpn, Hpp.
    rewrite (bind_ok _ _ w w1 plane Hplane).
    cbn [app replicate take].
    change (<[3%nat:=plane]> [rgb; rgb; rgb; Mat_empty])
      with [rgb; rgb; rgb; plane].
    split.
    + intros (Hsr & Hsc & Hdepth).
      destruct (merge_spec rgb [rgb; rgb; plane] rgb w1 Hr Hc)
        as (out & w' & Hrun & He & Hao & Hout & Hpix).
      { repeat constructor; try (apply Mat_size_eq; lia); congruence. }
      { cbn. rewrite Hch. lia. }
      exists out, w'. split; [exact Hrun|].
      split; [eauto using heap_extends_trans|].
      split; [exact Hao|]. rewrite Hout at 1 2 3 4.
      cbn [rows cols depth channels fmap list_fmap foldr]. rewrite Hch, Hpn.
      split_ands; try reflexivity; try lia.
      intros r c Hr' Hc'. rewrite Hpix by assumption.
      cbn [fmap list_fmap concat]. rewrite app_nil_r.
      rewrite (Mat_at_extends w w1 rgb) by assumption.
      rewrite Hpp by lia. by rewrite <- !app_assoc.
    + intros Hodd. exists w1. split; [|exact He1].
      apply (merge_mismatch rgb [rgb; rgb; plane] plane);
        [rewrite !elem_of_cons; auto|].
      destruct Hodd as [Hodd|[Hodd|Hodd]]; [left|left|right; congruence].
      * intros E. injection E as _ E. lia.
      * intros E. injection E as E _. lia.
  - (* three channels, split *)
    unfold split. rewrite Hch. change (seqZ 0 3) with [0; 1; 2].
    destruct (extract_channels_spec rgb [0; 1; 2] w Ha Hr Hc)
      as (planes & w1 & Hrun & He & Hlen & Hplanes).
    destruct planes as [|c0 [|c1 [|c2 [|]]]]; try discriminate.
    destruct (Hplanes 0%nat c0 eq_refl)
      as (Ha0 & Hr0 & Hc0 & Hd0 & Hn0 & i0 & Hi0 & Hp0).
    destruct (Hplanes 1%nat c1 eq_refl)
      as (Ha1 & Hr1 & Hc1 & Hd1 & Hn1 & i1 & Hi1 & Hp1).
    destruct (Hplanes 2%nat c2 eq_refl)
      as (Ha2 & Hr2 & Hc2 & Hd2 & Hn2 & i2 & Hi2 & Hp2).
    injection Hi0 as <-. injection Hi1 as <-. injection Hi2 as <-.
    rewrite (bind_ok _ _ w w1 [c0; c1; c2] Hrun).
    destruct (alpha_plane_region alpha nocrop w0 w1
                (heap_extends_trans _ _ _ He0 He) Hm Hin)
      as (plane & w2 & Hplane & He2 & Hap & Hpr & Hpc & Hpd & Hpn & Hpp).
    fold mask region in Hpr, Hpc, Hpd, Hpn, Hpp.
    rewrite (bind_ok _ _ w1 w2 plane Hplane).
    cbn [app replicate take].
    change (<[3%nat:=plane]> [c0; c1; c2; Mat_empty]) with [c0; c1; c2; plane].
    split.
    + intros (Hsr & Hsc & Hdepth).
      destruct (merge_spec c0 [c1; c2; plane] rgb w2)
        as (out & w' & Hrun' & He' & Hao & Hout & Hpix).
      { lia. } { lia. }
      { repeat constructor; try (apply Mat_size_eq; lia); congruence. }
      { cbn. rewrite Hn0, Hn1, Hn2, Hch. lia. }
      exists out, w'. split; [exact Hrun'|].
      split; [eauto using heap_extends_trans|].
      split; [exact Hao|]. rewrite Hout at 1 2 3 4.
      cbn [rows cols depth channels fmap list_fmap foldr].
      rewrite Hn0, Hn1, Hn2, Hpn.
      split_ands; try lia; try congruence.
      intros r c Hr' Hc'. rewrite Hpix by lia.
      cbn [fmap list_fmap concat]. rewrite app_nil_r.
      rewrite (Mat_at_extends w1 w2 c0), (Mat_at_extends w1 w2 c1),
        (Mat_at_extends w1 w2 c2) by assumption.
      rewrite Hp0, Hp1, Hp2 by assumption.
      rewrite Hpp by lia. by rewrite <- !app_assoc.
    + intros Hodd. exists w2. split; [|eauto using heap_extends_trans].
      apply (merge_mismatch c0 [c1; c2; plane] plane);
        [rewrite !elem_of_cons; auto|].
      destruct Hodd as [Hodd|[Hodd|Hodd]]; [left|left|right; congruence].
      * intros E. injection E as _ E. lia.
      * intros E. injection E as E _. lia.
Qed.



(** In crop mode the picture (1-channel or 3-channel) and the alpha mask
    (1-channel, of the picture's depth) are each cut to their own valid
    region.  When both regions lie inside their buffers and have the same
    size, the saved picture has that size and four channels: the
    picture's region (a gray value repeated three times, or its three
    channels) followed by the mask's region, position by position. *)
Theorem save_crop_with_alpha_cuts_both (path : string)
    (input alpha : shared_ptr ImgTask) (quality : Z) (w : World) :
  let main := img (pointee input) in
  let mask := img (pointee alpha) in
  let region := m_valid_area (pointee input) in
  let mregion := m_valid_area (pointee alpha) in
  allocated w main -> allocated w mask ->
  channels main = 1 \/ channels main = 3 -> channels mask = 1 ->
  depth mask = depth main ->
  region_inside (pointee input) main ->
  region_inside (pointee alpha) mask ->
  Rect.width mregion = Rect.width region ->
  Rect.height mregion = Rect.height region ->
  exists t' w',
    SaveImg.task (SaveImg.new path input (Some alpha) quality false) w
    = (Ok t', w') /\
    rows (m_result (save_img t')) = Rect.height region /\
    cols (m_result (save_img t')) = Rect.width region /\
    channels (m_result (save_img t')) = 4 /\
    depth (m_result (save_img t')) = depth main /\
    m_valid_area (save_img t') = Rect.mk 0 0 (Rect.width region)
                                              (Rect.height region) /\
    (channels main = 1 ->
     forall r c v a, 0 <= r < Rect.height region -> 0 <= c < Rect.width region ->
       Mat_at (heap w) main (Rect.y region + r) (Rect.x region + c) = [v] ->
       Mat_at (heap w) mask (Rect.y mregion + r) (Rect.x mregion + c) = [a] ->
       Mat_at (heap w') (m_result (save_img t')) r c = [v; v; v; a]) /\
    (channels main = 3 ->
     forall r c b g r' a,
       0 <= r < Rect.height region -> 0 <= c < Rect.width region ->
       Mat_at (heap w) main (Rect.y region + r) (Rect.x region + c)
       = [b; g; r'] ->
       Mat_at (heap w) mask (Rect.y mregion + r) (Rect.x mregion + c) = [a] ->
       Mat_at (heap w') (m_result (save_img t')) r c = [b; g; r'; a]) /\
    (forall r c, Mat_at (heap w') main r c = Mat_at (heap w) main r c) /\
    (forall r c, Mat_at (heap w') mask r c = Mat_at (heap w) mask r c) /\
    trace w' =
      trace w ++
      (if SaveImg.writes_file path
       then [EvImwrite path
               (Mat_snapshot (heap w') (m_result (save_img t')))
               [IMWRITE_JPEG_QUALITY; quality]]
       else []).
Proof.
  intros main mask region mregion Ha Hm Hch Hmc Hdepth Hin Hmin Hw Hh.
  destruct (alpha_plane_region input false w w (heap_extends_refl w) Ha Hin)
    as (result & w1 & Hcrop & He1 & Har & Hrr & Hrc & Hrd & Hrn & Hrp).
  cbv iota in Hcrop. fold main region in Hrr, Hrc, Hrd, Hrn, Hrp.
  pose proof Hin as (_ & _ & Hpw & Hph & _).
  fold region in Hpw, Hph.
  destruct (add_alpha_region result alpha false w w1 He1 Hm Hmin Har
              ltac:(lia) ltac:(lia) ltac:(rewrite Hrn; exact Hch)
              ltac:(fold mask; lia))
    as [Hok _].
  destruct Hok as (out & w2 & Hrun & He2 & Hao & Hro & Hco & Hdo & Hno & Hpix).
  { fold mask mregion. split_ands; congruence. }
  fold mask mregion in Hno, Hpix.
  pose proof (select_result_new_crop path input (Some alpha) quality w) as Hsel.
  rewrite Hcrop in Hsel.
  rewrite (save_task_steps
             (SaveImg.new path input (Some alpha) quality false) input
             w w1 w1 w2 result result out (Rect_whole result));
    [|reflexivity|exact Hsel
     |apply complex_to_rgb_other; rewrite Hrn;
      destruct Hch as [E|E]; rewrite E; discriminate
     |exact Hrun
     |apply (allocated_nonempty w2); [exact Hao|lia|lia]].
  pose proof (heap_extends_trans _ _ _ He1 He2) as He.
  pose proof He as (_ & _ & _ & Htrace).
  eexists _, _. split; [reflexivity|].
  cbn [save_img m_result m_valid_area heap trace].
  split; [congruence|]. split; [congruence|]. split; [lia|].
  split; [congruence|].
  split; [unfold Rect_whole; by rewrite Hrr, Hrc|].
  split; [|split; [|split; [|split]]].
  - intros E r c v a Hr' Hc' Hv Hma.
    rewrite Hpix by lia. rewrite Hrn, E, Hrp, Hv, Hma by assumption.
    reflexivity.
  - intros E r c b g r' a Hr' Hc' Hv Hma.
    rewrite Hpix by lia. rewrite Hrn, E, Hrp, Hv, Hma by assumption.
    reflexivity.
  - intros r c. by apply Mat_at_extends.
  - intros r c. by apply Mat_at_extends.
  - by rewrite Htrace.
Qed.

Lemma save_crop_with_alpha_cuts_both_witness :
  exists t' w',
    SaveImg.task
      (SaveImg.new "out.png" Samples.padded_input
                   (Some Samples.mask10_region) 95 false)
      Samples.world10_copied = (Ok t', w') /\
    rows (m_result (save_img t')) = 8 /\
    cols (m_result (save_img t')) = 8 /\
    channels (m_result (save_img t')) = 4 /\
    Mat_at (heap w') (m_result (save_img t')) 0 0 = [11; 11; 11; 22] /\
    Mat_at (heap w') (m_result (save_img t')) 7 7 = [88; 88; 88; 99].
Proof.
  destruct (save_crop_with_alpha_cuts_both "out.png" Samples.padded_input
              Samples.mask10_region 95 Samples.world10_copied)
    as (t' & w' & H1 & H2 & H3 & H4 & _ & _ & H7 & _);
    try reflexivity; try (cbn; lia).
  { exists 0%nat. split; [reflexivity|cbn; lia]. }
  { exists 1%nat. split; [reflexivity|cbn; lia]. }
  { unfold region_inside, Int32.fits, Int32.min_int, Int32.max_int. cbn. lia. }
  { unfold region_inside, Int32.fits, Int32.min_int, Int32.max_int. cbn. lia. }
  exists t', w'. split; [exact H1|]. split; [exact H2|]. split; [exact H3|].
  split; [exact H4|]. split.
  - apply (H7 eq_refl 0 0 11 22); [cbn; lia|cbn; lia|reflexivity|reflexivity].
  - apply (H7 eq_refl 7 7 88 99); [cbn; lia|cbn; lia|reflexivity|reflexivity].
Defined.
